(** * EpubEditor: the markup conversion engine and the chapter model

    A shallow embedding of [src/epub_editor.py]: the conversions
    [_html_to_markdown] and [_markdown_to_html], the chapter list built by
    [_load_epub_file], the full-book buffer of [_load_full_book] and the
    commit performed by [_save_epub_to_path]; the moves between chapters
    and views ([_switch_view_mode], [_on_view_mode_changed],
    [_on_chapter_selected], [_previous_chapter], [_next_chapter]), the
    formatting commands ([_insert_format]) and the ranges the widget tags
    ([_apply_text_formatting]).

    Python strings are sequences of Unicode code points; [re] and
    [str.strip] classify characters by code point, so a string is a list
    of code points here. The state of the application is a record that
    every operation takes and returns; the items of the book are a list,
    and a chapter refers to its item by position, as the entries of
    [self.chapters] share the item objects of the book. The HTML parser is
    a parameter. The dialogs, the status line, the fonts and colours of
    the tags and the reading and writing of the package file are left out:
    none of them changes a chapter, an item or the buffer. The content of
    an item is taken as text: [encode('utf-8')] gives the text back,
    unless the text holds a surrogate code point, which cannot be encoded
    and makes the save end in its [except] branch. *)

From Stdlib Require Import List NArith Arith Lia Bool.
From Stdlib Require Import Strings.Ascii Strings.String Numbers.DecimalString.
From stdpp Require Import base list.
Import ListNotations.

Open Scope nat_scope.
Open Scope list_scope.

(** ** Strings *)

Module Py.

Definition char : Type := N.
Definition str : Type := list char.

(** A literal of the source, written as a Rocq string. *)
Definition lit (s : string) : str :=
  List.map N_of_ascii (list_ascii_of_string s).

Definition nl : char := 10%N.
Definition is_nl (c : char) : bool := N.eqb c nl.

(** [str.isspace] on one code point, which is also the class [\s] of [re]
    on a [str] pattern: the code points CPython lists as white space. *)
Definition isspace (c : char) : bool :=
  ((9 <=? c) && (c <=? 13) || (28 <=? c) && (c <=? 32)
   || (c =? 133) || (c =? 160) || (c =? 5760)
   || (8192 <=? c) && (c <=? 8202)
   || (c =? 8232) || (c =? 8233) || (c =? 8239) || (c =? 8287)
   || (c =? 12288))%N.

Fixpoint lstrip (s : str) : str :=
  match s with
  | c :: s' => if isspace c then lstrip s' else s
  | [] => []
  end.

Definition rstrip (s : str) : str := rev (lstrip (rev s)).

(** [s.strip()] *)
Definition strip (s : str) : str := rstrip (lstrip s).

(** [s.startswith(p)] *)
Fixpoint startswith (s p : str) : bool :=
  match p, s with
  | [], _ => true
  | _ :: _, [] => false
  | a :: p', c :: s' => N.eqb c a && startswith s' p'
  end.

(** The truth value of a string: [if p]. *)
Definition nonempty (s : str) : bool :=
  match s with [] => false | _ :: _ => true end.

(** [sep.join(parts)] *)
Fixpoint join (sep : str) (parts : list str) : str :=
  match parts with
  | [] => []
  | [p] => p
  | p :: ps => p ++ sep ++ join sep ps
  end.

(** [s.split(sep)] for a non-empty [sep]: the occurrences of [sep] are
    taken leftmost first and do not overlap. [skip] counts the characters
    of an occurrence that are still to be passed over, [cur] is the piece
    being collected. *)
Fixpoint split_scan (sep : str) (skip : nat) (cur : str) (s : str) : list str :=
  match s with
  | [] => [cur]
  | c :: s' =>
      match skip with
      | S n => split_scan sep n cur s'
      | O =>
          if startswith s sep
          then cur :: split_scan sep (length sep - 1) [] s'
          else split_scan sep O (cur ++ [c]) s'
      end
  end.

Definition split (sep s : str) : list str := split_scan sep 0 [] s.

(** [str(n)] for a non-negative [int]. *)
Definition str_of_nat (n : nat) : str :=
  lit (NilEmpty.string_of_uint (Nat.to_uint n)).

(** ["#" * n] *)
Definition repeat_str (s : str) (n : nat) : str := concat (repeat s n).

End Py.

Import Py.

(** ** The fragment of [re] the program uses

    The seven patterns of the program are sequences of literal characters,
    the anchors [^] and [$] under [re.MULTILINE], and one-or-more
    repetitions of a character class ([\s+], [.+], [.+?]), of which exactly
    one is the capturing group 1. *)

Module Re.

Inductive atom : Type :=
| Lit (c : char)                                  (* a literal character *)
| Bol                                             (* ^ with MULTILINE *)
| Eol                                             (* $ with MULTILINE *)
| Plus (greedy : bool) (cls : char -> bool)       (* X+ and X+? *)
| Group (greedy : bool) (cls : char -> bool).     (* (X+) and (X+?) *)

Definition regex : Type := list atom.

(** [.] without DOTALL: anything but a newline. *)
Definition dot (c : char) : bool := negb (is_nl c).

(** The state of a match attempt: the character before the current
    position ([None] at the start of the string) and the rest of the
    subject. *)
Definition at_bol (prev : option char) : bool :=
  match prev with None => true | Some c => is_nl c end.

Definition at_eol (s : str) : bool :=
  match s with [] => true | c :: _ => is_nl c end.

Section Backtracking.
Context {R : Type}.

(** One-or-more characters of [cls], then the continuation [k]. The
    greedy form tries the longest repetition first and gives characters
    back one at a time; the lazy form tries the shortest first.
    [acc] is the text taken so far. *)
Fixpoint plus (greedy : bool) (cls : char -> bool)
    (k : str -> option char -> str -> option R)
    (acc : str) (s : str) : option R :=
  match s with
  | [] => None
  | c :: s' =>
      if cls c then
        if greedy then
          match plus greedy cls k (acc ++ [c]) s' with
          | Some r => Some r
          | None => k (acc ++ [c]) (Some c) s'
          end
        else
          match k (acc ++ [c]) (Some c) s' with
          | Some r => Some r
          | None => plus greedy cls k (acc ++ [c]) s'
          end
      else None
  end.
End Backtracking.

(** A match attempt at one position: group 1 and the rest of the subject
    after the match. *)
Fixpoint run (r : regex) (g : str) (prev : option char) (s : str)
    : option (str * str) :=
  match r with
  | [] => Some (g, s)
  | Lit c :: r' =>
      match s with
      | x :: s' => if N.eqb x c then run r' g (Some x) s' else None
      | [] => None
      end
  | Bol :: r' => if at_bol prev then run r' g prev s else None
  | Eol :: r' => if at_eol s then run r' g prev s else None
  | Plus greedy cls :: r' =>
      plus greedy cls (fun _ p t => run r' g p t) [] s
  | Group greedy cls :: r' =>
      plus greedy cls (fun acc p t => run r' acc p t) [] s
  end.

Definition match_at (r : regex) (prev : option char) (s : str)
    : option (str * str) := run r [] prev s.

(** [re.sub(r, template, s)] where the template is [pre \1 post]. The
    subject is scanned from the left; where the pattern matches, the match
    is replaced and the scan resumes after it, elsewhere one character is
    copied. No pattern of the program matches the empty string, so a match
    always covers the current character; [skip] counts the characters of
    the match that remain to be passed over. *)
Fixpoint sub_scan (r : regex) (pre post : str) (prev : option char)
    (skip : nat) (s : str) : str :=
  match s with
  | [] => []
  | c :: s' =>
      match skip with
      | S n => sub_scan r pre post (Some c) n s'
      | O =>
          match match_at r prev s with
          | Some (g, rest) =>
              pre ++ g ++ post
                ++ sub_scan r pre post (Some c) (length s - length rest - 1) s'
          | None => c :: sub_scan r pre post (Some c) O s'
          end
      end
  end.

Definition sub (r : regex) (pre post : str) (s : str) : str :=
  sub_scan r pre post None 0 s.

(** [re.split(r, s)] for a pattern with one group: the text before each
    match, then its group 1, and the text after the last match. *)
Fixpoint split_scan (r : regex) (prev : option char) (skip : nat)
    (cur : str) (s : str) : list str :=
  match s with
  | [] => [cur]
  | c :: s' =>
      match skip with
      | S n => split_scan r (Some c) n cur s'
      | O =>
          match match_at r prev s with
          | Some (g, rest) =>
              cur :: g :: split_scan r (Some c) (length s - length rest - 1) [] s'
          | None => split_scan r (Some c) O (cur ++ [c]) s'
          end
      end
  end.

Definition split (r : regex) (s : str) : list str := split_scan r None 0 [] s.

(** The literal characters of a pattern. *)
Definition lits (s : string) : regex := List.map Lit (lit s).

End Re.

Import Re.

(** ** The patterns of the program *)

(** [r'^#\s+(.+)$'], [r'^##\s+(.+)$'], [r'^###\s+(.+)$'] with
    [re.MULTILINE] *)
Definition re_heading (level : nat) : regex :=
  Bol :: List.map Lit (repeat_str (lit "#") level)
    ++ [Plus true isspace; Group true dot; Eol].

(** [r'\*\*(.+?)\*\*'] *)
Definition re_bold : regex := lits "**" ++ [Group false dot] ++ lits "**".

(** [r'\*(.+?)\*'] *)
Definition re_italic : regex := lits "*" ++ [Group false dot] ++ lits "*".

(** [r'__(.+?)__'] *)
Definition re_underline : regex := lits "__" ++ [Group false dot] ++ lits "__".

(** [r'^=== (.+?) ===$'] with [re.MULTILINE] *)
Definition re_delimiter : regex :=
  Bol :: lits "=== " ++ [Group false dot] ++ lits " ===" ++ [Eol].

(** ** Markup to HTML: [_markdown_to_html] *)

Definition open_tag (name : str) : str := lit "<" ++ name ++ lit ">".
Definition close_tag (name : str) : str := lit "</" ++ name ++ lit ">".

Definition heading_name (level : nat) : str := lit "h" ++ str_of_nat level.

(** The three heading substitutions. *)
Definition convert_headings (text : str) : str :=
  let text := sub (re_heading 1) (lit "<h1>") (lit "</h1>") text in
  let text := sub (re_heading 2) (lit "<h2>") (lit "</h2>") text in
  sub (re_heading 3) (lit "<h3>") (lit "</h3>") text.

(** The three formatting substitutions, bold first. *)
Definition convert_formatting (text : str) : str :=
  let text := sub re_bold (lit "<strong>") (lit "</strong>") text in
  let text := sub re_italic (lit "<em>") (lit "</em>") text in
  sub re_underline (lit "<u>") (lit "</u>") text.

(** ['\n\n'] *)
Definition blank_line : str := [nl; nl].

(** One turn of the paragraph loop: [html_paragraphs] after block [p]. *)
Definition paragraph_step (html_paragraphs : list str) (p : str) : list str :=
  let p := strip p in
  if nonempty p && negb (startswith p (lit "<h"))
  then html_paragraphs ++ [lit "<p>" ++ p ++ lit "</p>"]
  else if nonempty p then html_paragraphs ++ [p]
  else html_paragraphs.

(** The paragraph loop over the text left by the substitutions. *)
Definition wrap_paragraphs (text : str) : list str :=
  let paragraphs := Py.split blank_line text in
  fold_left paragraph_step paragraphs [].

(** The list [html_paragraphs] at the end of [_markdown_to_html]. *)
Definition html_paragraphs (text : str) : list str :=
  wrap_paragraphs (convert_formatting (convert_headings text)).

Definition markdown_to_html (text : str) : str :=
  join [nl] (html_paragraphs text).

(** ** The parsed HTML tree

    What the program uses of a [BeautifulSoup] tree: tags with a name and
    children, and text nodes. *)

#[warnings="-register-all"]
Inductive node : Type :=
| Text (s : str)
| Tag (name : str) (children : list node).

(** [element.get_text()]: the text nodes below the element, in order. *)
Fixpoint get_text (n : node) : str :=
  match n with
  | Text s => s
  | Tag _ children => concat (List.map get_text children)
  end.

(** [soup.get_text()] *)
Definition soup_text (soup : list node) : str := concat (List.map get_text soup).

(** The tags at and below a node, in document order. *)
Fixpoint tags_of (n : node) : list node :=
  match n with
  | Text _ => []
  | Tag _ children => n :: concat (List.map tags_of children)
  end.

Fixpoint str_eqb (a b : str) : bool :=
  match a, b with
  | [], [] => true
  | x :: a', y :: b' => N.eqb x y && str_eqb a' b'
  | _, _ => false
  end.

(** [name in names] *)
Definition name_in (name : str) (names : list str) : bool :=
  existsb (str_eqb name) names.

Definition tag_name (n : node) : str :=
  match n with Tag name _ => name | Text _ => [] end.

(** [soup.find_all(names)] *)
Definition find_all (names : list str) (soup : list node) : list node :=
  List.filter (fun n => name_in (tag_name n) names)
    (concat (List.map tags_of soup)).

(** [soup.find(name)] *)
Definition find (name : str) (soup : list node) : option node :=
  head (find_all [name] soup).

(** ** HTML to markup: [_html_to_markdown] *)

Definition heading_names : list str :=
  [lit "h1"; lit "h2"; lit "h3"; lit "h4"; lit "h5"; lit "h6"].

Definition markup_names : list str :=
  heading_names ++ [lit "p"; lit "strong"; lit "b"; lit "em"; lit "i"; lit "u"].

(** [int(element.name[1])] for a name that is one of [h1] to [h6]. *)
Definition heading_level (name : str) : nat :=
  match name with
  | _ :: d :: _ => N.to_nat (d - 48)
  | _ => 0
  end.

(** What one turn of the loop appends to [content]. *)
Definition element_markup (element : node) : str :=
  let name := tag_name element in
  if name_in name heading_names then
    repeat_str (lit "#") (heading_level name) ++ lit " "
      ++ strip (get_text element) ++ blank_line
  else if str_eqb name (lit "p") then
    let text := strip (get_text element) in
    if nonempty text then text ++ blank_line else []
  else if name_in name [lit "strong"; lit "b"] then
    lit "**" ++ strip (get_text element) ++ lit "**"
  else if name_in name [lit "em"; lit "i"] then
    lit "*" ++ strip (get_text element) ++ lit "*"
  else if str_eqb name (lit "u") then
    lit "__" ++ strip (get_text element) ++ lit "__"
  else [].

Definition html_to_markdown (soup : list node) : str :=
  strip (fold_left (fun content element => content ++ element_markup element)
           (find_all markup_names soup) []).

(** ** The book, the chapter list and the editing buffer *)

Inductive item_type : Type := ITEM_DOCUMENT | ITEM_OTHER.

(** An item of the package: its type and its content, as text. *)
Record item : Type := { get_type : item_type; get_content : str }.

(** An entry of [self.chapters]. The entry refers to an item of the book,
    it does not copy it: [ch_item] is the position of that item among
    [book.get_items()]. *)
Record chapter : Type := {
  ch_item : nat;
  ch_title : str;
  ch_content : str
}.

Inductive mode : Type := chapter_view | full_book_view.

Record editor : Type := {
  current_book : list item;
  chapters : list chapter;
  current_chapter_index : nat;
  view_mode : mode;
  editor_text : str       (* what the text widget holds *)
}.

(** [self.editor_text.get(1.0, tk.END)]: the widget ends its text with a
    newline. *)
Definition editor_get (e : editor) : str := editor_text e ++ [nl].

(** [item.set_content(c)] on the item at position [i] of the book. *)
Definition set_content (book : list item) (i : nat) (c : str) : list item :=
  match book !! i with
  | Some it => <[i := {| get_type := get_type it; get_content := c |}]> book
  | None => book
  end.

(** [chapter['item'].get_content()] *)
Definition chapter_source (book : list item) (ch : chapter) : str :=
  match book !! ch_item ch with
  | Some it => get_content it
  | None => []
  end.

Definition spaces (n : nat) : str := repeat 32%N n.

(** The f-string of [_save_epub_to_path]; [indent] is the indentation of
    the literal in the source, 20 in the chapter branch and 24 in the
    full-book branch. *)
Definition full_html (indent : nat) (title html_content : str) : str :=
  [nl] ++ spaces indent ++ lit "<html>" ++ [nl]
    ++ spaces indent ++ lit "<head>" ++ [nl]
    ++ spaces (indent + 4) ++ lit "<title>" ++ title ++ lit "</title>" ++ [nl]
    ++ spaces indent ++ lit "</head>" ++ [nl]
    ++ spaces indent ++ lit "<body>" ++ [nl]
    ++ spaces (indent + 4) ++ html_content ++ [nl]
    ++ spaces indent ++ lit "</body>" ++ [nl]
    ++ spaces indent ++ lit "</html>" ++ [nl]
    ++ spaces indent.

Section Editor.

(** The HTML parser, [BeautifulSoup(content, 'html.parser')]. *)
Variable parse : str -> list node.

(** *** [_load_epub_file]: the chapter loop *)

Definition chapter_title (soup : list node) (count : nat) : str :=
  match find (lit "title") soup with
  | Some chapter_title => strip (get_text chapter_title)
  | None => lit "Chapter " ++ str_of_nat (count + 1)
  end.

(** The loop over [book.get_items()]; [pos] is the position of the next
    item and [chs] is [self.chapters] so far. *)
Fixpoint load_chapters (pos : nat) (items : list item) (chs : list chapter)
    : list chapter :=
  match items with
  | [] => chs
  | it :: rest =>
      match get_type it with
      | ITEM_DOCUMENT =>
          let soup := parse (get_content it) in
          let title := chapter_title soup (length chs) in
          load_chapters (S pos) rest
            (chs ++ [{| ch_item := pos; ch_title := title;
                        ch_content := soup_text soup |}])
      | ITEM_OTHER => load_chapters (S pos) rest chs
      end
  end.

(** *** [_load_chapter] *)
Definition load_chapter (index : nat) (e : editor) : editor :=
  match chapters e !! index with
  | Some ch =>
      let soup := parse (chapter_source (current_book e) ch) in
      {| current_book := current_book e; chapters := chapters e;
         current_chapter_index := current_chapter_index e;
         view_mode := view_mode e;
         editor_text := html_to_markdown soup |}
  | None => e
  end.

(** *** [_load_full_book] *)
Definition full_content (book : list item) (chs : list chapter) : str :=
  fold_left
    (fun full_content ch =>
       let soup := parse (chapter_source book ch) in
       let full_content :=
         full_content ++ lit "=== " ++ ch_title ch ++ lit " ===" ++ blank_line in
       full_content ++ html_to_markdown soup ++ blank_line)
    chs [].

Definition load_full_book (e : editor) : editor :=
  match chapters e with
  | [] => e
  | _ :: _ =>
      {| current_book := current_book e; chapters := chapters e;
         current_chapter_index := current_chapter_index e;
         view_mode := view_mode e;
         editor_text := strip (full_content (current_book e) (chapters e)) |}
  end.

(** *** [_load_epub_file] *)
Definition load_epub_file (book : list item) (e : editor) : editor :=
  let chs := load_chapters 0 book [] in
  let e' := {| current_book := book; chapters := chs;
               current_chapter_index := current_chapter_index e;
               view_mode := view_mode e; editor_text := editor_text e |} in
  match chs with
  | [] => e'
  | _ :: _ =>
      let e0 := {| current_book := book; chapters := chs;
                   current_chapter_index := 0;
                   view_mode := view_mode e; editor_text := editor_text e |} in
      match view_mode e with
      | chapter_view => load_chapter 0 e0
      | full_book_view => load_full_book e0
      end
  end.

End Editor.

(** *** [_save_epub_to_path]: the commit of the buffer into the items *)

Definition with_book (e : editor) (book : list item) : editor :=
  {| current_book := book; chapters := chapters e;
     current_chapter_index := current_chapter_index e;
     view_mode := view_mode e; editor_text := editor_text e |}.

(** [s.encode('utf-8')]: a surrogate code point cannot be encoded, and
    [encode] raises [UnicodeEncodeError] on a text that holds one. The
    exception leaves the [try] block of [_save_epub_to_path]: what was
    written into the items before stays, nothing more is written. *)
Definition is_surrogate (c : char) : bool := ((55296 <=? c) && (c <=? 57343))%N.

Definition encode_utf8 (s : str) : option str :=
  if existsb is_surrogate s then None else Some s.

(** The chapter branch. *)
Definition save_chapter (e : editor) : editor :=
  match chapters e !! current_chapter_index e with
  | Some ch =>
      let content := strip (editor_get e) in
      let html_content := markdown_to_html content in
      match encode_utf8 (full_html 20 (ch_title ch) html_content) with
      | Some encoded =>
          with_book e (set_content (current_book e) (ch_item ch) encoded)
      | None => e
      end
  | None => e
  end.

(** [range(1, n, 2)] *)
Fixpoint odd_range (pairs : nat) (i : nat) : list nat :=
  match pairs with
  | O => []
  | S k => i :: odd_range k (i + 2)
  end.

Definition range_1_step_2 (n : nat) : list nat := odd_range (n / 2) 1.

(** One turn of the loop of the full-book branch: the book and
    [chapter_index] after the turn for index [i], or [None] when [encode]
    raises. *)
Definition save_section (chs : list chapter) (chapter_sections : list str)
    (st : list item * nat) (i : nat) : option (list item * nat) :=
  let (book, chapter_index) := st in
  match chs !! chapter_index with
  | Some ch =>
      let chapter_content :=
        if i + 1 <? length chapter_sections
        then strip (nth (i + 1) chapter_sections [])
        else [] in
      let html_content := markdown_to_html chapter_content in
      match encode_utf8 (full_html 24 (ch_title ch) html_content) with
      | Some encoded =>
          Some (set_content book (ch_item ch) encoded, chapter_index + 1)
      | None => None
      end
  | None => Some st
  end.

(** The loop over the indices [turns]: it ends at the first turn that
    raises, with the items as they are then. *)
Fixpoint save_sections (chs : list chapter) (chapter_sections : list str)
    (turns : list nat) (st : list item * nat) : list item * nat :=
  match turns with
  | [] => st
  | i :: turns' =>
      match save_section chs chapter_sections st i with
      | Some st' => save_sections chs chapter_sections turns' st'
      | None => st
      end
  end.

(** The full-book branch. *)
Definition chapter_sections (e : editor) : list str :=
  Re.split re_delimiter (strip (editor_get e)).

Definition save_full_book (e : editor) : editor :=
  let sections := chapter_sections e in
  with_book e
    (fst (save_sections (chapters e) sections
            (range_1_step_2 (length sections)) (current_book e, 0))).

Definition save_epub_to_path (e : editor) : editor :=
  match view_mode e with
  | chapter_view => save_chapter e
  | full_book_view => save_full_book e
  end.

(** ** Moving between chapters and views *)

Definition with_index (e : editor) (index : nat) : editor :=
  {| current_book := current_book e; chapters := chapters e;
     current_chapter_index := index;
     view_mode := view_mode e; editor_text := editor_text e |}.

Definition with_mode (e : editor) (m : mode) : editor :=
  {| current_book := current_book e; chapters := chapters e;
     current_chapter_index := current_chapter_index e;
     view_mode := m; editor_text := editor_text e |}.

(** [mode == self.view_mode] *)
Definition mode_eqb (a b : mode) : bool :=
  match a, b with
  | chapter_view, chapter_view => true
  | full_book_view, full_book_view => true
  | _, _ => false
  end.

Section Navigation.

Variable parse : str -> list node.

(** [_switch_view_mode] *)
Definition switch_view_mode (m : mode) (e : editor) : editor :=
  if mode_eqb m (view_mode e) then e
  else
    let e := with_mode e m in
    match m with
    | chapter_view =>
        match chapters e with
        | [] => e
        | _ :: _ => load_chapter parse (current_chapter_index e) e
        end
    | full_book_view => load_full_book parse e
    end.

(** [_on_view_mode_changed]; [value] is what the drop-down list of the
    tool bar holds. *)
Definition on_view_mode_changed (value : str) (e : editor) : editor :=
  if str_eqb value (lit "Chapter") then switch_view_mode chapter_view e
  else switch_view_mode full_book_view e.

(** [_on_chapter_selected]; [selection] is [curselection()] of the chapter
    list. *)
Definition on_chapter_selected (selection : list nat) (e : editor) : editor :=
  match view_mode e with
  | chapter_view =>
      match selection with
      | index :: _ => load_chapter parse index (with_index e index)
      | [] => e
      end
  | full_book_view => e
  end.

(** [_previous_chapter] *)
Definition previous_chapter (e : editor) : editor :=
  match view_mode e with
  | chapter_view =>
      if 0 <? current_chapter_index e then
        let e := with_index e (current_chapter_index e - 1) in
        load_chapter parse (current_chapter_index e) e
      else e
  | full_book_view => e
  end.

(** [_next_chapter]; [len(self.chapters) - 1] is [-1] when there is no
    chapter, so the comparison is one of integers. *)
Definition next_chapter (e : editor) : editor :=
  match view_mode e with
  | chapter_view =>
      if (Z.of_nat (current_chapter_index e)
          <? Z.of_nat (length (chapters e)) - 1)%Z then
        let e := with_index e (current_chapter_index e + 1) in
        load_chapter parse (current_chapter_index e) e
      else e
  | full_book_view => e
  end.

End Navigation.

(** ** The formatting tags of the widget: [_apply_text_formatting] *)

(** [re.finditer(r, s)] as far as the program uses it: the spans
    [(m.start(), m.end())] of the matches, found from the left and not
    overlapping. [pos] is the offset of [s] in the subject, [skip] counts
    the characters of a match that remain to be passed over. *)
Fixpoint finditer_scan (r : regex) (prev : option char) (skip pos : nat)
    (s : str) : list (nat * nat) :=
  match s with
  | [] => []
  | c :: s' =>
      match skip with
      | S n => finditer_scan r (Some c) n (S pos) s'
      | O =>
          match match_at r prev s with
          | Some (_, rest) =>
              (pos, pos + (length s - length rest))
                :: finditer_scan r (Some c) (length s - length rest - 1) (S pos) s'
          | None => finditer_scan r (Some c) O (S pos) s'
          end
      end
  end.

Definition finditer (r : regex) (s : str) : list (nat * nat) :=
  finditer_scan r None 0 0 s.

(** The ranges each tag covers once [_apply_text_formatting] has run, as
    offsets from the start of the text: the range of a match goes from
    [1.0+{match.start()}c] to [1.0+{match.end()}c]. The tags are cleared
    first, so the ranges depend on the content only. *)
Record formatting : Type := {
  tag_chapter_separator : list (nat * nat);
  tag_heading : list (nat * nat);
  tag_bold : list (nat * nat);
  tag_italic : list (nat * nat);
  tag_underline : list (nat * nat)
}.

Definition apply_text_formatting (content : str) : formatting :=
  {| tag_chapter_separator := finditer re_delimiter content;
     tag_heading := finditer (re_heading 1) content;
     tag_bold := finditer re_bold content;
     tag_italic := finditer re_italic content;
     tag_underline := finditer re_underline content |}.

(** ** The formatting commands: [_insert_format] *)

(** The text widget as [_insert_format] uses it: the text it holds, the
    insertion cursor [tk.INSERT] and the selected range from
    [tk.SEL_FIRST] to [tk.SEL_LAST], if there is a selection; positions
    are offsets from the start of the text. A selection is not empty, and
    it lies, like the cursor, within the text held. *)
Record widget : Type := {
  widget_text : str;
  insert_mark : nat;
  sel_range : option (nat * nat)
}.

(** Where a mark stands once the range from [first] to [last] is deleted:
    a mark inside the range falls to its start, a mark behind it moves
    with the text. *)
Definition mark_after_delete (first last mark : nat) : nat :=
  if mark <=? first then mark
  else if mark <? last then first
  else mark - (last - first).

(** [_insert_format]. Reading the selection raises [tk.TclError] when
    nothing is selected, which is the second branch. The insertion cursor
    stays behind the text inserted at it. *)
Definition insert_format (prefix suffix : str) (w : widget) : widget :=
  match sel_range w with
  | Some (first, last) =>
      let selected_text := take (last - first) (drop first (widget_text w)) in
      let replacement := prefix ++ selected_text ++ suffix in
      let deleted := take first (widget_text w) ++ drop last (widget_text w) in
      let mark := mark_after_delete first last (insert_mark w) in
      {| widget_text := take mark deleted ++ replacement ++ drop mark deleted;
         insert_mark := mark + length replacement;
         sel_range := None |}
  | None =>
      if str_eqb prefix (lit "# ") then
        {| widget_text :=
             take (insert_mark w) (widget_text w) ++ prefix
               ++ drop (insert_mark w) (widget_text w);
           insert_mark := insert_mark w + length prefix;
           sel_range := None |}
      else
        let cursor_pos := insert_mark w + length (prefix ++ suffix) in
        {| widget_text :=
             take (insert_mark w) (widget_text w) ++ (prefix ++ suffix)
               ++ drop (insert_mark w) (widget_text w);
           insert_mark := cursor_pos - length suffix;
           sel_range := None |}
  end.

(** * Notions the statements use *)

(** ** Strings and lines *)

(** A stripped string is empty, or starts and ends with characters that
    are not white space. *)
Definition trimmed (s : str) : Prop :=
  match s with
  | [] => True
  | c :: _ => isspace c = false /\ exists t d, s = t ++ [d] /\ isspace d = false
  end.

(** A text without newline. *)
Definition one_line (l : str) : Prop := forallb dot l = true.

(** [s.split('\n')]: the lines of a text. *)
Fixpoint lines (s : str) : list str :=
  match s with
  | [] => [[]]
  | c :: s' =>
      if is_nl c then [] :: lines s'
      else match lines s' with
           | l :: ls => (c :: l) :: ls
           | [] => [[c]]
           end
  end.

(** [needle in hay] *)
Fixpoint contains (hay needle : str) : bool :=
  startswith hay needle
  || match hay with
     | [] => false
     | _ :: hay' => contains hay' needle
     end.

(** Apply [f] to the last element. *)
Fixpoint map_last {A : Type} (f : A -> A) (xs : list A) : list A :=
  match xs with
  | [] => []
  | [x] => [f x]
  | x :: xs' => x :: map_last f xs'
  end.

(** ** Matches *)

(** The character before the position reached after passing over [m]. *)
Definition after (prev : option char) (m : str) : option char :=
  fold_left (fun _ c => Some c) m prev.

(** The first literal character a pattern has to read. *)
Fixpoint first_lit (r : regex) : option char :=
  match r with
  | Bol :: r' => first_lit r'
  | Lit c :: _ => Some c
  | _ => None
  end.

(** Does a pattern start with [^]? *)
Definition anchored (r : regex) : bool :=
  match r with Bol :: _ => true | _ => false end.

(** [derives r g0 prev m rest g]: the pattern [r] can match the text [m]
    in front of [rest], after the character [prev], with group 1 going
    from [g0] to [g]. A backtracking run returns one of these matches, and
    fails only when there is none. *)
Fixpoint derives (r : regex) (g0 : str) (prev : option char) (m rest g : str)
    : Prop :=
  match r with
  | [] => m = [] /\ g = g0
  | Lit c :: r' => exists m', m = c :: m' /\ derives r' g0 (Some c) m' rest g
  | Bol :: r' => at_bol prev = true /\ derives r' g0 prev m rest g
  | Eol :: r' => at_eol (m ++ rest) = true /\ derives r' g0 prev m rest g
  | Plus _ cls :: r' =>
      exists u m', m = u ++ m' /\ u <> [] /\ forallb cls u = true
                   /\ derives r' g0 (after None u) m' rest g
  | Group _ cls :: r' =>
      exists u m', m = u ++ m' /\ u <> [] /\ forallb cls u = true
                   /\ derives r' u (after None u) m' rest g
  end.

(** What a heading pattern has after its [#] characters: [\s+(.+)$]. *)
Definition heading_tail : regex := [Plus true isspace; Group true dot; Eol].

(** What a substitution does to a line that stands between blank lines:
    it leaves it alone, or it replaces it as a whole. *)
Definition line_result (r : regex) (pre post line out : str) : Prop :=
  one_line line /\ line <> []
  /\ ((out = line
       /\ forall prev rest, at_bol prev = true -> at_eol rest = true ->
                            match_at r prev (line ++ rest) = None)
      \/ (exists g, out = pre ++ g ++ post
          /\ forall prev rest, at_bol prev = true -> at_eol rest = true ->
                               match_at r prev (line ++ rest) = Some (g, rest))).

(** ** Delimiter lines and sections *)

(** [=== title ===] *)
Definition delimiter_line (title : str) : str := lit "=== " ++ title ++ lit " ===".

(** The title of a line that is a delimiter: what the delimiter pattern
    captures on the line alone. *)
Definition delimiter_title (l : str) : option str :=
  match match_at re_delimiter None l with
  | Some (t, _) => Some t
  | None => None
  end.

Definition is_delimiter (l : str) : bool :=
  match delimiter_title l with Some _ => true | None => false end.

(** The number of delimiter lines. *)
Definition count_delimiters (ls : list str) : nat :=
  length (List.filter is_delimiter ls).

(** A line of white space only. *)
Definition blank (l : str) : bool := forallb isspace l.

(** A line that does not turn into a delimiter line when the white space
    around it is taken away: it is a delimiter line already if it is one
    once trimmed. *)
Definition steady (l : str) : bool := implb (is_delimiter (strip l)) (is_delimiter l).

(** Two lists of sections that agree, once stripped, from the second
    section on. *)
Definition same_bodies (s1 s2 : list str) : Prop :=
  length s1 = length s2
  /\ forall i, 0 < i -> strip (nth i s1 []) = strip (nth i s2 []).

(** A title that makes a delimiter line: not empty, and on one line. *)
Definition delimiter_ready (title : str) : Prop := title <> [] /\ one_line title.

(** A text none of whose lines is a delimiter. *)
Definition delimiter_free (body : str) : Prop :=
  Forall (fun l => delimiter_title l = None) (lines body).

(** What [re.split] with the delimiter pattern returns on the text whose
    lines are [ls], when [cur] is the text collected since the last
    delimiter. *)
Fixpoint sections_of_lines (cur : str) (ls : list str) : list str :=
  match ls with
  | [] => [cur]
  | l :: ls' =>
      match delimiter_title l, ls' with
      | Some t, [] => [cur; t; []]
      | Some t, _ :: _ => cur :: t :: sections_of_lines [nl] ls'
      | None, [] => [cur ++ l]
      | None, _ :: _ => sections_of_lines (cur ++ l ++ [nl]) ls'
      end
  end.

(** What [_load_full_book] appends for one chapter, given its title and
    its markup. *)
Definition chunk (sec : str * str) : str :=
  delimiter_line (fst sec) ++ blank_line ++ snd sec ++ blank_line.

(** The lines of a chunk. *)
Definition chunk_lines (sec : str * str) : list str :=
  [delimiter_line (fst sec); []] ++ lines (snd sec) ++ [[]].

(** The sections of the joined text: each title, then its markup between
    blank lines. *)
Fixpoint joined_sections (cur : str) (secs : list (str * str)) : list str :=
  match secs with
  | [] => [cur]
  | sec :: rest =>
      cur :: fst sec :: joined_sections (blank_line ++ snd sec ++ blank_line) rest
  end.

(** The titles and markups [_load_full_book] joins. *)
Definition book_sections (parse : str -> list node) (book : list item)
    (chs : list chapter) : list (str * str) :=
  List.map (fun ch => (ch_title ch, html_to_markdown (parse (chapter_source book ch))))
    chs.

(** ** The editor *)

(** The entries of [self.chapters] refer to distinct items of the book.
    [_load_epub_file] builds the list that way, and nothing else changes
    it. *)
Definition well_formed (e : editor) : Prop :=
  NoDup (ch_item <$> chapters e)
  /\ Forall (fun ch => ch_item ch < length (current_book e)) (chapters e).

(** A text that [encode] takes: it holds no surrogate code point. *)
Definition encodable (s : str) : Prop := existsb is_surrogate s = false.

(** The body the loop reads for its turn [i]. *)
Definition section_body (sections : list str) (i : nat) : str :=
  if i + 1 <? length sections then strip (nth (i + 1) sections []) else [].

(** The page the loop builds in its turn [i] for the chapter [ch]. *)
Definition section_page (sections : list str) (ch : chapter) (i : nat) : str :=
  full_html 24 (ch_title ch) (markdown_to_html (section_body sections i)).

(** A turn of the loop in which [encode] does not raise. *)
Definition write_section (chs : list chapter) (sections : list str)
    (st : list item * nat) (i : nat) : list item * nat :=
  let (book, chapter_index) := st in
  match chs !! chapter_index with
  | Some ch =>
      (set_content book (ch_item ch) (section_page sections ch i), chapter_index + 1)
  | None => st
  end.

(** [k] turns from index [i0] on, none of which raises. *)
Definition commit_loop (chs : list chapter) (sections : list str) (k i0 : nat)
    (st : list item * nat) : list item * nat :=
  fold_left (write_section chs sections) (odd_range k i0) st.

(** How many of the [k] turns from index [i0] on are completed, when the
    loop enters them with [chapter_index = c]: the turns before the first
    one whose page cannot be encoded. *)
Fixpoint completed (chs : list chapter) (sections : list str) (k i0 c : nat) : nat :=
  match k with
  | O => O
  | S k' =>
      match chs !! c with
      | Some ch =>
          if existsb is_surrogate (section_page sections ch i0) then O
          else S (completed chs sections k' (i0 + 2) (c + 1))
      | None => S (completed chs sections k' (i0 + 2) c)
      end
  end.

(** The turns a save in the full-book view completes. *)
Definition turns_done (e : editor) : nat :=
  completed (chapters e) (chapter_sections e) (length (chapter_sections e) / 2) 1 0.

(** The page of the chapter at position [k] in a save in the full-book
    view: the stored title around the converted body after the delimiter
    of the same position. *)
Definition chapter_page (e : editor) (k : nat) (ch : chapter) : str :=
  full_html 24 (ch_title ch)
    (markdown_to_html (strip (nth (2 * k + 2) (chapter_sections e) []))).

(** The pages of the chapters at the positions up to [k] can be encoded:
    the loop of a save in the full-book view does not end before the turn
    of the chapter at position [k] is done. *)
Definition pages_encodable (e : editor) (k : nat) : Prop :=
  forall j cj, j <= k -> chapters e !! j = Some cj -> encodable (chapter_page e j cj).

Definition is_document (it : item) : bool :=
  match get_type it with ITEM_DOCUMENT => true | ITEM_OTHER => false end.

(** The document items of a book, in the order of the book. *)
Definition documents (book : list item) : list item := List.filter is_document book.

(** The chapters the loop of [_load_epub_file] appends from position [pos]
    on, when [n] chapters are there already. *)
Fixpoint loaded (parse : str -> list node) (pos : nat) (items : list item)
    (n : nat) : list chapter :=
  match items with
  | [] => []
  | it :: rest =>
      if is_document it then
        {| ch_item := pos;
           ch_title := chapter_title (parse (get_content it)) n;
           ch_content := soup_text (parse (get_content it)) |}
          :: loaded parse (S pos) rest (S n)
      else loaded parse (S pos) rest n
  end.

(** The editor before a book is opened. *)
Definition initial (m : mode) : editor :=
  {| current_book := []; chapters := []; current_chapter_index := 0;
     view_mode := m; editor_text := [] |}.

(** The user's edit: the widget holds [text] afterwards. *)
Definition with_text (e : editor) (text : str) : editor :=
  {| current_book := current_book e; chapters := chapters e;
     current_chapter_index := current_chapter_index e;
     view_mode := view_mode e; editor_text := text |}.

(** The buffer without its line [i]. *)
Definition delete_line (i : nat) (buffer : str) : str :=
  join [nl] (delete i (lines buffer)).

(** The user's edit: line [i] of the buffer deleted. *)
Definition without_line (e : editor) (i : nat) : editor :=
  with_text e (delete_line i (editor_text e)).

(** ** The paragraph step *)

(** What the paragraph loop emits for one block of the split. *)
Definition block_html (p : str) : list str :=
  let p := strip p in
  if nonempty p
  then [if startswith p (lit "<h") then p else lit "<p>" ++ p ++ lit "</p>"]
  else [].

(** The paragraph step in the words of the specification: a block is left
    unwrapped when it starts with a heading tag, [<h1] to [<h6]. *)
Definition spec_heading_tag (p : str) : bool :=
  existsb (fun level => startswith p (lit "<h" ++ str_of_nat level)) [1; 2; 3; 4; 5; 6].

Definition spec_block (p : str) : list str :=
  let p := strip p in
  if nonempty p
  then [if spec_heading_tag p then p else lit "<p>" ++ p ++ lit "</p>"]
  else [].

Definition spec_paragraphs (text : str) : str :=
  join [nl] (concat (List.map spec_block (Py.split blank_line text))).

(** ** Documents written out *)

(** A character of a text node as markup holds it: [&], [<] and [>] are
    written as the entities [&amp;], [&lt;] and [&gt;]. *)
Definition escape_char (c : char) : str :=
  if (c =? 38)%N then lit "&amp;"
  else if (c =? 60)%N then lit "&lt;"
  else if (c =? 62)%N then lit "&gt;"
  else [c].

Definition escape (s : str) : str := concat (List.map escape_char s).

(** The markup of a tree: the text nodes escaped, the children of a tag
    between its opening and its closing tag. *)
Fixpoint render (n : node) : str :=
  match n with
  | Text s => escape s
  | Tag name children =>
      open_tag name ++ concat (List.map render children) ++ close_tag name
  end.

Definition render_all (soup : list node) : str := concat (List.map render soup).

(** ** Flat documents *)

(** A block of a flat document: a heading or a paragraph that holds text
    only. *)
Inductive block : Type :=
| Heading (level : nat) (text : str)
| Paragraph (text : str).

Definition block_node (b : block) : node :=
  match b with
  | Heading level text => Tag (heading_name level) [Text text]
  | Paragraph text => Tag (lit "p") [Text text]
  end.

(** [<hN>text</hN>] *)
Definition heading_html (level : nat) (text : str) : str :=
  open_tag (heading_name level) ++ text ++ close_tag (heading_name level).

(** [### text] *)
Definition heading_markup (level : nat) (text : str) : str :=
  repeat_str (lit "#") level ++ lit " " ++ text.

(** The line of a block once the heading rules up to level [k] have run;
    [k = 0] is the markup [_html_to_markdown] writes. *)
Definition stage (k : nat) (b : block) : list str :=
  match b with
  | Heading level text =>
      [if level <=? k then heading_html level (strip text)
       else heading_markup level (strip text)]
  | Paragraph text => if nonempty (strip text) then [strip text] else []
  end.

(** A text on one line that holds no formatting marker. *)
Definition plain_text (s : str) : Prop :=
  one_line s /\ ~ In 42%N s /\ ~ In 95%N s.

(** A text that markup holds as it is: none of its characters is written
    as an entity. *)
Definition entity_free (s : str) : Prop :=
  ~ In 38%N s /\ ~ In 60%N s /\ ~ In 62%N s.

(** The blocks the round trip is stated for. *)
Definition plain_block (b : block) : Prop :=
  match b with
  | Heading level text =>
      1 <= level <= 6 /\ strip text <> [] /\ plain_text (strip text)
      /\ entity_free (strip text)
  | Paragraph text =>
      plain_text (strip text)
      /\ startswith (strip text) (lit "#") = false
      /\ entity_free (strip text)
  end.

(** The inline elements: the marker [_html_to_markdown] writes around the
    text of an element of that name, and the name of the element
    [_markdown_to_html] writes for the marker. *)
Definition inline_marker (name : str) : option (str * str) :=
  if name_in name [lit "strong"; lit "b"] then Some (lit "**", lit "strong")
  else if name_in name [lit "em"; lit "i"] then Some (lit "*", lit "em")
  else if str_eqb name (lit "u") then Some (lit "__", lit "u")
  else None.

(** What comes back for a block: the same element around the trimmed
    text for a paragraph and for a heading of level 1 to 3, a paragraph
    that holds the markup line for a heading of level 4 to 6; an empty
    paragraph does not come back. *)
Definition round_trip (b : block) : list str :=
  match b with
  | Heading level text =>
      if level <=? 3
      then [render (Tag (heading_name level) [Text (strip text)])]
      else [render (Tag (lit "p") [Text (heading_markup level (strip text))])]
  | Paragraph text =>
      if nonempty (strip text)
      then [render (Tag (lit "p") [Text (strip text)])]
      else []
  end.

(** The three markers and the element each of them gives. *)
Definition marker_pair (marker back : str) : Prop :=
  (marker = lit "**" /\ back = lit "strong")
  \/ (marker = lit "*" /\ back = lit "em")
  \/ (marker = lit "__" /\ back = lit "u").

(** ** The states of the application *)

(** The current index points at a chapter whenever there is one. *)
Definition index_in_range (e : editor) : Prop :=
  chapters e = [] \/ current_chapter_index e < length (chapters e).

(** The states the application can be in: it starts in the chapter view
    without a book; the user opens packages, types, moves between chapters
    and views, and saves. The chapter list of the window has one row for
    each chapter, so a selection names a position of [self.chapters]. *)
Inductive reachable (parse : str -> list node) : editor -> Prop :=
| reach_initial : reachable parse (initial chapter_view)
| reach_open book e :
    reachable parse e -> reachable parse (load_epub_file parse book e)
| reach_edit text e :
    reachable parse e -> reachable parse (with_text e text)
| reach_switch m e :
    reachable parse e -> reachable parse (switch_view_mode parse m e)
| reach_view value e :
    reachable parse e -> reachable parse (on_view_mode_changed parse value e)
| reach_select selection e :
    reachable parse e ->
    Forall (fun index => index < length (chapters e)) selection ->
    reachable parse (on_chapter_selected parse selection e)
| reach_previous e :
    reachable parse e -> reachable parse (previous_chapter parse e)
| reach_next e :
    reachable parse e -> reachable parse (next_chapter parse e)
| reach_save e :
    reachable parse e -> reachable parse (save_epub_to_path e).

(** ** The widget *)

(** A widget with the text [before ++ selected ++ behind], of which
    [selected] is selected, and the cursor [k] characters into the
    selection. *)
Definition selecting (before selected behind : str) (k : nat) : widget :=
  {| widget_text := before ++ selected ++ behind;
     insert_mark := length before + k;
     sel_range := Some (length before, length before + length selected) |}.

(** A widget without selection, the cursor between [before] and
    [behind]. *)
Definition cursor_between (before behind : str) : widget :=
  {| widget_text := before ++ behind;
     insert_mark := length before;
     sel_range := None |}.

(** ** The title a page carries *)

(** The text of [s] before its first occurrence of [needle], and the text
    after that occurrence. *)
Fixpoint cut_at (needle s : str) : option (str * str) :=
  if startswith s needle then Some ([], drop (length needle) s)
  else match s with
       | [] => None
       | c :: s' =>
           match cut_at needle s' with
           | Some (before, behind) => Some (c :: before, behind)
           | None => None
           end
       end.

(** What stands in a page between its first [<title>] and the first
    [</title>] after it. *)
Definition written_title (page : str) : option str :=
  match cut_at (lit "<title>") page with
  | Some (_, rest) =>
      match cut_at (lit "</title>") rest with
      | Some (title, _) => Some title
      | None => None
      end
  | None => None
  end.

(** ** Sample books

    A parser is a parameter of the model. The examples use the parser that
    knows a given list of documents: a content that is the markup of one
    of them parses to it, any other content is a lone text node. *)

Fixpoint parse_known (known : list (list node)) (content : str) : list node :=
  match known with
  | [] => [Text content]
  | soup :: rest =>
      if str_eqb (render_all soup) content then soup else parse_known rest content
  end.

Definition element (name text : string) : node := Tag (lit name) [Text (lit text)].

Definition document_item (soup : list node) : item :=
  {| get_type := ITEM_DOCUMENT; get_content := render_all soup |}.

Definition soup_a : list node := [element "title" "A"; element "p" "alpha"].

Definition soup_b : list node := [element "title" "B"; element "p" "beta"].

Definition soup_one : list node := [element "p" "one"].

Definition soup_two : list node := [element "title" " Two "; element "p" "two"].

Definition soup_three : list node := [element "p" "three"].

Definition known_soups : list (list node) :=
  [soup_a; soup_b; soup_one; soup_two; soup_three].

Definition sample_parse : str -> list node := parse_known known_soups.

(** A book of two chapters, titled A and B. *)
Definition book_ab : list item := [document_item soup_a; document_item soup_b].

(** A book of three documents and a style sheet; only the second document
    has a title. *)
Definition book_123 : list item :=
  [document_item soup_one;
   {| get_type := ITEM_OTHER; get_content := lit "body { margin: 0 }" |};
   document_item soup_two;
   document_item soup_three].

(** [book_ab] opened in the full-book view. *)
Definition loaded_ab : editor :=
  load_epub_file sample_parse book_ab (initial full_book_view).

Definition chapter_a : chapter :=
  {| ch_item := 0; ch_title := lit "A"; ch_content := lit "Aalpha" |}.

Definition chapter_b : chapter :=
  {| ch_item := 1; ch_title := lit "B"; ch_content := lit "Bbeta" |}.

(** The buffer of [loaded_ab] with both delimiters renamed and both bodies
    rewritten. *)
Definition renamed_ab : editor :=
  with_text loaded_ab
    (delimiter_line (lit "X") ++ nl :: lit "body x" ++ nl
       :: delimiter_line (lit "Y") ++ nl :: lit "body y").

(** The buffer of [loaded_ab] with both delimiters renamed and a lone
    surrogate code point as the body under the first of them. *)
Definition surrogate_ab : editor :=
  with_text loaded_ab
    (delimiter_line (lit "X") ++ nl :: 55296%N :: nl
       :: delimiter_line (lit "Y") ++ nl :: lit "body y").

(** The buffer of [loaded_ab] after the user deleted its first line, the
    delimiter of chapter A. *)
Definition deleted_ab : editor := without_line loaded_ab 0.

(** A document whose title runs over two lines, the first of them ending
    in [ ===]. *)
Definition soup_two_lines : list node :=
  [Tag (lit "title") [Text (lit "A ===" ++ nl :: lit "B")]; element "p" "x"].

Definition chapter_two_lines : chapter :=
  {| ch_item := 0; ch_title := lit "A ===" ++ nl :: lit "B";
     ch_content := lit "A ===" ++ nl :: lit "Bx" |}.

(** The book of that one document, opened in the full-book view. *)
Definition loaded_two_lines : editor :=
  load_epub_file (parse_known [soup_two_lines]) [document_item soup_two_lines]
    (initial full_book_view).

(** Two paragraphs, the first of them holding a [strong] element. *)
Definition nested_fragment : list node :=
  [Tag (lit "p") [Tag (lit "strong") [Text (lit "x")]]; element "p" "y"].

(** A flat document with an empty paragraph and a heading of level 4. *)
Definition sample_doc : list block :=
  [Heading 1 (lit " Title "); Paragraph (lit "first paragraph");
   Heading 3 (lit "Part"); Paragraph (lit "  "); Heading 4 (lit "Deep")].

(** A document that holds a list and nothing else, and the book of that
    one document opened in the chapter view. *)
Definition soup_list : list node :=
  [Tag (lit "ul") [element "li" "first"; element "li" "second"]].

Definition chapter_list : chapter :=
  {| ch_item := 0; ch_title := lit "Chapter 1"; ch_content := lit "firstsecond" |}.

Definition loaded_list : editor :=
  load_epub_file (parse_known [soup_list]) [document_item soup_list]
    (initial chapter_view).

(** The buffer of [loaded_ab] with a line typed above its first
    delimiter. *)
Definition typed_above_ab : str :=
  lit "a note" ++ nl :: editor_text loaded_ab.

(** A document whose title holds the text of a closing and an opening
    title tag, and the book of that one document opened in the chapter
    view. *)
Definition soup_cut_title : list node :=
  [Tag (lit "title") [Text (lit "x</title><title>y")]; element "p" "text"].

Definition chapter_cut_title : chapter :=
  {| ch_item := 0; ch_title := lit "x</title><title>y";
     ch_content := lit "x</title><title>ytext" |}.

Definition loaded_cut_title : editor :=
  load_epub_file (parse_known [soup_cut_title]) [document_item soup_cut_title]
    (initial chapter_view).

(** * Facts about the string operations *)

Section StringFacts.

Lemma str_eqb_eq (a b : str) : str_eqb a b = true <-> a = b.
Proof.
  revert b; induction a as [|x a IH]; intros [|y b]; simpl; try easy.
  rewrite andb_true_iff, N.eqb_eq, IH. split.
  - intros [-> ->]; reflexivity.
  - intros [= -> ->]; auto.
Qed.

Lemma lstrip_spaces (s : str) : Forall (fun c => isspace c = true) s -> lstrip s = [].
Proof. induction 1 as [|c s Hc _ IH]; simpl; [reflexivity| now rewrite Hc]. Qed.

Lemma lstrip_app_spaces (w s : str) :
  Forall (fun c => isspace c = true) w -> lstrip (w ++ s) = lstrip s.
Proof. induction 1 as [|c w Hc _ IH]; simpl; [reflexivity| now rewrite Hc]. Qed.

Lemma lstrip_head (c : char) (s : str) : isspace c = false -> lstrip (c :: s) = c :: s.
Proof. intros H; simpl; now rewrite H. Qed.

Lemma lstrip_app_head (c : char) (s t : str) :
  isspace c = false -> lstrip ((c :: s) ++ t) = (c :: s) ++ t.
Proof. intros H; simpl; now rewrite H. Qed.

(** What [lstrip] leaves is empty or starts with a character that is not
    white space, and it is a suffix after white space only. *)
Lemma lstrip_split (s : str) :
  exists w, s = w ++ lstrip s /\ Forall (fun c => isspace c = true) w.
Proof.
  induction s as [|c s [w [E Hw]]]; simpl.
  - exists []; split; [reflexivity | constructor].
  - destruct (isspace c) eqn:Hc.
    + exists (c :: w); split; [simpl; congruence | constructor; assumption].
    + exists []; split; [reflexivity | constructor].
Qed.

Lemma lstrip_first (s : str) :
  match lstrip s with [] => True | c :: _ => isspace c = false end.
Proof.
  induction s as [|c s IH]; simpl; [exact I|].
  destruct (isspace c) eqn:Hc; [exact IH | exact Hc].
Qed.

Lemma lstrip_idem (s : str) : lstrip (lstrip s) = lstrip s.
Proof.
  pose proof (lstrip_first s) as H. destruct (lstrip s) as [|c t]; [reflexivity|].
  now apply lstrip_head.
Qed.

Lemma rstrip_app_spaces (s w : str) :
  Forall (fun c => isspace c = true) w -> rstrip (s ++ w) = rstrip s.
Proof.
  intros H. unfold rstrip. rewrite rev_app_distr, lstrip_app_spaces; [reflexivity|].
  now apply List.Forall_rev.
Qed.

Lemma rstrip_last (s : str) (c : char) :
  isspace c = false -> rstrip (s ++ [c]) = s ++ [c].
Proof.
  intros H. unfold rstrip. rewrite rev_app_distr. simpl. rewrite H.
  simpl. now rewrite rev_involutive.
Qed.

Lemma rstrip_nil : rstrip [] = [].
Proof. reflexivity. Qed.

Lemma rstrip_split (s : str) :
  exists w, s = rstrip s ++ w /\ Forall (fun c => isspace c = true) w.
Proof.
  destruct (lstrip_split (rev s)) as [w [E Hw]]. exists (rev w). split.
  - unfold rstrip. rewrite <- rev_app_distr, <- E. now rewrite rev_involutive.
  - now apply List.Forall_rev.
Qed.

(** The last character of what [rstrip] leaves is not white space. *)
Lemma rstrip_ends (s : str) :
  rstrip s = [] \/ exists t c, rstrip s = t ++ [c] /\ isspace c = false.
Proof.
  unfold rstrip. pose proof (lstrip_first (rev s)) as H.
  destruct (lstrip (rev s)) as [|c t]; [left; reflexivity|].
  right. exists (rev t), c. simpl. auto.
Qed.

(** [rstrip] keeps the first character. *)
Lemma rstrip_cons (c : char) (s : str) :
  isspace c = false -> exists t, rstrip (c :: s) = c :: t.
Proof.
  intros Hc. destruct (rstrip_split (c :: s)) as [w [E Hw]].
  destruct (rstrip (c :: s)) as [|x t] eqn:Er.
  - simpl in E. subst w. inversion Hw; congruence.
  - exists t. simpl in E. congruence.
Qed.

Lemma strip_spaces (s : str) : Forall (fun c => isspace c = true) s -> strip s = [].
Proof. intros H. unfold strip. now rewrite lstrip_spaces. Qed.

Lemma strip_trimmed (s : str) : trimmed (strip s).
Proof.
  unfold strip. pose proof (lstrip_first s) as H.
  destruct (lstrip s) as [|c t]; [exact I|].
  destruct (rstrip_cons c t H) as [u Eu].
  destruct (rstrip_ends (c :: t)) as [E | [v [d [E Hd]]]].
  - rewrite E. exact I.
  - rewrite Eu in *. simpl. split; [exact H|]. exists v, d. auto.
Qed.

Lemma trimmed_strip (s : str) : trimmed s -> strip s = s.
Proof.
  destruct s as [|c s]; [reflexivity|]. intros [Hc [t [d [E Hd]]]].
  unfold strip. rewrite lstrip_head by assumption. rewrite E.
  now apply rstrip_last.
Qed.

Lemma strip_idem (s : str) : strip (strip s) = strip s.
Proof. apply trimmed_strip, strip_trimmed. Qed.

(** White space around a trimmed string is what [strip] removes. *)
Lemma strip_pad (w1 w2 s : str) :
  Forall (fun c => isspace c = true) w1 ->
  Forall (fun c => isspace c = true) w2 ->
  trimmed s -> strip (w1 ++ s ++ w2) = s.
Proof.
  intros H1 H2 Hs. unfold strip. rewrite lstrip_app_spaces by assumption.
  destruct s as [|c s].
  - simpl. now rewrite lstrip_spaces.
  - destruct Hs as [Hc [t [d [E Hd]]]].
    rewrite lstrip_app_head by assumption.
    rewrite rstrip_app_spaces by assumption. rewrite E. now apply rstrip_last.
Qed.

Lemma strip_app_spaces (s w : str) :
  Forall (fun c => isspace c = true) w -> strip (s ++ w) = strip s.
Proof.
  intros Hw. destruct (lstrip_split s) as [u [E Hu]].
  destruct (rstrip_split (lstrip s)) as [v [E' Hv]].
  fold (strip s) in E'.
  assert (Es : s ++ w = u ++ strip s ++ (v ++ w)).
  { rewrite (app_assoc (strip s)), <- E', app_assoc, <- E. reflexivity. }
  rewrite Es. apply strip_pad; auto using strip_trimmed.
  apply List.Forall_app; auto.
Qed.

End StringFacts.

(** * Facts about matching and scanning *)

Section MatchFacts.

Lemma after_app (prev : option char) (a b : str) :
  after prev (a ++ b) = after (after prev a) b.
Proof. apply fold_left_app. Qed.

Lemma after_last (prev : option char) (a : str) (c : char) :
  after prev (a ++ [c]) = Some c.
Proof. rewrite after_app. reflexivity. Qed.

Lemma after_cons_in (prev : option char) (c : char) (a : str) :
  exists d, after prev (c :: a) = Some d /\ In d (c :: a).
Proof.
  destruct (exists_last (l := c :: a)) as [t [d E]]; [discriminate|].
  rewrite E, after_last. exists d. split; [reflexivity|].
  apply in_or_app. right. left. reflexivity.
Qed.

Context {R : Type}.
Implicit Types (k : str -> option char -> str -> option R).

(** Whatever [plus] returns, the continuation returned it after a
    non-empty run of characters of the class. *)
Lemma plus_some greedy cls k acc s r :
  plus greedy cls k acc s = Some r ->
  exists u v, s = u ++ v /\ u <> [] /\ forallb cls u = true
              /\ k (acc ++ u) (after None u) v = Some r.
Proof.
  revert acc. induction s as [|c s IH]; intros acc H; simpl in H; [discriminate|].
  destruct (cls c) eqn:Hc; [|discriminate].
  assert (Hhere : k (acc ++ [c]) (Some c) s = Some r ->
                  exists u v, c :: s = u ++ v /\ u <> [] /\ forallb cls u = true
                              /\ k (acc ++ u) (after None u) v = Some r).
  { intros Hk. exists [c], s. simpl. rewrite Hc. repeat split; auto; discriminate. }
  assert (Hmore : plus greedy cls k (acc ++ [c]) s = Some r ->
                  exists u v, c :: s = u ++ v /\ u <> [] /\ forallb cls u = true
                              /\ k (acc ++ u) (after None u) v = Some r).
  { intros Hp. destruct (IH _ Hp) as [u [v [E [Hu [Hall Hk]]]]].
    exists (c :: u), v. simpl. rewrite Hc, E. repeat split; auto; try discriminate.
    rewrite <- app_assoc in Hk. simpl in Hk.
    destruct u as [|x u]; [congruence|]. exact Hk. }
  destruct greedy.
  - destruct (plus true cls k (acc ++ [c]) s) eqn:Hp.
    + inversion H; subst. auto.
    + auto.
  - destruct (k (acc ++ [c]) (Some c) s) eqn:Hk.
    + inversion H; subst. auto.
    + auto.
Qed.

(** When [plus] fails, the continuation fails after every non-empty run
    of characters of the class. *)
Lemma plus_none greedy cls k acc s :
  plus greedy cls k acc s = None ->
  forall u v, s = u ++ v -> u <> [] -> forallb cls u = true ->
              k (acc ++ u) (after None u) v = None.
Proof.
  revert acc. induction s as [|c s IH]; intros acc H u v E Hu Hall.
  - destruct u; [congruence | discriminate].
  - destruct u as [|x u]; [congruence|]. simpl in E. inversion E; subst x s.
    simpl in Hall. apply andb_true_iff in Hall as [Hc Hall].
    simpl in H. rewrite Hc in H.
    assert (Hk : k (acc ++ [c]) (Some c) (u ++ v) = None
                 /\ plus greedy cls k (acc ++ [c]) (u ++ v) = None).
    { destruct greedy.
      - destruct (plus true cls k (acc ++ [c]) (u ++ v)); [discriminate|]. auto.
      - destruct (k (acc ++ [c]) (Some c) (u ++ v)); [discriminate|]. auto. }
    destruct Hk as [Hk Hp]. destruct u as [|y u].
    + exact Hk.
    + specialize (IH _ Hp (y :: u) v eq_refl ltac:(discriminate) Hall).
      rewrite <- app_assoc in IH. exact IH.
Qed.

(** When the continuation succeeds after exactly one run, [plus] returns
    what it returns there. *)
Lemma plus_unique greedy cls k acc s u v r :
  s = u ++ v -> u <> [] -> forallb cls u = true ->
  k (acc ++ u) (after None u) v = Some r ->
  (forall u' v' r', s = u' ++ v' -> u' <> [] -> forallb cls u' = true ->
                    k (acc ++ u') (after None u') v' = Some r' -> r' = r) ->
  plus greedy cls k acc s = Some r.
Proof.
  intros E Hu Hall Hk Huniq.
  destruct (plus greedy cls k acc s) as [r'|] eqn:Hp.
  - destruct (plus_some _ _ _ _ _ _ Hp) as [u' [v' [E' [Hu' [Hall' Hk']]]]].
    f_equal. eapply Huniq; eauto.
  - rewrite (plus_none _ _ _ _ _ Hp u v E Hu Hall) in Hk. discriminate.
Qed.

End MatchFacts.

Section ScanFacts.

Variable r : regex.

Lemma run_first_lit (c x : char) (g : str) (prev : option char) (s : str) :
  first_lit r = Some c -> x <> c -> run r g prev (x :: s) = None.
Proof.
  induction r as [|a r' IH]; simpl; [discriminate|].
  destruct a; try discriminate.
  - intros [= ->] Hx. apply N.eqb_neq in Hx. now rewrite Hx.
  - intros H Hx. destruct (at_bol prev); auto.
Qed.

Lemma run_first_lit_nil (c : char) (g : str) (prev : option char) :
  first_lit r = Some c -> run r g prev [] = None.
Proof.
  induction r as [|a r' IH]; simpl; [discriminate|].
  destruct a; try discriminate.
  - reflexivity.
  - intros H. destruct (at_bol prev); auto.
Qed.

Lemma run_anchored (g : str) (prev : option char) (s : str) :
  anchored r = true -> at_bol prev = false -> run r g prev s = None.
Proof.
  destruct r as [|[] r']; simpl; try discriminate. intros _ ->. reflexivity.
Qed.

(** *** Scanning for [re.sub] *)

Variables pre post : str.

Lemma sub_scan_skip (m rest : str) (prev : option char) :
  sub_scan r pre post prev (length m) (m ++ rest)
  = sub_scan r pre post (after prev m) 0 rest.
Proof.
  revert prev. induction m as [|c m IH]; intros prev; simpl.
  - destruct rest; reflexivity.
  - apply IH.
Qed.

Lemma sub_scan_match (c : char) (m rest g : str) (prev : option char) :
  match_at r prev (c :: m ++ rest) = Some (g, rest) ->
  sub_scan r pre post prev 0 (c :: m ++ rest)
  = pre ++ g ++ post ++ sub_scan r pre post (after prev (c :: m)) 0 rest.
Proof.
  intros H. cbn [sub_scan]. rewrite H.
  replace (length (c :: m ++ rest) - length rest - 1) with (length m)
    by (simpl; rewrite length_app; lia).
  now rewrite sub_scan_skip.
Qed.

Lemma sub_scan_copy (a b : str) (prev : option char) :
  (forall a1 x a2, a = a1 ++ x :: a2 ->
                   match_at r (after prev a1) (x :: a2 ++ b) = None) ->
  sub_scan r pre post prev 0 (a ++ b)
  = a ++ sub_scan r pre post (after prev a) 0 b.
Proof.
  revert prev. induction a as [|c a IH]; intros prev H; [reflexivity|].
  pose proof (H [] c a eq_refl) as H0. cbn [after fold_left] in H0.
  cbn [app sub_scan]. rewrite H0. f_equal. apply IH.
  intros a1 x a2 E. apply (H (c :: a1) x a2). now rewrite E.
Qed.

(** A text without the first literal of the pattern is left as it is. *)
Lemma sub_scan_absent (c : char) (s : str) (prev : option char) :
  first_lit r = Some c -> ~ In c s -> sub_scan r pre post prev 0 s = s.
Proof.
  intros Hr Hs. rewrite <- (app_nil_r s) at 1. rewrite sub_scan_copy.
  - simpl. apply app_nil_r.
  - intros a1 x a2 E. apply run_first_lit with (c := c); [assumption|].
    intros ->. apply Hs. rewrite E. apply in_or_app. right. left. reflexivity.
Qed.

(** *** Scanning for [re.split] *)

Lemma split_scan_skip (m rest cur : str) (prev : option char) :
  Re.split_scan r prev (length m) cur (m ++ rest)
  = Re.split_scan r (after prev m) 0 cur rest.
Proof.
  revert prev. induction m as [|c m IH]; intros prev; simpl.
  - destruct rest; reflexivity.
  - apply IH.
Qed.

Lemma split_scan_match (c : char) (m rest g cur : str) (prev : option char) :
  match_at r prev (c :: m ++ rest) = Some (g, rest) ->
  Re.split_scan r prev 0 cur (c :: m ++ rest)
  = cur :: g :: Re.split_scan r (after prev (c :: m)) 0 [] rest.
Proof.
  intros H. cbn [Re.split_scan]. rewrite H.
  replace (length (c :: m ++ rest) - length rest - 1) with (length m)
    by (simpl; rewrite length_app; lia).
  now rewrite split_scan_skip.
Qed.

Lemma split_scan_copy (a b cur : str) (prev : option char) :
  (forall a1 x a2, a = a1 ++ x :: a2 ->
                   match_at r (after prev a1) (x :: a2 ++ b) = None) ->
  Re.split_scan r prev 0 cur (a ++ b)
  = Re.split_scan r (after prev a) 0 (cur ++ a) b.
Proof.
  revert prev cur. induction a as [|c a IH]; intros prev cur H.
  - simpl. now rewrite app_nil_r.
  - pose proof (H [] c a eq_refl) as H0. cbn [after fold_left] in H0.
    cbn [app Re.split_scan]. rewrite H0. rewrite IH.
    + now rewrite <- app_assoc.
    + intros a1 x a2 E. apply (H (c :: a1) x a2). now rewrite E.
Qed.

End ScanFacts.

(** ** A run returns a match, and fails only when there is none *)

Section RunFacts.

Lemma run_sound (r : regex) (g0 : str) (prev : option char) (s g rest : str) :
  run r g0 prev s = Some (g, rest) ->
  exists m, s = m ++ rest /\ derives r g0 prev m rest g.
Proof.
  revert g0 prev s. induction r as [|a r IH]; intros g0 prev s H; simpl in H.
  - inversion H; subst. exists []. simpl. auto.
  - destruct a as [c| | |gr cls|gr cls].
    + destruct s as [|x s]; [discriminate|].
      destruct (N.eqb_spec x c) as [->|]; [|discriminate].
      destruct (IH _ _ _ H) as [m [E D]]. exists (c :: m). simpl.
      split; [now rewrite E|]. eauto.
    + destruct (at_bol prev) eqn:Hb; [|discriminate].
      destruct (IH _ _ _ H) as [m [E D]]. exists m. simpl. auto.
    + destruct (at_eol s) eqn:He; [|discriminate].
      destruct (IH _ _ _ H) as [m [E D]]. exists m. simpl.
      rewrite <- E. auto.
    + apply plus_some in H as [u [v [E [Hu [Hall Hk]]]]].
      destruct (IH _ _ _ Hk) as [m [E' D]]. exists (u ++ m). simpl.
      split; [now rewrite <- app_assoc, <- E'|]. eauto 8.
    + apply plus_some in H as [u [v [E [Hu [Hall Hk]]]]]. simpl in Hk.
      destruct (IH _ _ _ Hk) as [m [E' D]]. exists (u ++ m). simpl.
      split; [now rewrite <- app_assoc, <- E'|]. eauto 8.
Qed.

Lemma run_none (r : regex) (g0 : str) (prev : option char) (s : str) :
  run r g0 prev s = None ->
  forall m rest g, s = m ++ rest -> ~ derives r g0 prev m rest g.
Proof.
  revert g0 prev s. induction r as [|a r IH]; intros g0 prev s H m rest g E D;
    simpl in H; [discriminate|].
  destruct a as [c| | |gr cls|gr cls]; simpl in D.
  - destruct D as [m' [-> D]]. subst s. simpl in H. rewrite N.eqb_refl in H.
    exact (IH _ _ _ H _ _ _ eq_refl D).
  - destruct D as [Hb D]. rewrite Hb in H. exact (IH _ _ _ H _ _ _ E D).
  - destruct D as [He D]. rewrite E, He in H. exact (IH _ _ _ H _ _ _ eq_refl D).
  - destruct D as [u [m' [-> [Hu [Hall D]]]]]. rewrite <- app_assoc in E.
    pose proof (plus_none _ _ _ _ _ H u (m' ++ rest) E Hu Hall) as Hk.
    simpl in Hk. exact (IH _ _ _ Hk _ _ _ eq_refl D).
  - destruct D as [u [m' [-> [Hu [Hall D]]]]]. rewrite <- app_assoc in E.
    pose proof (plus_none _ _ _ _ _ H u (m' ++ rest) E Hu Hall) as Hk.
    simpl in Hk. exact (IH _ _ _ Hk _ _ _ eq_refl D).
Qed.

(** A subject with exactly one match gets that match. *)
Lemma run_unique (r : regex) (g0 : str) (prev : option char) (m rest g : str) :
  derives r g0 prev m rest g ->
  (forall m' rest' g', m ++ rest = m' ++ rest' ->
     derives r g0 prev m' rest' g' -> g' = g /\ rest' = rest) ->
  run r g0 prev (m ++ rest) = Some (g, rest).
Proof.
  intros D U. destruct (run r g0 prev (m ++ rest)) as [[g' rest']|] eqn:H.
  - destruct (run_sound _ _ _ _ _ _ H) as [m' [E D']].
    destruct (U _ _ _ E D') as [-> ->]. reflexivity.
  - exfalso. exact (run_none _ _ _ _ H _ _ _ eq_refl D).
Qed.

End RunFacts.

(** * Lines and delimiter lines *)

Section LineFacts.

Lemma is_nl_eq (c : char) : is_nl c = true <-> c = nl.
Proof. apply N.eqb_eq. Qed.

Lemma one_line_app (a b : str) : one_line (a ++ b) <-> one_line a /\ one_line b.
Proof. unfold one_line. rewrite forallb_app, andb_true_iff. reflexivity. Qed.

Lemma one_line_cons (c : char) (a : str) :
  one_line (c :: a) <-> is_nl c = false /\ one_line a.
Proof.
  unfold one_line, dot. simpl. rewrite andb_true_iff, negb_true_iff. reflexivity.
Qed.

Lemma one_line_delimiter (t : str) : one_line t -> one_line (delimiter_line t).
Proof.
  intros H. unfold delimiter_line. rewrite !one_line_app. repeat split; auto.
Qed.

(** A text is cut into its first line and the rest in one way only. *)
Lemma first_line_unique (a b x y : str) :
  one_line a -> one_line b -> at_eol x = true -> at_eol y = true ->
  a ++ x = b ++ y -> a = b /\ x = y.
Proof.
  revert b. induction a as [|c a IH]; intros b Ha Hb Hx Hy E.
  - destruct b as [|d b]; [auto|]. simpl in E. subst x. simpl in Hx.
    apply one_line_cons in Hb as [Hd _]. congruence.
  - apply one_line_cons in Ha as [Hc Ha]. destruct b as [|d b].
    + simpl in E. subst y. simpl in Hy. congruence.
    + simpl in E. inversion E; subst d. apply one_line_cons in Hb as [_ Hb].
      destruct (IH b Ha Hb Hx Hy) as [-> ->]; auto.
Qed.

Lemma derives_delimiter (g0 : str) (prev : option char) (m rest g : str) :
  derives re_delimiter g0 prev m rest g <->
  at_bol prev = true /\ m = delimiter_line g /\ g <> [] /\ one_line g
  /\ at_eol rest = true.
Proof.
  unfold re_delimiter, delimiter_line, one_line. cbn. split.
  - intros [Hb [m1 [-> [m2 [-> [m3 [-> [m4 [-> D]]]]]]]]].
    destruct D as [u [m5 [-> [Hu [Hall D]]]]].
    destruct D as [m6 [-> [m7 [-> [m8 [-> [m9 [-> [He [-> ->]]]]]]]]]].
    simpl in He. auto.
  - intros [Hb [-> [Hg [Hall He]]]]. split; [exact Hb|].
    do 4 (eexists; split; [reflexivity|]).
    exists g, (lit " ==="). repeat split; auto.
    cbn. do 4 (eexists; split; [reflexivity|]). auto.
Qed.

Lemma match_delimiter (prev : option char) (t rest : str) :
  at_bol prev = true -> t <> [] -> one_line t -> at_eol rest = true ->
  match_at re_delimiter prev (delimiter_line t ++ rest) = Some (t, rest).
Proof.
  intros Hb Ht Hl He. apply run_unique.
  - apply derives_delimiter. auto.
  - intros m' rest' g' E D. apply derives_delimiter in D as [_ [-> [_ [Hl' He']]]].
    destruct (first_line_unique _ _ _ _ (one_line_delimiter _ Hl)
                (one_line_delimiter _ Hl') He He' E) as [Ed ->].
    split; [|reflexivity]. unfold delimiter_line in Ed.
    apply app_inv_head in Ed. apply app_inv_tail in Ed. auto.
Qed.

Lemma match_delimiter_inv (prev : option char) (s g rest : str) :
  match_at re_delimiter prev s = Some (g, rest) ->
  at_bol prev = true /\ s = delimiter_line g ++ rest /\ g <> [] /\ one_line g
  /\ at_eol rest = true.
Proof.
  intros H. apply run_sound in H as [m [-> D]].
  apply derives_delimiter in D as [Hb [-> D]]. auto.
Qed.

Lemma delimiter_title_some (l t : str) :
  one_line l ->
  delimiter_title l = Some t <-> l = delimiter_line t /\ t <> [].
Proof.
  intros Hl. unfold delimiter_title. split.
  - destruct (match_at re_delimiter None l) as [[g rest]|] eqn:H; [|discriminate].
    intros [= ->]. apply match_delimiter_inv in H as [_ [E [Ht [_ He]]]].
    subst l. apply one_line_app in Hl as [_ Hr].
    destruct rest as [|c rest].
    + rewrite app_nil_r. auto.
    + apply one_line_cons in Hr as [Hc _]. simpl in He. congruence.
  - intros [-> Ht].
    assert (Hg : one_line t).
    { unfold delimiter_line in Hl. rewrite !one_line_app in Hl. tauto. }
    rewrite <- (app_nil_r (delimiter_line t)).
    rewrite match_delimiter; auto.
Qed.

(** At the start of a line the delimiter pattern matches exactly when the
    line is a delimiter, and then it matches the whole line. *)
Lemma match_line (prev : option char) (l rest : str) :
  one_line l -> at_bol prev = true -> at_eol rest = true ->
  match_at re_delimiter prev (l ++ rest)
  = match delimiter_title l with Some t => Some (t, rest) | None => None end.
Proof.
  intros Hl Hb He.
  destruct (delimiter_title l) as [t|] eqn:Ht.
  - apply delimiter_title_some in Ht as [-> Ht]; [|exact Hl].
    apply match_delimiter; auto.
    unfold delimiter_line in Hl. rewrite !one_line_app in Hl. tauto.
  - destruct (match_at re_delimiter prev (l ++ rest)) as [[g rest']|] eqn:H;
      [|reflexivity].
    apply match_delimiter_inv in H as [_ [E [Hg [Hlg He']]]].
    destruct (first_line_unique _ _ _ _ Hl (one_line_delimiter _ Hlg) He He' E)
      as [El _].
    assert (Hs : delimiter_title l = Some g)
      by (apply delimiter_title_some; auto).
    congruence.
Qed.

(** Elsewhere it does not match. *)
Lemma no_match_inside (prev : option char) (s : str) :
  at_bol prev = false -> match_at re_delimiter prev s = None.
Proof. intros H. apply run_anchored; auto. Qed.

Lemma no_match_at_nl (prev : option char) (s : str) :
  match_at re_delimiter prev (nl :: s) = None.
Proof. apply run_first_lit with (c := 61%N); [reflexivity | discriminate]. Qed.

Lemma lines_nonempty (s : str) : lines s <> [].
Proof.
  destruct s as [|c s]; simpl; [discriminate|].
  destruct (is_nl c); [discriminate|]. destruct (lines s); discriminate.
Qed.

Lemma join_lines (s : str) : join [nl] (lines s) = s.
Proof.
  induction s as [|c s IH]; [reflexivity|]. simpl.
  destruct (is_nl c) eqn:Hc.
  - apply is_nl_eq in Hc. subst c. pose proof (lines_nonempty s).
    destruct (lines s) as [|l ls]; [congruence|]. rewrite <- IH. reflexivity.
  - pose proof (lines_nonempty s).
    destruct (lines s) as [|l ls]; [congruence|]. rewrite <- IH.
    destruct ls; reflexivity.
Qed.

Lemma lines_one_line (s : str) : Forall one_line (lines s).
Proof.
  induction s as [|c s IH]; simpl; [repeat constructor|].
  destruct (is_nl c) eqn:Hc; [constructor; [reflexivity | exact IH]|].
  destruct (lines s) as [|l ls].
  - repeat constructor. apply one_line_cons. split; [exact Hc | reflexivity].
  - inversion IH; subst. constructor; [|assumption].
    apply one_line_cons. split; assumption.
Qed.

End LineFacts.

(** ** The split of a text, line by line *)

Section SplitLines.

Lemma inside_line (prev : option char) (l a1 : str) (x : char) (a2 : str) :
  one_line l -> l = a1 ++ x :: a2 -> a1 <> [] -> at_bol (after prev a1) = false.
Proof.
  intros Hl E Ha. destruct a1 as [|c a]; [congruence|].
  destruct (after_cons_in prev c a) as [d [-> Hd]]. simpl.
  subst l. apply one_line_app in Hl as [Hl _].
  unfold one_line in Hl. rewrite forallb_forall in Hl.
  specialize (Hl d Hd). unfold dot in Hl. now apply negb_true_iff in Hl.
Qed.

Lemma scan_nl (prev : option char) (cur rest : str) :
  Re.split_scan re_delimiter prev 0 cur (nl :: rest)
  = Re.split_scan re_delimiter (Some nl) 0 (cur ++ [nl]) rest.
Proof. cbn [Re.split_scan]. now rewrite no_match_at_nl. Qed.

Lemma scan_plain_line (prev : option char) (cur l rest : str) :
  one_line l -> at_bol prev = true -> at_eol rest = true ->
  delimiter_title l = None ->
  Re.split_scan re_delimiter prev 0 cur (l ++ rest)
  = Re.split_scan re_delimiter (after prev l) 0 (cur ++ l) rest.
Proof.
  intros Hl Hb He Hd. apply split_scan_copy. intros a1 x a2 E.
  destruct a1 as [|c a1].
  - simpl in E. simpl after. change (x :: a2 ++ rest) with ((x :: a2) ++ rest).
    rewrite <- E, match_line, Hd; auto.
  - apply no_match_inside. eapply inside_line; eauto; discriminate.
Qed.

Lemma scan_delimiter_line (prev : option char) (cur l t rest : str) :
  one_line l -> at_bol prev = true -> at_eol rest = true ->
  delimiter_title l = Some t ->
  Re.split_scan re_delimiter prev 0 cur (l ++ rest)
  = cur :: t :: Re.split_scan re_delimiter (after prev l) 0 [] rest.
Proof.
  intros Hl Hb He Hd.
  pose proof (match_line prev l rest Hl Hb He) as H. rewrite Hd in H.
  destruct l as [|c m].
  - apply delimiter_title_some in Hd as [Hd _]; [discriminate | exact Hl].
  - apply split_scan_match. exact H.
Qed.

(** The split of a text is the split of its lines. *)
Lemma split_scan_lines (ls : list str) (prev : option char) (cur : str) :
  Forall one_line ls -> ls <> [] -> at_bol prev = true ->
  Re.split_scan re_delimiter prev 0 cur (join [nl] ls) = sections_of_lines cur ls.
Proof.
  intros Hls. revert prev cur.
  induction Hls as [|l ls Hl Hls IH]; intros prev cur Hne Hb; [congruence|].
  destruct ls as [|l2 ls].
  - cbn [join sections_of_lines]. rewrite <- (app_nil_r l) at 1.
    destruct (delimiter_title l) as [t|] eqn:Hd.
    + rewrite scan_delimiter_line with (t := t); auto.
    + rewrite scan_plain_line; auto.
  - cbn [join sections_of_lines]. cbn [app].
    destruct (delimiter_title l) as [t|] eqn:Hd.
    + rewrite scan_delimiter_line with (t := t); auto.
      rewrite scan_nl. rewrite IH; [reflexivity | discriminate | reflexivity].
    + rewrite scan_plain_line; auto.
      rewrite scan_nl. rewrite IH; [|discriminate | reflexivity].
      now rewrite <- app_assoc.
Qed.

Theorem split_lines (s : str) :
  Re.split re_delimiter s = sections_of_lines [] (lines s).
Proof.
  unfold Re.split. rewrite <- (join_lines s) at 1.
  apply split_scan_lines; auto using lines_one_line, lines_nonempty.
Qed.

Lemma lines_app_nl (a b : str) : lines (a ++ nl :: b) = lines a ++ lines b.
Proof.
  induction a as [|c a IH]; [reflexivity|]. simpl. rewrite IH.
  destruct (is_nl c); [reflexivity|].
  pose proof (lines_nonempty a). destruct (lines a); [congruence | reflexivity].
Qed.

Lemma lines_of_line (l : str) : one_line l -> lines l = [l].
Proof.
  induction l as [|c l IH]; [reflexivity|]. intros H.
  apply one_line_cons in H as [Hc Hl]. simpl. rewrite Hc, IH; auto.
Qed.

Lemma terminated_lines (s : str) :
  concat (List.map (fun l => l ++ [nl]) (lines s)) = s ++ [nl].
Proof.
  induction s as [|c s IH]; [reflexivity|]. simpl.
  destruct (is_nl c) eqn:Hc.
  - apply is_nl_eq in Hc. subst c. simpl. now rewrite IH.
  - pose proof (lines_nonempty s). destruct (lines s) as [|l ls]; [congruence|].
    simpl in *. now rewrite IH.
Qed.

Lemma sections_length (ls : list str) (cur : str) :
  length (sections_of_lines cur ls) = 1 + 2 * count_delimiters ls.
Proof.
  revert cur. induction ls as [|l ls IH]; intros cur; [reflexivity|].
  unfold count_delimiters, is_delimiter in *. cbn [sections_of_lines List.filter].
  destruct (delimiter_title l), ls; cbn [length]; try rewrite IH;
    cbn [List.filter length]; lia.
Qed.

Lemma sections_plain_line (l : str) (rest : list str) (cur : str) :
  delimiter_title l = None -> rest <> [] ->
  sections_of_lines cur (l :: rest) = sections_of_lines (cur ++ l ++ [nl]) rest.
Proof.
  intros H Hr. cbn [sections_of_lines]. rewrite H.
  destruct rest; [congruence | reflexivity].
Qed.

(** Lines that are not delimiters are collected. *)
Lemma sections_plain (ls rest : list str) (cur : str) :
  Forall (fun l => delimiter_title l = None) ls -> rest <> [] ->
  sections_of_lines cur (ls ++ rest)
  = sections_of_lines (cur ++ concat (List.map (fun l => l ++ [nl]) ls)) rest.
Proof.
  intros H Hr. revert cur. induction H as [|l ls Hl _ IH]; intros cur.
  - simpl. now rewrite app_nil_r.
  - cbn [app]. rewrite sections_plain_line; [|exact Hl|].
    + rewrite IH. simpl. now rewrite <- !app_assoc.
    + intros E. apply app_eq_nil in E as [_ E]. congruence.
Qed.

Lemma sections_plain_end (ls : list str) (cur : str) :
  Forall (fun l => delimiter_title l = None) ls -> ls <> [] ->
  sections_of_lines cur ls = [cur ++ join [nl] ls].
Proof.
  intros H. revert cur. induction H as [|l ls Hl _ IH]; intros cur Hne; [congruence|].
  cbn [sections_of_lines]. rewrite Hl. destruct ls as [|l2 ls]; [reflexivity|].
  rewrite IH by discriminate. cbn [join]. now rewrite <- !app_assoc.
Qed.

Lemma sections_delimiter (l t : str) (rest : list str) (cur : str) :
  delimiter_title l = Some t -> rest <> [] ->
  sections_of_lines cur (l :: rest) = cur :: t :: sections_of_lines [nl] rest.
Proof.
  intros H Hr. cbn [sections_of_lines]. rewrite H.
  destruct rest; [congruence | reflexivity].
Qed.

Lemma sections_nonempty (ls : list str) (cur : str) : sections_of_lines cur ls <> [].
Proof.
  intros E. pose proof (sections_length ls cur) as H. rewrite E in H.
  simpl in H. lia.
Qed.

Lemma map_last_cons {A : Type} (f : A -> A) (x : A) (xs : list A) :
  xs <> [] -> map_last f (x :: xs) = x :: map_last f xs.
Proof. destruct xs; [congruence | reflexivity]. Qed.

(** One more newline at the end goes to the last section. *)
Lemma sections_trailing_nl (ls : list str) (cur : str) :
  ls <> [] ->
  sections_of_lines cur (ls ++ [[]])
  = map_last (fun x => x ++ [nl]) (sections_of_lines cur ls).
Proof.
  revert cur. induction ls as [|l ls IH]; intros cur Hne; [congruence|].
  destruct ls as [|l2 ls].
  - cbn. destruct (delimiter_title l); cbn; [reflexivity|].
    now rewrite app_nil_r, <- app_assoc.
  - cbn [app]. destruct (delimiter_title l) as [t|] eqn:Hd.
    + rewrite !(sections_delimiter l t) by (auto; discriminate).
      rewrite !map_last_cons; try discriminate; [|apply sections_nonempty].
      f_equal. f_equal. apply (IH [nl]). discriminate.
    + rewrite !(sections_plain_line l) by (auto; discriminate).
      apply IH. discriminate.
Qed.

Lemma map_last_length {A : Type} (f : A -> A) (xs : list A) :
  length (map_last f xs) = length xs.
Proof.
  induction xs as [|x [|y xs] IH]; simpl in *; auto.
Qed.

Lemma map_last_nth (f : str -> str) (xs : list str) (i : nat) :
  (forall x, strip (f x) = strip x) ->
  strip (nth i (map_last f xs) []) = strip (nth i xs []).
Proof.
  intros Hf. revert i. induction xs as [|x [|y xs] IH]; intros i.
  - reflexivity.
  - destruct i as [|[|i]]; simpl; auto.
  - destruct i as [|i]; [reflexivity|]. apply (IH i).
Qed.

(** Newlines at the end of a text change neither the number of sections
    nor any section once stripped. *)
Lemma split_trailing_newlines (s : str) (k : nat) :
  length (Re.split re_delimiter (s ++ repeat nl k))
  = length (Re.split re_delimiter s)
  /\ forall i, strip (nth i (Re.split re_delimiter (s ++ repeat nl k)) [])
               = strip (nth i (Re.split re_delimiter s) []).
Proof.
  induction k as [|k [IHl IHn]].
  - simpl. rewrite app_nil_r. auto.
  - replace (s ++ repeat nl (S k)) with ((s ++ repeat nl k) ++ [nl]).
    + rewrite (split_lines (_ ++ [nl])), lines_app_nl. simpl lines.
      rewrite sections_trailing_nl by apply lines_nonempty.
      rewrite <- split_lines. rewrite map_last_length. split; [exact IHl|].
      intros i. rewrite map_last_nth; [apply IHn|].
      intros x. apply strip_app_spaces. repeat constructor.
    + rewrite <- app_assoc. f_equal.
      change [nl] with (repeat nl 1). rewrite <- repeat_app. f_equal. lia.
Qed.

End SplitLines.

(** * The commit of the buffer *)

Section CommitFacts.

Lemma set_content_length (book : list item) (i : nat) (c : str) :
  length (set_content book i c) = length book.
Proof.
  unfold set_content. destruct (book !! i); [apply length_insert | reflexivity].
Qed.

Lemma set_content_other (book : list item) (i j : nat) (c : str) :
  i <> j -> set_content book i c !! j = book !! j.
Proof.
  intros H. unfold set_content. destruct (book !! i); [|reflexivity].
  now apply list_lookup_insert_ne.
Qed.

Lemma set_content_same (book : list item) (i : nat) (c : str) (it' : item) :
  set_content book i c !! i = Some it' -> get_content it' = c.
Proof.
  unfold set_content. destruct (book !! i) as [it|] eqn:E.
  - rewrite list_lookup_insert_eq by (eapply lookup_lt_Some; eauto).
    intros [= <-]. reflexivity.
  - congruence.
Qed.

Lemma source_set_same (book : list item) (ch : chapter) (c : str) :
  ch_item ch < length book ->
  chapter_source (set_content book (ch_item ch) c) ch = c.
Proof.
  intros H. unfold chapter_source, set_content.
  destruct (lookup_lt_is_Some_2 book _ H) as [it E]. rewrite E.
  now rewrite list_lookup_insert_eq.
Qed.

Lemma source_lookup (book book' : list item) (ch : chapter) :
  book' !! ch_item ch = book !! ch_item ch ->
  chapter_source book' ch = chapter_source book ch.
Proof. unfold chapter_source. now intros ->. Qed.

Lemma distinct_items (chs : list chapter) (i j : nat) (a b : chapter) :
  NoDup (ch_item <$> chs) -> chs !! i = Some a -> chs !! j = Some b ->
  i <> j -> ch_item a <> ch_item b.
Proof.
  intros Hnd Ha Hb Hij E. apply Hij.
  apply (NoDup_lookup _ i j (ch_item a) Hnd).
  - now rewrite list_lookup_fmap, Ha.
  - now rewrite list_lookup_fmap, Hb, E.
Qed.

Variable chs : list chapter.
Variable sections : list str.

Lemma commit_loop_step (k i0 : nat) (st : list item * nat) :
  commit_loop chs sections (S k) i0 st
  = commit_loop chs sections k (i0 + 2) (write_section chs sections st i0).
Proof. reflexivity. Qed.

Lemma commit_loop_length (k i0 c : nat) (book : list item) :
  length (fst (commit_loop chs sections k i0 (book, c))) = length book.
Proof.
  revert i0 c book. induction k as [|k IH]; intros i0 c book; [reflexivity|].
  rewrite commit_loop_step. unfold write_section.
  destruct (chs !! c); rewrite IH; [apply set_content_length | reflexivity].
Qed.

(** The turns of the loop write only the items of the chapters they
    reach. *)
Lemma commit_loop_frame (k i0 c : nat) (book : list item) (p : nat) :
  (forall j ch, c <= j < c + k -> chs !! j = Some ch -> ch_item ch <> p) ->
  fst (commit_loop chs sections k i0 (book, c)) !! p = book !! p.
Proof.
  revert i0 c book. induction k as [|k IH]; intros i0 c book H; [reflexivity|].
  rewrite commit_loop_step. unfold write_section.
  destruct (chs !! c) as [ch|] eqn:E.
  - rewrite IH.
    + apply set_content_other. apply (H c); [lia | exact E].
    + intros j ch' Hj. apply H. lia.
  - apply IH. intros j ch' Hj. apply H. lia.
Qed.

(** The chapter at position [j] receives the body of the turn that
    reaches it. *)
Lemma commit_loop_write (k i0 c : nat) (book : list item) (j : nat) (ch : chapter) :
  NoDup (ch_item <$> chs) ->
  c <= j < c + k -> chs !! j = Some ch -> ch_item ch < length book ->
  chapter_source (fst (commit_loop chs sections k i0 (book, c))) ch
  = section_page sections ch (i0 + 2 * (j - c)).
Proof.
  intros Hnd. revert i0 c book.
  induction k as [|k IH]; intros i0 c book Hj Hch Hlen; [lia|].
  rewrite commit_loop_step. unfold write_section.
  destruct (chs !! c) as [chc|] eqn:E.
  - destruct (Nat.eq_dec j c) as [->|Hne].
    + assert (chc = ch) by congruence. subst chc.
      etransitivity.
      * apply source_lookup, commit_loop_frame. intros j' ch' Hj' Hch'.
        apply (distinct_items chs j' c); auto. lia.
      * rewrite source_set_same by assumption.
        replace (i0 + 2 * (c - c)) with i0 by lia. reflexivity.
    + rewrite IH; try assumption; try lia.
      * f_equal. lia.
      * now rewrite set_content_length.
  - apply lookup_ge_None in E. apply lookup_lt_Some in Hch. lia.
Qed.

(** Whatever the loop leaves in an item is what was there, or a page
    carrying the stored title of a chapter that refers to the item. *)
Lemma commit_loop_titles (k i0 c : nat) (book : list item) (p : nat) (it' : item) :
  fst (commit_loop chs sections k i0 (book, c)) !! p = Some it' ->
  book !! p = Some it'
  \/ exists ch html, In ch chs /\ ch_item ch = p
                     /\ get_content it' = full_html 24 (ch_title ch) html.
Proof.
  revert i0 c book. induction k as [|k IH]; intros i0 c book H; [left; exact H|].
  rewrite commit_loop_step in H. unfold write_section in H.
  destruct (chs !! c) as [ch|] eqn:E; [|eauto].
  destruct (IH _ _ _ H) as [H1 | H1]; [|right; exact H1].
  destruct (Nat.eq_dec (ch_item ch) p) as [Ep|Hne].
  - right. exists ch. eexists. rewrite <- Ep in H1.
    apply set_content_same in H1. unfold section_page in H1. repeat split; eauto.
    apply list_elem_of_In. eapply list_elem_of_lookup_2; eauto.
  - left. now rewrite set_content_other in H1.
Qed.

(** The loop of the save is the loop without exceptions, cut at the first
    turn that raises. *)
Lemma save_sections_completed (k i0 c : nat) (book : list item) :
  save_sections chs sections (odd_range k i0) (book, c)
  = commit_loop chs sections (completed chs sections k i0 c) i0 (book, c).
Proof.
  revert i0 c book. induction k as [|k IH]; intros i0 c book; [reflexivity|].
  cbn [odd_range save_sections completed]. unfold save_section.
  destruct (chs !! c) as [ch|] eqn:E.
  - change (full_html 24 (ch_title ch)
              (markdown_to_html
                 (if i0 + 1 <? length sections
                  then strip (nth (i0 + 1) sections [])
                  else [])))
      with (section_page sections ch i0).
    unfold encode_utf8.
    destruct (existsb is_surrogate (section_page sections ch i0)); [reflexivity|].
    rewrite IH, commit_loop_step. unfold write_section. now rewrite E.
  - rewrite IH, commit_loop_step. unfold write_section. now rewrite E.
Qed.

Lemma completed_le (k i0 c : nat) : completed chs sections k i0 c <= k.
Proof.
  revert i0 c. induction k as [|k IH]; intros i0 c; [reflexivity|].
  cbn [completed]. destruct (chs !! c) as [ch|].
  - destruct (existsb is_surrogate (section_page sections ch i0)); [lia|].
    specialize (IH (i0 + 2) (c + 1)). lia.
  - specialize (IH (i0 + 2) c). lia.
Qed.

Lemma completed_stuck (k i0 c : nat) :
  chs !! c = None -> completed chs sections k i0 c = k.
Proof.
  intros H. revert i0. induction k as [|k IH]; intros i0; [reflexivity|].
  cbn [completed]. rewrite H. now rewrite IH.
Qed.

(** When the pages of the chapters from [c] up to [j] can be encoded, the
    loop completes the turn of chapter [j]. *)
Lemma completed_reaches (k i0 c j : nat) :
  c <= j < c + k ->
  (forall i ch, c <= i <= j -> chs !! i = Some ch ->
                encodable (section_page sections ch (i0 + 2 * (i - c)))) ->
  j - c < completed chs sections k i0 c.
Proof.
  revert i0 c. induction k as [|k IH]; intros i0 c Hj Henc; [lia|].
  cbn [completed]. destruct (chs !! c) as [ch|] eqn:E.
  - assert (H0 : encodable (section_page sections ch i0)).
    { specialize (Henc c ch). replace (i0 + 2 * (c - c)) with i0 in Henc by lia.
      apply Henc; [lia | exact E]. }
    unfold encodable in H0. rewrite H0.
    destruct (Nat.eq_dec j c) as [->|Hne]; [lia|].
    assert (H1 : j - (c + 1) < completed chs sections k (i0 + 2) (c + 1)).
    { apply IH; [lia|]. intros i ch' Hi Hch.
      replace (i0 + 2 + 2 * (i - (c + 1))) with (i0 + 2 * (i - c)) by lia.
      apply Henc; [lia | exact Hch]. }
    lia.
  - rewrite completed_stuck by exact E. lia.
Qed.

End CommitFacts.

Section CommitTitles.

(** The loop reads the sections at even positions only: the captured
    titles, at the odd positions, play no part. *)
Lemma commit_loop_bodies (chs : list chapter) (s1 s2 : list str)
    (k j0 : nat) (st : list item * nat) :
  length s1 = length s2 ->
  (forall j, nth (2 * j) s1 [] = nth (2 * j) s2 []) ->
  commit_loop chs s1 k (2 * j0 + 1) st = commit_loop chs s2 k (2 * j0 + 1) st.
Proof.
  intros Hlen Heven. revert j0 st. induction k as [|k IH]; intros j0 st; [reflexivity|].
  rewrite !commit_loop_step.
  replace (2 * j0 + 1 + 2) with (2 * (j0 + 1) + 1) by lia. rewrite <- IH.
  f_equal. unfold write_section, section_page, section_body. destruct st as [book c].
  destruct (chs !! c); [|reflexivity].
  rewrite Hlen. replace (2 * j0 + 1 + 1) with (2 * (j0 + 1)) by lia.
  now rewrite Heven.
Qed.

Lemma completed_bodies (chs : list chapter) (s1 s2 : list str)
    (k j0 c : nat) :
  length s1 = length s2 ->
  (forall j, nth (2 * j) s1 [] = nth (2 * j) s2 []) ->
  completed chs s1 k (2 * j0 + 1) c = completed chs s2 k (2 * j0 + 1) c.
Proof.
  intros Hlen Heven. revert j0 c. induction k as [|k IH]; intros j0 c; [reflexivity|].
  cbn [completed].
  replace (2 * j0 + 1 + 2) with (2 * (j0 + 1) + 1) by lia. rewrite !IH.
  destruct (chs !! c) as [ch|]; [|reflexivity].
  assert (Hp : section_page s1 ch (2 * j0 + 1) = section_page s2 ch (2 * j0 + 1)).
  { unfold section_page, section_body. rewrite Hlen.
    replace (2 * j0 + 1 + 1) with (2 * (j0 + 1)) by lia. now rewrite Heven. }
  now rewrite Hp.
Qed.

End CommitTitles.

(** * The chapter list built on load *)

Section LoadFacts.

Variable parse : str -> list node.

Lemma load_chapters_loaded (items : list item) (pos : nat) (chs : list chapter) :
  load_chapters parse pos items chs = chs ++ loaded parse pos items (length chs).
Proof.
  revert pos chs. induction items as [|it rest IH]; intros pos chs; simpl.
  - now rewrite app_nil_r.
  - unfold is_document. destruct (get_type it).
    + rewrite IH, length_app, <- app_assoc. simpl.
      now replace (length chs + 1) with (S (length chs)) by lia.
    + apply IH.
Qed.

Lemma loaded_lookup (items : list item) (pos n k : nat) (it : item) :
  documents items !! k = Some it ->
  exists ch, loaded parse pos items n !! k = Some ch
             /\ items !! (ch_item ch - pos) = Some it /\ pos <= ch_item ch
             /\ ch_title ch = chapter_title (parse (get_content it)) (n + k).
Proof.
  revert pos n k. induction items as [|x rest IH]; intros pos n k H; [discriminate|].
  unfold documents in H. simpl in *. destruct (is_document x).
  - destruct k as [|k]; simpl in H.
    + inversion H; subst x. eexists. split; [reflexivity|]. simpl.
      rewrite Nat.sub_diag, Nat.add_0_r. auto.
    + destruct (IH (S pos) (S n) k H) as [ch [H1 [H2 [H3 H4]]]].
      exists ch. split; [exact H1|].
      replace (ch_item ch - pos) with (S (ch_item ch - S pos)) by lia.
      replace (n + S k) with (S n + k) by lia. repeat split; auto. lia.
  - destruct (IH (S pos) n k H) as [ch [H1 [H2 [H3 H4]]]].
    exists ch. split; [exact H1|].
    replace (ch_item ch - pos) with (S (ch_item ch - S pos)) by lia.
    repeat split; auto. lia.
Qed.

Lemma loaded_length (items : list item) (pos n : nat) :
  length (loaded parse pos items n) = length (documents items).
Proof.
  revert pos n. induction items as [|x rest IH]; intros pos n; [reflexivity|].
  unfold documents in *. simpl. destruct (is_document x); simpl; auto.
Qed.

Lemma loaded_range (items : list item) (pos n : nat) :
  Forall (fun ch => pos <= ch_item ch < pos + length items) (loaded parse pos items n).
Proof.
  revert pos n. induction items as [|x rest IH]; intros pos n; simpl; [constructor|].
  assert (H : forall m, Forall (fun ch => pos <= ch_item ch < pos + S (length rest))
                          (loaded parse (S pos) rest m)).
  { intros m. eapply Forall_impl; [apply IH|]. simpl. intros; lia. }
  destruct (is_document x); [constructor; [simpl; lia|]|]; apply H.
Qed.

Lemma loaded_nodup (items : list item) (pos n : nat) :
  NoDup (ch_item <$> loaded parse pos items n).
Proof.
  revert pos n. induction items as [|x rest IH]; intros pos n; simpl; [constructor|].
  destruct (is_document x); [|apply IH]. simpl. constructor; [|apply IH].
  intros Hin. apply list_elem_of_fmap in Hin as [ch [E Hch]].
  pose proof (loaded_range rest (S pos) (S n)) as Hr.
  rewrite List.Forall_forall in Hr. apply list_elem_of_In in Hch.
  specialize (Hr _ Hch). simpl in E. lia.
Qed.

Lemma load_epub_file_chapters (book : list item) (e : editor) :
  chapters (load_epub_file parse book e) = loaded parse 0 book 0
  /\ current_book (load_epub_file parse book e) = book.
Proof.
  unfold load_epub_file. rewrite load_chapters_loaded. simpl.
  destruct (loaded parse 0 book 0) as [|ch chs] eqn:E; [auto|].
  destruct (view_mode e).
  - unfold load_chapter. simpl. auto.
  - unfold load_full_book. simpl. auto.
Qed.

Lemma load_well_formed (book : list item) (e : editor) :
  well_formed (load_epub_file parse book e).
Proof.
  unfold well_formed. destruct (load_epub_file_chapters book e) as [-> ->]. split.
  - apply loaded_nodup.
  - eapply Forall_impl; [apply loaded_range|]. simpl. intros; lia.
Qed.

End LoadFacts.

Lemma save_chapters (e : editor) : chapters (save_epub_to_path e) = chapters e.
Proof.
  unfold save_epub_to_path, save_chapter, save_full_book.
  destruct (view_mode e); [|reflexivity].
  destruct (chapters e !! current_chapter_index e); [|reflexivity].
  destruct (encode_utf8 _); reflexivity.
Qed.

Lemma save_length (e : editor) :
  length (current_book (save_epub_to_path e)) = length (current_book e).
Proof.
  unfold save_epub_to_path, save_chapter, save_full_book.
  destruct (view_mode e); simpl.
  - destruct (chapters e !! current_chapter_index e); simpl; [|reflexivity].
    destruct (encode_utf8 _); simpl; [apply set_content_length | reflexivity].
  - unfold range_1_step_2. rewrite save_sections_completed.
    apply commit_loop_length.
Qed.

Lemma save_well_formed (e : editor) :
  well_formed e -> well_formed (save_epub_to_path e).
Proof.
  intros [H1 H2]. unfold well_formed. rewrite save_chapters, save_length. auto.
Qed.

(** * More about strings *)

Lemma startswith_nil (s : str) : startswith s [] = true.
Proof. destruct s; reflexivity. Qed.

(** Where a character that a text does not hold occurs after it. *)
Lemma marker_place (c : char) (a rest a1 a2 : str) :
  ~ In c a -> a ++ rest = a1 ++ c :: a2 ->
  exists r1, rest = r1 ++ c :: a2 /\ a1 = a ++ r1.
Proof.
  revert a1. induction a as [|x a IH]; intros a1 Ha E.
  - exists a1. auto.
  - destruct a1 as [|y a1].
    + cbn in E. injection E as -> _. exfalso. apply Ha. now left.
    + cbn in E. injection E as -> E.
      destruct (IH a1) as [r1 [H1 H2]]; [intros H; apply Ha; now right | exact E|].
      exists r1. split; [exact H1 | now rewrite H2].
Qed.

(** A literal does not hold the character: by computation. *)
Ltac literal_free H :=
  vm_compute in H;
  repeat (destruct H as [H|H]; [discriminate|]); exact H.

(** * The claims about loading and committing *)

Lemma strip_surround (w1 w2 s : str) :
  Forall (fun c => isspace c = true) w1 ->
  Forall (fun c => isspace c = true) w2 ->
  strip (w1 ++ s ++ w2) = strip s.
Proof.
  intros H1 H2. destruct (lstrip_split s) as [u [E Hu]].
  destruct (rstrip_split (lstrip s)) as [v [E' Hv]]. fold (strip s) in E'.
  assert (Es : w1 ++ s ++ w2 = (w1 ++ u) ++ strip s ++ (v ++ w2)).
  { rewrite (app_assoc (strip s)), <- E', <- (app_assoc w1), (app_assoc u), <- E.
    reflexivity. }
  rewrite Es. apply strip_pad; auto using strip_trimmed; apply List.Forall_app; auto.
Qed.

Lemma delimiter_ready_title (t : str) :
  delimiter_ready t -> delimiter_title (delimiter_line t) = Some t.
Proof.
  intros [Ht Hl]. apply delimiter_title_some; auto using one_line_delimiter.
Qed.

(** The sections of a buffer made of two delimiters and two bodies. *)
Lemma two_sections (X Y bodyX bodyY : str) :
  delimiter_ready X -> delimiter_ready Y ->
  delimiter_free bodyX -> delimiter_free bodyY ->
  Re.split re_delimiter
    (delimiter_line X ++ nl :: bodyX ++ nl :: delimiter_line Y ++ nl :: bodyY)
  = [[]; X; nl :: bodyX ++ [nl]; Y; nl :: bodyY].
Proof.
  intros HX HY HbX HbY. rewrite split_lines.
  rewrite !lines_app_nl.
  rewrite (lines_of_line (delimiter_line X)) by (apply one_line_delimiter, HX).
  rewrite (lines_of_line (delimiter_line Y)) by (apply one_line_delimiter, HY).
  cbn [app].
  rewrite (sections_delimiter _ X) by
    (auto using delimiter_ready_title;
     intros E; apply app_eq_nil in E as [_ E]; discriminate).
  rewrite sections_plain by (auto; discriminate).
  rewrite terminated_lines.
  rewrite (sections_delimiter _ Y) by
    (auto using delimiter_ready_title; apply lines_nonempty).
  rewrite sections_plain_end by (auto; apply lines_nonempty).
  rewrite join_lines. reflexivity.
Qed.

Lemma full_book_commit (e : editor) :
  view_mode e = full_book_view ->
  current_book (save_epub_to_path e)
  = fst (commit_loop (chapters e) (chapter_sections e) (turns_done e) 1
           (current_book e, 0)).
Proof.
  intros H. unfold save_epub_to_path, save_full_book, range_1_step_2. rewrite H.
  cbn [with_book current_book]. now rewrite save_sections_completed.
Qed.

Lemma turns_done_le (e : editor) :
  turns_done e <= count_delimiters (lines (strip (editor_get e))).
Proof.
  unfold turns_done.
  pose proof (completed_le (chapters e) (chapter_sections e)
                (length (chapter_sections e) / 2) 1 0) as H.
  assert (Hlen : length (chapter_sections e)
                 = 1 + 2 * count_delimiters (lines (strip (editor_get e)))).
  { unfold chapter_sections. rewrite split_lines. apply sections_length. }
  rewrite Hlen in H at 2.
  replace (1 + 2 * count_delimiters (lines (strip (editor_get e))))
    with (1 + count_delimiters (lines (strip (editor_get e))) * 2) in H by lia.
  rewrite Nat.div_add in H by lia. exact H.
Qed.

Lemma sections_count (e : editor) :
  length (chapter_sections e)
  = 1 + 2 * count_delimiters (lines (strip (editor_get e))).
Proof. unfold chapter_sections. rewrite split_lines. apply sections_length. Qed.

Lemma turns_of_sections (e : editor) :
  length (chapter_sections e) / 2 = count_delimiters (lines (strip (editor_get e))).
Proof.
  rewrite sections_count.
  replace (1 + 2 * count_delimiters (lines (strip (editor_get e))))
    with (1 + count_delimiters (lines (strip (editor_get e))) * 2) by lia.
  now rewrite Nat.div_add by lia.
Qed.

Lemma section_page_chapter (e : editor) (k : nat) (ch : chapter) :
  k < count_delimiters (lines (strip (editor_get e))) ->
  section_page (chapter_sections e) ch (1 + 2 * k) = chapter_page e k ch.
Proof.
  intros Hk. unfold section_page, chapter_page, section_body.
  pose proof (sections_count e) as Hlen.
  replace (1 + 2 * k + 1) with (2 * k + 2) by lia.
  destruct (Nat.ltb_spec (2 * k + 2) (length (chapter_sections e)));
    [reflexivity | lia].
Qed.

(** The loop stops at the first page that cannot be encoded. *)
Lemma completed_stops (chs : list chapter) (sections : list str)
    (k i0 c j : nat) (cj : chapter) :
  c <= j -> chs !! j = Some cj ->
  ~ encodable (section_page sections cj (i0 + 2 * (j - c))) ->
  completed chs sections k i0 c <= j - c.
Proof.
  revert i0 c. induction k as [|k IH]; intros i0 c Hj Hch Henc; [cbn; lia|].
  cbn [completed]. destruct (chs !! c) as [ch|] eqn:E.
  - destruct (existsb is_surrogate (section_page sections ch i0)) eqn:Es; [lia|].
    destruct (Nat.eq_dec j c) as [->|Hne].
    + exfalso. apply Henc. replace (i0 + 2 * (c - c)) with i0 by lia.
      assert (cj = ch) by congruence. subst cj. exact Es.
    + assert (H1 : completed chs sections k (i0 + 2) (c + 1) <= j - (c + 1)).
      { apply IH; [lia | exact Hch|].
        replace (i0 + 2 + 2 * (j - (c + 1))) with (i0 + 2 * (j - c)) by lia.
        exact Henc. }
      lia.
  - apply lookup_ge_None in E. apply lookup_lt_Some in Hch. lia.
Qed.

(** The chapter at position [k] receives section [2k+2] when the buffer
    has more than [k] delimiters and the pages up to its own can be
    encoded. *)
Lemma commit_written (e : editor) (k : nat) (ch : chapter) :
  well_formed e -> view_mode e = full_book_view ->
  chapters e !! k = Some ch ->
  k < count_delimiters (lines (strip (editor_get e))) ->
  pages_encodable e k ->
  chapter_source (current_book (save_epub_to_path e)) ch = chapter_page e k ch.
Proof.
  intros [Hnd Hr] Hm Hch Hk Henc. rewrite full_book_commit by assumption.
  rewrite (commit_loop_write _ _ _ _ _ _ k ch Hnd); try assumption.
  - replace (1 + 2 * (k - 0)) with (1 + 2 * k) by lia.
    now apply section_page_chapter.
  - assert (H : k - 0 < turns_done e).
    { unfold turns_done. apply completed_reaches.
      - rewrite turns_of_sections. lia.
      - intros i ci Hi Hci. replace (1 + 2 * (i - 0)) with (1 + 2 * i) by lia.
        rewrite section_page_chapter by lia. apply (Henc i ci); [lia | exact Hci]. }
    lia.
  - rewrite List.Forall_forall in Hr. apply Hr.
    apply list_elem_of_In. eapply list_elem_of_lookup_2; eauto.
Qed.

(** The chapters at positions the completed turns do not reach keep their
    content. *)
Lemma commit_beyond (e : editor) (k : nat) (ch : chapter) :
  well_formed e -> view_mode e = full_book_view ->
  chapters e !! k = Some ch ->
  turns_done e <= k ->
  chapter_source (current_book (save_epub_to_path e)) ch
  = chapter_source (current_book e) ch.
Proof.
  intros [Hnd Hr] Hm Hch Hk. rewrite full_book_commit by assumption.
  apply source_lookup, commit_loop_frame. intros j ch' Hj Hch'.
  apply (distinct_items (chapters e) j k); auto. lia.
Qed.

(** The chapters at positions the delimiters do not reach keep their
    content. *)
Lemma commit_untouched (e : editor) (k : nat) (ch : chapter) :
  well_formed e -> view_mode e = full_book_view ->
  chapters e !! k = Some ch ->
  count_delimiters (lines (strip (editor_get e))) <= k ->
  chapter_source (current_book (save_epub_to_path e)) ch
  = chapter_source (current_book e) ch.
Proof.
  intros Hwf Hm Hch Hk. apply (commit_beyond e k); auto.
  pose proof (turns_done_le e). lia.
Qed.

(** The chapter whose page cannot be encoded and the chapters after it
    keep their content. *)
Lemma commit_stopped (e : editor) (j k : nat) (cj ch : chapter) :
  well_formed e -> view_mode e = full_book_view ->
  chapters e !! j = Some cj ->
  j < count_delimiters (lines (strip (editor_get e))) ->
  ~ encodable (chapter_page e j cj) ->
  j <= k -> chapters e !! k = Some ch ->
  chapter_source (current_book (save_epub_to_path e)) ch
  = chapter_source (current_book e) ch.
Proof.
  intros Hwf Hm Hcj Hj Henc Hjk Hch. apply (commit_beyond e k); auto.
  assert (H : turns_done e <= j - 0).
  { unfold turns_done. apply (completed_stops _ _ _ _ _ _ cj); [lia | exact Hcj|].
    replace (1 + 2 * (j - 0)) with (1 + 2 * j) by lia.
    now rewrite section_page_chapter. }
  lia.
Qed.

(** ** C8: chapter titles *)

Lemma name_in_one (x name : str) : name_in x [name] = true <-> x = name.
Proof.
  unfold name_in. cbn [existsb]. rewrite orb_false_r. apply str_eqb_eq.
Qed.

Lemma find_all_other (name : str) (ns : list node) :
  Forall (fun n => tag_name n <> name) ns ->
  List.filter (fun n => name_in (tag_name n) [name]) ns = [].
Proof.
  induction 1 as [|n ns Hn _ IH]; [reflexivity|]. cbn [List.filter].
  destruct (name_in (tag_name n) [name]) eqn:E; [|exact IH].
  apply name_in_one in E. contradiction.
Qed.

(** [find] returns the first tag of that name, in document order. *)
Lemma find_first (name : str) (soup : list node) (before behind children : list node) :
  concat (List.map tags_of soup) = before ++ Tag name children :: behind ->
  Forall (fun n => tag_name n <> name) before ->
  find name soup = Some (Tag name children).
Proof.
  intros E Hb. unfold find, find_all. rewrite E, List.filter_app.
  rewrite (find_all_other name before Hb). cbn [app List.filter tag_name].
  assert (Hn : name_in name [name] = true) by now apply name_in_one.
  now rewrite Hn.
Qed.

(** [find] returns [None] when no tag has that name. *)
Lemma find_none (name : str) (soup : list node) :
  Forall (fun n => tag_name n <> name) (concat (List.map tags_of soup)) ->
  find name soup = None.
Proof.
  intros H. unfold find, find_all. now rewrite (find_all_other name _ H).
Qed.

(** C8. On load, the chapter for the [k]-th document item of the book (in
    the order of the book, counting document items only, from 0) refers to
    that item and is titled with the trimmed text of the item's [<title>]
    element when the item has one, and with ["Chapter "] followed by
    [k + 1] otherwise. The [<title>] element of an item is the first tag
    named [title] of its parsed content, in document order, and its text
    is the text of the nodes below it; an item has none when no tag of its
    parsed content is named [title]. A title-less third document item is
    named ["Chapter 3"]. There are as many chapters as document items. *)
Theorem chapter_titles_on_load (parse : str -> list node) (book : list item)
    (e : editor) (k : nat) (it : item) :
  documents book !! k = Some it ->
  exists ch,
    chapters (load_epub_file parse book e) !! k = Some ch
    /\ current_book (load_epub_file parse book e) !! ch_item ch = Some it
    /\ ch_title ch
       = match find (lit "title") (parse (get_content it)) with
         | Some title_element => strip (get_text title_element)
         | None => lit "Chapter " ++ str_of_nat (k + 1)
         end
    /\ (forall before children behind,
          concat (List.map tags_of (parse (get_content it)))
          = before ++ Tag (lit "title") children :: behind ->
          Forall (fun n => tag_name n <> lit "title") before ->
          ch_title ch = strip (concat (List.map get_text children)))
    /\ (Forall (fun n => tag_name n <> lit "title")
          (concat (List.map tags_of (parse (get_content it)))) ->
        ch_title ch = lit "Chapter " ++ str_of_nat (k + 1))
    /\ (k = 2 ->
        Forall (fun n => tag_name n <> lit "title")
          (concat (List.map tags_of (parse (get_content it)))) ->
        ch_title ch = lit "Chapter 3")
    /\ length (chapters (load_epub_file parse book e)) = length (documents book).
Proof.
  intros Hk. destruct (load_epub_file_chapters parse book e) as [-> ->].
  destruct (loaded_lookup parse book 0 0 k it Hk) as [ch [H1 [H2 [_ H3]]]].
  exists ch. rewrite Nat.sub_0_r in H2. simpl in H3.
  split; [exact H1|]. split; [exact H2|]. split; [exact H3|].
  split; [|split; [|split]].
  - intros before children behind E Hb. rewrite H3. unfold chapter_title.
    now rewrite (find_first _ _ before behind children E Hb).
  - intros Hnone. rewrite H3. unfold chapter_title.
    now rewrite (find_none _ _ Hnone).
  - intros -> Hnone. rewrite H3. unfold chapter_title.
    now rewrite (find_none _ _ Hnone).
  - apply loaded_length.
Qed.

(** C8 on [book_123]: its second document, the third item of the book,
    has the title [ Two ] and is named [Two]; its third document has no
    title, is the fourth item of the book and is named [Chapter 3]. *)
Lemma chapter_titles_on_load_witness :
  (exists ch,
     chapters (load_epub_file sample_parse book_123 (initial chapter_view)) !! 1
     = Some ch
     /\ ch_item ch = 2
     /\ ch_title ch = lit "Two")
  /\ (exists ch,
        chapters (load_epub_file sample_parse book_123 (initial chapter_view)) !! 2
        = Some ch
        /\ ch_item ch = 3
        /\ ch_title ch = lit "Chapter 3").
Proof.
  split.
  - destruct (chapter_titles_on_load sample_parse book_123 (initial chapter_view)
                1 (document_item soup_two) eq_refl)
      as [ch [H1 [_ [_ [H4 _]]]]].
    exists ch. split; [exact H1|]. split.
    + vm_compute in H1. inversion H1. reflexivity.
    + rewrite (H4 [] [Text (lit " Two ")] [element "p" "two"]);
        [reflexivity | reflexivity | constructor].
  - destruct (chapter_titles_on_load sample_parse book_123 (initial chapter_view)
                2 (document_item soup_three) eq_refl)
      as [ch [H1 [_ [_ [_ [_ [H6 _]]]]]]].
    exists ch. split; [exact H1|]. split.
    + vm_compute in H1. inversion H1. reflexivity.
    + apply H6; [reflexivity|]. vm_compute. repeat constructor; discriminate.
Defined.

(** ** C9: stored titles *)

Lemma startswith_prefix (s p : str) :
  startswith s p = true <-> exists r, s = p ++ r.
Proof.
  revert s. induction p as [|a p IH]; intros s.
  - rewrite startswith_nil. split; [intros _; now exists s | reflexivity].
  - destruct s as [|c s]; cbn [startswith].
    + split; [discriminate | intros [r E]; discriminate].
    + rewrite andb_true_iff, N.eqb_eq, IH. split.
      * intros [-> [r ->]]. now exists r.
      * intros [r E]. injection E as -> ->. split; [reflexivity | now exists r].
Qed.

Lemma cut_at_here (needle s : str) : cut_at needle (needle ++ s) = Some ([], s).
Proof.
  assert (H : startswith (needle ++ s) needle = true)
    by (apply startswith_prefix; now exists s).
  assert (Hd : drop (length needle) (needle ++ s) = s) by apply drop_app_length.
  destruct (needle ++ s) as [|c t]; cbn [cut_at]; rewrite H, Hd; reflexivity.
Qed.

Lemma cut_at_step (needle : str) (c : char) (s : str) :
  startswith (c :: s) needle = false ->
  cut_at needle (c :: s)
  = match cut_at needle s with
    | Some (before, behind) => Some (c :: before, behind)
    | None => None
    end.
Proof. intros H. cbn [cut_at]. now rewrite H. Qed.

Lemma cut_at_other (a : char) (needle : str) (c : char) (s : str) :
  c <> a ->
  cut_at (a :: needle) (c :: s)
  = match cut_at (a :: needle) s with
    | Some (before, behind) => Some (c :: before, behind)
    | None => None
    end.
Proof.
  intros H. apply cut_at_step. cbn [startswith].
  destruct (N.eqb_spec c a); [contradiction | reflexivity].
Qed.

Lemma cut_at_spaces (a : char) (needle : str) (n : nat) (s : str) :
  a <> 32%N ->
  cut_at (a :: needle) (spaces n ++ s)
  = match cut_at (a :: needle) s with
    | Some (before, behind) => Some (spaces n ++ before, behind)
    | None => None
    end.
Proof.
  intros Ha. induction n as [|n IH].
  - cbn [spaces repeat app]. now destruct (cut_at (a :: needle) s) as [[? ?]|].
  - change (spaces (S n) ++ s) with (32%N :: spaces n ++ s).
    rewrite cut_at_other by congruence. rewrite IH.
    now destruct (cut_at (a :: needle) s) as [[? ?]|].
Qed.

(** The first [<title>] of a page is the one the page is built with. *)
Lemma cut_full_html (indent : nat) (title html_content : str) :
  exists before behind,
    cut_at (lit "<title>") (full_html indent title html_content)
    = Some (before, title ++ lit "</title>" ++ behind).
Proof.
  unfold full_html. eexists. eexists.
  change (lit "<html>") with [60%N; 104%N; 116%N; 109%N; 108%N; 62%N].
  change (lit "<head>") with [60%N; 104%N; 101%N; 97%N; 100%N; 62%N].
  change (lit "<title>") with (60%N :: lit "title>").
  cbn [app].
  rewrite cut_at_other by discriminate.
  rewrite cut_at_spaces by discriminate.
  rewrite cut_at_step by reflexivity.
  do 5 (rewrite cut_at_other by discriminate).
  rewrite cut_at_other by discriminate.
  rewrite cut_at_spaces by discriminate.
  rewrite cut_at_step by reflexivity.
  do 5 (rewrite cut_at_other by discriminate).
  rewrite cut_at_other by discriminate.
  rewrite cut_at_spaces by discriminate.
  change (60%N :: lit "title>" ++ ?x) with ((60%N :: lit "title>") ++ x).
  rewrite cut_at_here. reflexivity.
Qed.

(** A title that does not hold [</title>] ends at the first [</title>]
    after it. *)
Lemma cut_title (title behind : str) :
  contains title (lit "</title>") = false ->
  cut_at (lit "</title>") (title ++ lit "</title>" ++ behind) = Some (title, behind).
Proof.
  induction title as [|c title IH]; intros H;
    [exact (cut_at_here (lit "</title>") behind)|].
  cbn [contains] in H. apply orb_false_iff in H as [H1 H2].
  cbn [app]. rewrite cut_at_step; [now rewrite IH|].
  destruct (startswith (c :: title ++ lit "</title>" ++ behind) (lit "</title>"))
    eqn:E; [exfalso | reflexivity].
  apply startswith_prefix in E as [r E].
  change (lit "</title>" ++ r) with (60%N :: lit "/title>" ++ r) in E.
  injection E as -> E.
  change (lit "</title>" ++ behind) with (60%N :: lit "/title>" ++ behind) in E.
  symmetry in E.
  destruct (marker_place 60%N (lit "/title>") r title (lit "/title>" ++ behind))
    as [r1 [_ Et]]; [intros Hin; literal_free Hin | exact E|].
  assert (Hs : startswith (60%N :: title) (lit "</title>") = true).
  { apply startswith_prefix. exists r1. now rewrite Et. }
  pose proof (eq_trans (eq_sym Hs) H1) as Hc. discriminate.
Qed.

Lemma written_title_page (indent : nat) (title html_content : str) :
  contains title (lit "</title>") = false ->
  written_title (full_html indent title html_content) = Some title.
Proof.
  intros H. unfold written_title.
  destruct (cut_full_html indent title html_content) as [before [behind ->]].
  now rewrite cut_title.
Qed.

Lemma save_chapter_titles (e : editor) (p : nat) (it' : item) :
  current_book (save_chapter e) !! p = Some it' ->
  current_book e !! p = Some it'
  \/ exists ch html, In ch (chapters e) /\ ch_item ch = p
                     /\ get_content it' = full_html 20 (ch_title ch) html.
Proof.
  unfold save_chapter.
  destruct (chapters e !! current_chapter_index e) as [ch|] eqn:E; [|auto].
  unfold encode_utf8. destruct (existsb is_surrogate _); [auto|].
  simpl. intros H. destruct (Nat.eq_dec (ch_item ch) p) as [Ep|Hne].
  - right. exists ch. eexists. rewrite <- Ep in H. apply set_content_same in H.
    repeat split; eauto. apply list_elem_of_In. eapply list_elem_of_lookup_2; eauto.
  - left. now rewrite set_content_other in H.
Qed.



(** ** C1: the split is positional *)

(** C1, as stated, fails for a buffer that [encode] refuses: with the
    lone surrogate code point 55296 as the body under the first
    delimiter, the page of the first chapter cannot be encoded, the save
    ends in its [except] branch, and neither chapter receives the body
    after its delimiter; both keep their content. *)
Lemma surrogate_counterexample :
  chapters surrogate_ab = [chapter_a; chapter_b]
  /\ lines (strip (editor_get surrogate_ab))
     = [delimiter_line (lit "X"); [55296%N]; delimiter_line (lit "Y"); lit "body y"]
  /\ count_delimiters (lines (strip (editor_get surrogate_ab))) = 2
  /\ encode_utf8 (chapter_page surrogate_ab 0 chapter_a) = None
  /\ current_book (save_epub_to_path surrogate_ab) = current_book surrogate_ab
  /\ chapter_source (current_book (save_epub_to_path surrogate_ab)) chapter_a
     <> chapter_page surrogate_ab 0 chapter_a
  /\ chapter_source (current_book (save_epub_to_path surrogate_ab)) chapter_b
     <> chapter_page surrogate_ab 1 chapter_b.
Proof.
  split; [reflexivity|]. split; [vm_compute; reflexivity|].
  split; [vm_compute; reflexivity|]. split; [vm_compute; reflexivity|].
  split; [vm_compute; reflexivity|]. split; vm_compute; discriminate.
Qed.

(** C1, amended. In a full-book commit the sections are those of the
    buffer cut at its delimiter lines, and the chapter at position [k]
    receives the page built from its own stored title and from the
    trimmed text after the [(k+1)]-th delimiter line, whenever the buffer
    has that many delimiter lines and the pages of the chapters up to
    position [k] can be encoded. At the first chapter whose page cannot
    be encoded the commit ends: that chapter and all later ones keep
    their content. No title captured from the buffer enters the result:
    with two chapters and a buffer
    [=== X === / bodyX / === Y === / bodyY], the first chapter receives
    [bodyX] when its page can be encoded, and the second then receives
    [bodyY] when its page can be encoded too, whatever [X] and [Y]
    are. *)
Theorem split_is_positional (e : editor) :
  well_formed e -> view_mode e = full_book_view ->
  chapter_sections e = sections_of_lines [] (lines (strip (editor_get e)))
  /\ (forall k ch,
        chapters e !! k = Some ch ->
        k < count_delimiters (lines (strip (editor_get e))) ->
        pages_encodable e k ->
        chapter_source (current_book (save_epub_to_path e)) ch
        = full_html 24 (ch_title ch)
            (markdown_to_html (strip (nth (2 * k + 2) (chapter_sections e) []))))
  /\ (forall j k cj ch,
        chapters e !! j = Some cj ->
        j < count_delimiters (lines (strip (editor_get e))) ->
        ~ encodable (chapter_page e j cj) ->
        j <= k -> chapters e !! k = Some ch ->
        chapter_source (current_book (save_epub_to_path e)) ch
        = chapter_source (current_book e) ch)
  /\ (forall A B X Y bodyX bodyY,
        chapters e = [A; B] ->
        delimiter_ready X -> delimiter_ready Y ->
        delimiter_free bodyX -> delimiter_free bodyY ->
        strip (editor_get e)
        = delimiter_line X ++ nl :: bodyX ++ nl :: delimiter_line Y ++ nl :: bodyY ->
        encodable (full_html 24 (ch_title A) (markdown_to_html (strip bodyX))) ->
        chapter_source (current_book (save_epub_to_path e)) A
        = full_html 24 (ch_title A) (markdown_to_html (strip bodyX))
        /\ (encodable (full_html 24 (ch_title B) (markdown_to_html (strip bodyY))) ->
            chapter_source (current_book (save_epub_to_path e)) B
            = full_html 24 (ch_title B) (markdown_to_html (strip bodyY)))).
Proof.
  intros Hwf Hm. split; [apply split_lines|]. split; [|split].
  - intros k ch Hch Hk Henc. now apply commit_written.
  - intros j k cj ch Hcj Hj Henc Hjk Hch. now apply (commit_stopped e j k cj ch).
  - intros A B X Y bodyX bodyY Hchs HX HY HbX HbY Hbuf HencA.
    assert (Hs : chapter_sections e = [[]; X; nl :: bodyX ++ [nl]; Y; nl :: bodyY]).
    { unfold chapter_sections. rewrite Hbuf. now apply two_sections. }
    assert (Hcount : count_delimiters (lines (strip (editor_get e))) = 2).
    { pose proof (sections_count e) as H. rewrite Hs in H. simpl in H. lia. }
    assert (HpA : chapter_page e 0 A
                  = full_html 24 (ch_title A) (markdown_to_html (strip bodyX))).
    { unfold chapter_page. rewrite Hs. cbn [nth Nat.mul Nat.add].
      change (nl :: bodyX ++ [nl]) with ([nl] ++ bodyX ++ [nl]).
      rewrite (strip_surround [nl] [nl] bodyX) by repeat constructor. reflexivity. }
    assert (HpB : chapter_page e 1 B
                  = full_html 24 (ch_title B) (markdown_to_html (strip bodyY))).
    { unfold chapter_page. rewrite Hs. cbn [nth Nat.mul Nat.add].
      rewrite <- (app_nil_r bodyY) at 1.
      change (nl :: bodyY ++ []) with ([nl] ++ bodyY ++ []).
      rewrite (strip_surround [nl] [] bodyY) by repeat constructor. reflexivity. }
    assert (Henc0 : pages_encodable e 0).
    { intros j cj Hj Hcj. assert (j = 0) by lia. subst j. rewrite Hchs in Hcj.
      injection Hcj as <-. rewrite HpA. exact HencA. }
    split.
    + rewrite <- HpA. apply commit_written; auto; rewrite ?Hchs, ?Hcount; auto.
    + intros HencB. rewrite <- HpB.
      apply commit_written; auto; rewrite ?Hchs, ?Hcount; auto.
      intros j cj Hj Hcj. destruct j as [|[|j]]; [now apply Henc0| |lia].
      rewrite Hchs in Hcj. injection Hcj as <-. rewrite HpB. exact HencB.
Qed.

(** C1 on [renamed_ab]: chapter A receives the body under [=== X ===] and
    chapter B the body under [=== Y ===]. *)
Lemma split_is_positional_witness :
  chapter_source (current_book (save_epub_to_path renamed_ab)) chapter_a
  = full_html 24 (lit "A") (markdown_to_html (lit "body x"))
  /\ chapter_source (current_book (save_epub_to_path renamed_ab)) chapter_b
     = full_html 24 (lit "B") (markdown_to_html (lit "body y")).
Proof.
  assert (Hwf : well_formed renamed_ab)
    by exact (load_well_formed sample_parse book_ab (initial full_book_view)).
  destruct (split_is_positional renamed_ab Hwf eq_refl) as [_ [_ [_ H]]].
  destruct (H chapter_a chapter_b (lit "X") (lit "Y") (lit "body x") (lit "body y"))
    as [HA HB].
  - reflexivity.
  - split; [discriminate | reflexivity].
  - split; [discriminate | reflexivity].
  - repeat constructor.
  - repeat constructor.
  - vm_compute. reflexivity.
  - vm_compute. reflexivity.
  - split; [exact HA | apply HB; vm_compute; reflexivity].
Defined.

(** ** C3: a deleted delimiter *)


(** *** The lines of a stripped text *)

Lemma nl_space (c : char) : is_nl c = true -> isspace c = true.
Proof. intros H. apply is_nl_eq in H. now subst. Qed.

Lemma lines_cons_char (c : char) (t : str) :
  is_nl c = false ->
  exists l ls, lines t = l :: ls /\ lines (c :: t) = (c :: l) :: ls.
Proof.
  intros H. cbn [lines]. rewrite H. pose proof (lines_nonempty t) as Hne.
  destruct (lines t) as [|l ls]; [congruence|]. eauto.
Qed.

Lemma lines_lstrip (t : str) :
  (Forall (fun l => blank l = true) (lines t) /\ lstrip t = [])
  \/ exists blanks l rest,
       lines t = blanks ++ l :: rest
       /\ Forall (fun l => blank l = true) blanks /\ blank l = false
       /\ lines (lstrip t) = lstrip l :: rest.
Proof.
  induction t as [|c t IH]; [left; split; [repeat constructor | reflexivity]|].
  destruct (isspace c) eqn:Hc.
  - cbn [lstrip]. rewrite Hc. destruct (is_nl c) eqn:Hn.
    + cbn [lines]. rewrite Hn. destruct IH as [[Hb He]|[blanks [l [rest [E [Hb [Hl Hr]]]]]]].
      * left. split; [constructor; [reflexivity | exact Hb] | exact He].
      * right. exists ([] :: blanks), l, rest. rewrite E.
        repeat split; auto.
    + destruct (lines_cons_char c t Hn) as [l0 [ls0 [E0 E1]]]. rewrite E1.
      destruct IH as [[Hb He]|[blanks [l [rest [E [Hb [Hl Hr]]]]]]].
      * left. split; [|exact He]. rewrite E0 in Hb. inversion Hb; subst.
        constructor; [|assumption]. unfold blank in *. cbn. now rewrite Hc.
      * right. rewrite E0 in E. destruct blanks as [|b blanks].
        -- cbn in E. injection E as -> ->. exists [], (c :: l), rest.
           repeat split; auto.
           ++ unfold blank in *. cbn. now rewrite Hc.
           ++ cbn [lstrip]. rewrite Hc. exact Hr.
        -- cbn in E. injection E as -> ->. exists ((c :: b) :: blanks), l, rest.
           inversion Hb; subst. repeat split; auto.
           constructor; [|assumption]. unfold blank in *. cbn. now rewrite Hc.
  - right. assert (Hn : is_nl c = false).
    { destruct (is_nl c) eqn:Hn; [|reflexivity]. apply nl_space in Hn. congruence. }
    destruct (lines_cons_char c t Hn) as [l0 [ls0 [E0 E1]]].
    exists [], (c :: l0), ls0. cbn [lstrip]. rewrite Hc, E1.
    repeat split; auto. unfold blank. cbn. now rewrite Hc.
Qed.

Lemma map_last_snoc {A : Type} (f : A -> A) (xs : list A) (x : A) :
  map_last f (xs ++ [x]) = xs ++ [f x].
Proof.
  induction xs as [|y xs IH]; [reflexivity|].
  cbn [app]. rewrite map_last_cons by (destruct xs; discriminate). now rewrite IH.
Qed.

Lemma lines_snoc (t : str) (c : char) :
  lines (t ++ [c])
  = if is_nl c then lines t ++ [[]] else map_last (fun l => l ++ [c]) (lines t).
Proof.
  destruct (is_nl c) eqn:Hn.
  - apply is_nl_eq in Hn. subst c. apply (lines_app_nl t []).
  - induction t as [|d t IH]; [cbn; now rewrite Hn|].
    cbn [app lines]. rewrite IH. destruct (is_nl d).
    + rewrite map_last_cons; [reflexivity | apply lines_nonempty].
    + pose proof (lines_nonempty t) as Hne.
      destruct (lines t) as [|l [|l2 ls]]; [congruence | reflexivity | reflexivity].
Qed.

Lemma blank_app (a b : str) : blank (a ++ b) = blank a && blank b.
Proof. apply forallb_app. Qed.

Lemma lines_rstrip (t : str) :
  (Forall (fun l => blank l = true) (lines t) /\ rstrip t = [])
  \/ exists front l blanks,
       lines t = front ++ l :: blanks
       /\ Forall (fun l => blank l = true) blanks /\ blank l = false
       /\ lines (rstrip t) = front ++ [rstrip l].
Proof.
  induction t as [|c t IH] using rev_ind;
    [left; split; [repeat constructor | reflexivity]|].
  rewrite lines_snoc. destruct (isspace c) eqn:Hc.
  - rewrite rstrip_app_spaces by (repeat constructor; exact Hc).
    destruct (is_nl c) eqn:Hn.
    + destruct IH as [[Hb He]|[front [l [blanks [E [Hb [Hl Hr]]]]]]].
      * left. split; [|exact He]. apply Forall_app. split; [exact Hb|]. repeat constructor.
      * right. exists front, l, (blanks ++ [[]]). rewrite E, <- app_assoc.
        repeat split; auto. apply Forall_app. split; [exact Hb|]. repeat constructor.
    + destruct IH as [[Hb He]|[front [l [blanks [E [Hb [Hl Hr]]]]]]].
      * left. split; [|exact He].
        pose proof (lines_nonempty t) as Hne.
        destruct (exists_last Hne) as [xs [x Ex]]. rewrite Ex in *.
        rewrite map_last_snoc. apply Forall_app in Hb as [H1 H2].
        apply Forall_app. split; [exact H1|]. inversion H2; subst.
        repeat constructor. rewrite blank_app. unfold blank at 2. cbn.
        rewrite Hc. now rewrite H3.
      * right. rewrite E. destruct blanks as [|b blanks] using rev_ind.
        -- exists front, (l ++ [c]), []. rewrite map_last_snoc.
           repeat split; auto.
           ++ rewrite blank_app, Hl. reflexivity.
           ++ rewrite rstrip_app_spaces by (repeat constructor; exact Hc). exact Hr.
        -- clear IHblanks. exists front, l, (blanks ++ [b ++ [c]]).
           replace (front ++ l :: blanks ++ [b]) with ((front ++ l :: blanks) ++ [b])
             by (now rewrite <- app_assoc).
           rewrite map_last_snoc, <- app_assoc. apply Forall_app in Hb as [H1 H2].
           inversion H2; subst.
           repeat split; auto. apply Forall_app. split; [exact H1|].
           repeat constructor. rewrite blank_app. unfold blank at 2. cbn.
           rewrite Hc. now rewrite H3.
  - right. assert (Hn : is_nl c = false).
    { destruct (is_nl c) eqn:Hn; [|reflexivity]. apply nl_space in Hn. congruence. }
    rewrite Hn. rewrite rstrip_last by exact Hc. rewrite lines_snoc, Hn.
    pose proof (lines_nonempty t) as Hne.
    destruct (exists_last Hne) as [xs [x Ex]]. rewrite Ex.
    rewrite map_last_snoc. exists xs, (x ++ [c]), [].
    repeat split; auto.
    + rewrite blank_app. unfold blank at 2. cbn. rewrite Hc. apply andb_false_r.
    + now rewrite rstrip_last by exact Hc.
Qed.

(** *** Delimiter lines and white space *)

Lemma blank_plain (l : str) : blank l = true -> delimiter_title l = None.
Proof.
  intros H. unfold delimiter_title.
  assert (E : Re.match_at re_delimiter None l = None); [|now rewrite E].
  destruct l as [|c l].
  - apply run_first_lit_nil with (c := 61%N). reflexivity.
  - apply run_first_lit with (c := 61%N); [reflexivity|].
    intros ->. unfold blank in H. cbn in H. discriminate.
Qed.

Lemma is_delimiter_title (l : str) :
  is_delimiter l = true <-> exists t, delimiter_title l = Some t.
Proof.
  unfold is_delimiter. destruct (delimiter_title l) as [t|].
  - split; eauto.
  - split; [discriminate | intros [t H]; discriminate].
Qed.

Lemma is_delimiter_plain (l : str) :
  is_delimiter l = false <-> delimiter_title l = None.
Proof.
  unfold is_delimiter. destruct (delimiter_title l) as [t|]; split; congruence.
Qed.

(** A delimiter line has no white space at its ends. *)
Lemma delimiter_trimmed (l : str) :
  one_line l -> is_delimiter l = true -> lstrip l = l /\ rstrip l = l.
Proof.
  intros Hl H. apply is_delimiter_title in H as [t H].
  apply delimiter_title_some in H as [-> Ht]; [|exact Hl]. split.
  - reflexivity.
  - unfold delimiter_line. rewrite app_assoc.
    change (lit " ===") with ([32%N; 61%N; 61%N] ++ [61%N]). rewrite app_assoc.
    apply rstrip_last. reflexivity.
Qed.

(** *** Sections that agree once stripped *)

Lemma same_bodies_refl (s : list str) : same_bodies s s.
Proof. split; auto. Qed.

Lemma same_bodies_sym (s1 s2 : list str) : same_bodies s1 s2 -> same_bodies s2 s1.
Proof. intros [H1 H2]. split; [auto|]. intros i Hi. symmetry. now apply H2. Qed.

Lemma same_bodies_trans (s1 s2 s3 : list str) :
  same_bodies s1 s2 -> same_bodies s2 s3 -> same_bodies s1 s3.
Proof.
  intros [H1 H2] [H3 H4]. split; [congruence|]. intros i Hi.
  rewrite H2 by exact Hi. now apply H4.
Qed.

Lemma same_bodies_cons (x : str) (s1 s2 : list str) :
  length s1 = length s2 ->
  (forall i, strip (nth i s1 []) = strip (nth i s2 [])) ->
  same_bodies (x :: s1) (x :: s2).
Proof.
  intros Hl H. split; [cbn; now rewrite Hl|]. intros [|i] Hi; [lia|]. apply H.
Qed.

Lemma same_bodies_tail (s1 s2 : list str) :
  s1 <> [] -> s2 <> [] -> tl s1 = tl s2 -> same_bodies s1 s2.
Proof.
  destruct s1 as [|x s1], s2 as [|y s2]; try congruence. cbn. intros _ _ ->.
  split; [reflexivity|]. intros [|i] Hi; [lia | reflexivity].
Qed.

(** The collected text only enters the first section. *)
Lemma sections_cur (ls : list str) (cur : str) :
  sections_of_lines cur ls
  = (cur ++ hd [] (sections_of_lines [] ls)) :: tl (sections_of_lines [] ls).
Proof.
  revert cur. induction ls as [|l ls IH]; intros cur; [cbn; now rewrite app_nil_r|].
  cbn [sections_of_lines]. destruct (delimiter_title l) as [t|], ls as [|l2 ls];
    cbn [hd tl]; rewrite ?app_nil_r; try reflexivity.
  rewrite IH. rewrite (IH ([] ++ l ++ [nl])). cbn [hd tl app].
  now rewrite <- !app_assoc.
Qed.

Lemma sections_tail_cur (ls : list str) (cur1 cur2 : str) :
  tl (sections_of_lines cur1 ls) = tl (sections_of_lines cur2 ls).
Proof. rewrite (sections_cur ls cur1), (sections_cur ls cur2). reflexivity. Qed.

Lemma join_blanks (blanks : list str) :
  Forall (fun l => blank l = true) blanks ->
  Forall (fun c => isspace c = true) (join [nl] blanks).
Proof.
  induction 1 as [|b blanks Hb _ IH]; [constructor|].
  assert (Hs : Forall (fun c => isspace c = true) b).
  { apply List.Forall_forall. intros c Hc. unfold blank in Hb.
    rewrite forallb_forall in Hb. now apply Hb. }
  destruct blanks as [|b2 blanks]; [exact Hs|].
  change (join [nl] (b :: b2 :: blanks)) with (b ++ [nl] ++ join [nl] (b2 :: blanks)).
  apply Forall_app. split; [exact Hs|]. apply Forall_app. split; [|exact IH].
  repeat constructor.
Qed.

Lemma blanks_plain (blanks : list str) :
  Forall (fun l => blank l = true) blanks ->
  Forall (fun l => delimiter_title l = None) blanks.
Proof. apply List.Forall_impl. intros l. apply blank_plain. Qed.

(** Blank lines at the end change no section, once stripped. *)
Lemma sections_trailing_blanks (ls blanks : list str) (cur : str) :
  ls <> [] -> Forall (fun l => blank l = true) blanks ->
  length (sections_of_lines cur (ls ++ blanks)) = length (sections_of_lines cur ls)
  /\ forall i, strip (nth i (sections_of_lines cur (ls ++ blanks)) [])
               = strip (nth i (sections_of_lines cur ls) []).
Proof.
  intros Hne Hb. destruct blanks as [|b blanks]; [rewrite app_nil_r; auto|].
  assert (Hw : Forall (fun c => isspace c = true) (join [nl] (b :: blanks)))
    by now apply join_blanks.
  assert (Hp : Forall (fun l => delimiter_title l = None) (b :: blanks))
    by now apply blanks_plain.
  clear Hb. revert cur. induction ls as [|l ls IH]; intros cur; [congruence|].
  destruct ls as [|l2 ls].
  - cbn [app]. destruct (delimiter_title l) as [t|] eqn:Hd.
    + rewrite (sections_delimiter l t) by (auto; discriminate).
      rewrite (sections_plain_end (b :: blanks)) by (auto; discriminate).
      cbn [sections_of_lines]. rewrite Hd. split; [reflexivity|].
      intros [|[|[|i]]]; try reflexivity. cbn [nth].
      rewrite strip_spaces; [reflexivity|]. apply Forall_app. split; [|exact Hw].
      repeat constructor.
    + rewrite (sections_plain_line l) by (auto; discriminate).
      rewrite (sections_plain_end (b :: blanks)) by (auto; discriminate).
      cbn [sections_of_lines]. rewrite Hd. split; [reflexivity|].
      intros [|i]; [|destruct i; reflexivity]. cbn [nth].
      replace ((cur ++ l ++ [nl]) ++ join [nl] (b :: blanks))
        with ((cur ++ l) ++ [nl] ++ join [nl] (b :: blanks))
        by (now rewrite <- !app_assoc).
      apply strip_app_spaces. apply Forall_app. split; [|exact Hw].
      repeat constructor.
  - cbn [app]. destruct (delimiter_title l) as [t|] eqn:Hd.
    + rewrite !(sections_delimiter l t) by (auto; discriminate).
      destruct (IH ltac:(discriminate) [nl]) as [H1 H2].
      split; [cbn [length]; cbn [app] in H1; now rewrite H1|].
      intros [|[|i]]; try reflexivity. apply (H2 i).
    + rewrite !(sections_plain_line l) by (auto; discriminate).
      apply (IH ltac:(discriminate)).
Qed.

(** White space taken from the end of the last line changes no section,
    once stripped, when it does not make the line a delimiter. *)
Lemma sections_rstrip_last (front : list str) (l : str) (cur : str) :
  one_line l -> is_delimiter (rstrip l) = is_delimiter l ->
  length (sections_of_lines cur (front ++ [rstrip l]))
  = length (sections_of_lines cur (front ++ [l]))
  /\ forall i, strip (nth i (sections_of_lines cur (front ++ [rstrip l])) [])
               = strip (nth i (sections_of_lines cur (front ++ [l])) []).
Proof.
  intros Hl Hd. revert cur. induction front as [|a front IH]; intros cur.
  - destruct (is_delimiter l) eqn:E.
    + destruct (delimiter_trimmed l Hl E) as [_ ->]. auto.
    + cbn [app sections_of_lines].
      apply is_delimiter_plain in Hd, E. rewrite Hd, E. split; [reflexivity|].
      intros [|i]; [|destruct i; reflexivity]. cbn [nth].
      destruct (rstrip_split l) as [w [Ew Hw]]. rewrite Ew at 2.
      rewrite app_assoc. symmetry. now apply strip_app_spaces.
  - cbn [app]. destruct (delimiter_title a) as [t|] eqn:Ha.
    + rewrite !(sections_delimiter a t) by (auto; destruct front; discriminate).
      destruct (IH [nl]) as [H1 H2]. split; [cbn [length]; now rewrite H1|].
      intros [|[|i]]; try reflexivity. apply (H2 i).
    + rewrite !(sections_plain_line a) by (auto; destruct front; discriminate).
      apply IH.
Qed.

(** Blank lines at the start only enter the first section. *)
Lemma sections_leading_blanks (blanks rest : list str) (cur : str) :
  Forall (fun l => blank l = true) blanks -> rest <> [] ->
  tl (sections_of_lines cur (blanks ++ rest)) = tl (sections_of_lines cur rest).
Proof.
  intros Hb Hne. rewrite sections_plain by (auto using blanks_plain).
  apply sections_tail_cur.
Qed.

(** White space taken from the start of the first line only enters the
    first section, when it does not make the line a delimiter. *)
Lemma sections_lstrip_first (l : str) (rest : list str) (cur : str) :
  one_line l -> is_delimiter (lstrip l) = is_delimiter l ->
  tl (sections_of_lines cur (lstrip l :: rest)) = tl (sections_of_lines cur (l :: rest)).
Proof.
  intros Hl Hd. destruct (is_delimiter l) eqn:E.
  - destruct (delimiter_trimmed l Hl E) as [-> _]. reflexivity.
  - apply is_delimiter_plain in Hd, E. destruct rest as [|l2 rest].
    + cbn [sections_of_lines]. now rewrite Hd, E.
    + rewrite (sections_plain_line (lstrip l)), (sections_plain_line l)
        by (auto; discriminate).
      apply sections_tail_cur.
Qed.

Lemma one_line_lstrip (l : str) : one_line l -> one_line (lstrip l).
Proof.
  intros H. destruct (lstrip_split l) as [w [E _]]. rewrite E in H.
  now apply one_line_app in H as [_ H].
Qed.

Lemma one_line_rstrip (l : str) : one_line l -> one_line (rstrip l).
Proof.
  intros H. destruct (rstrip_split l) as [w [E _]]. rewrite E in H.
  now apply one_line_app in H as [H _].
Qed.

Lemma blank_lstrip (l : str) : blank (lstrip l) = blank l.
Proof.
  induction l as [|c l IH]; [reflexivity|]. cbn [lstrip].
  destruct (isspace c) eqn:Hc; [|reflexivity].
  rewrite IH. unfold blank. cbn. now rewrite Hc.
Qed.

(** White space taken from the start of a steady line does not make it a
    delimiter line. *)
Lemma steady_lstrip (l : str) :
  one_line l -> steady l = true -> is_delimiter (lstrip l) = is_delimiter l.
Proof.
  intros Hl Hs. destruct (is_delimiter l) eqn:E.
  - destruct (delimiter_trimmed l Hl E) as [-> _]. exact E.
  - destruct (is_delimiter (lstrip l)) eqn:E2; [|reflexivity].
    destruct (delimiter_trimmed (lstrip l) (one_line_lstrip l Hl) E2) as [_ Hr].
    unfold steady, strip in Hs. rewrite Hr, E2, E in Hs. discriminate.
Qed.

(** Nor does white space taken from its end. *)
Lemma steady_rstrip (l : str) :
  one_line l -> steady l = true -> is_delimiter (rstrip l) = is_delimiter l.
Proof.
  intros Hl Hs. destruct (is_delimiter l) eqn:E.
  - destruct (delimiter_trimmed l Hl E) as [_ ->]. exact E.
  - destruct (is_delimiter (rstrip l)) eqn:E2; [|reflexivity].
    pose proof E2 as E3. apply is_delimiter_title in E3 as [t Ht].
    apply delimiter_title_some in Ht as [Ht _]; [|now apply one_line_rstrip].
    destruct (rstrip_split l) as [w [Ew _]].
    assert (Hh : lstrip l = l).
    { rewrite Ew, Ht. reflexivity. }
    unfold steady, strip in Hs. rewrite Hh, E2, E in Hs. discriminate.
Qed.

Lemma steady_lstrip_steady (l : str) :
  one_line l -> steady l = true -> steady (lstrip l) = true.
Proof.
  intros Hl Hs. unfold steady, strip. rewrite lstrip_idem.
  rewrite (steady_lstrip l Hl Hs). exact Hs.
Qed.

Lemma steady_blank : steady [] = true.
Proof. reflexivity. Qed.

(** The sections of the buffer as the save reads it, stripped and with
    the newline the widget adds, are those of the buffer itself, when no
    line of it turns into a delimiter line once trimmed. *)
Lemma sections_strip (text : str) :
  forallb steady (lines text) = true ->
  same_bodies (sections_of_lines [] (lines (strip (text ++ [nl]))))
    (sections_of_lines [] (lines text)).
Proof.
  intros Hs.
  assert (Hsteady : Forall (fun l => one_line l /\ steady l = true)
                      (lines text ++ [[]])).
  { apply Forall_app. split; [|repeat constructor].
    apply List.Forall_forall. intros l Hin. split.
    - pose proof (lines_one_line text) as H. rewrite List.Forall_forall in H. auto.
    - rewrite forallb_forall in Hs. auto. }
  assert (Hlast : same_bodies (sections_of_lines [] (lines text ++ [[]]))
                    (sections_of_lines [] (lines text))).
  { destruct (sections_trailing_blanks (lines text) [[]] []) as [H1 H2];
      [apply lines_nonempty | repeat constructor|].
    split; auto. }
  apply same_bodies_trans with (2 := Hlast). clear Hlast.
  pose proof (lines_snoc text nl) as Hl. cbn [is_nl] in Hl.
  change (is_nl nl) with true in Hl. cbv iota in Hl.
  unfold strip.
  destruct (lines_lstrip (text ++ [nl])) as [[Hb He]|[blanks [l [rest [E [Hb [Hnb Hr]]]]]]].
  - rewrite He. cbn. rewrite Hl in Hb.
    rewrite (sections_plain_end (lines text ++ [[]]));
      [apply same_bodies_refl || (split; [reflexivity|]; intros [|i] Hi; [lia|]; destruct i; reflexivity)
      | now apply blanks_plain
      | intros E; apply app_eq_nil in E as [_ E]; discriminate].
  - rewrite Hl in E.
    assert (Hin : Forall (fun l => one_line l /\ steady l = true) (l :: rest)).
    { rewrite E in Hsteady. now apply Forall_app in Hsteady as [_ H]. }
    inversion Hin as [|? ? [Hl1 Hl2] Hrest]; subst.
    assert (Hstart : same_bodies (sections_of_lines [] (lstrip l :: rest))
                       (sections_of_lines [] (lines text ++ [[]]))).
    { rewrite E. apply same_bodies_tail; try apply sections_nonempty.
      rewrite sections_leading_blanks by (auto; discriminate).
      apply sections_lstrip_first; [exact Hl1 | now apply steady_lstrip]. }
    apply same_bodies_trans with (2 := Hstart). clear Hstart.
    destruct (lines_rstrip (lstrip (text ++ [nl])))
      as [[Hb2 _]|[front [l' [blanks' [E' [Hb' [Hnb' Hr']]]]]]].
    + rewrite Hr in Hb2. inversion Hb2; subst.
      rewrite blank_lstrip in H1. congruence.
    + rewrite Hr'. rewrite Hr in E'. rewrite E'.
      assert (Hl' : one_line l' /\ steady l' = true).
      { assert (Hall : Forall (fun l => one_line l /\ steady l = true)
                         (lstrip l :: rest)).
        { constructor; [|exact Hrest].
          split; [now apply one_line_lstrip | now apply steady_lstrip_steady]. }
        rewrite E' in Hall. apply Forall_app in Hall as [_ Hall].
        now inversion Hall. }
      destruct Hl' as [Hl'1 Hl'2].
      destruct (sections_rstrip_last front l' [] Hl'1 (steady_rstrip l' Hl'1 Hl'2))
        as [H1 H2].
      destruct (sections_trailing_blanks (front ++ [l']) blanks' []) as [H3 H4];
        [destruct front; discriminate | exact Hb'|].
      rewrite <- app_assoc in H3, H4. cbn [app] in H3, H4.
      split; [congruence|]. intros i _. rewrite H2. symmetry. apply H4.
Qed.

(** *** A buffer without one of its delimiter lines *)

Lemma count_delimiters_cons (l : str) (ls : list str) :
  count_delimiters (l :: ls)
  = (if is_delimiter l then 1 else 0) + count_delimiters ls.
Proof. unfold count_delimiters. cbn [List.filter]. now destruct (is_delimiter l). Qed.

(** The sections of a list of lines with and without one of its delimiter
    lines: the section before the delimiter and the one after it become
    one, and the sections that follow move up by two places. *)
Lemma sections_without (pre post : list str) (d t cur : str) :
  delimiter_title d = Some t ->
  pre ++ post <> [] ->
  exists before x y z behind,
    sections_of_lines cur (pre ++ d :: post) = before ++ x :: t :: y :: behind
    /\ sections_of_lines cur (pre ++ post) = before ++ z :: behind
    /\ length before = 2 * count_delimiters pre.
Proof.
  intros Hd. revert cur. induction pre as [|a pre IH]; intros cur Hne.
  - cbn [app] in *. rewrite (sections_delimiter d t) by assumption.
    rewrite (sections_cur post [nl]), (sections_cur post cur).
    exists [], cur. eexists. eexists. eexists. repeat split.
  - destruct (list_eq_nil_dec (pre ++ post)) as [E|Hne'].
    + apply app_eq_nil in E as [-> ->]. cbn [app sections_of_lines]. rewrite Hd.
      rewrite count_delimiters_cons. change (count_delimiters []) with 0.
      destruct (delimiter_title a) as [ta|] eqn:Ha.
      * assert (is_delimiter a = true) as -> by (apply is_delimiter_title; eauto).
        exists [cur; ta], [nl], [], [], []. repeat split.
      * assert (is_delimiter a = false) as -> by now apply is_delimiter_plain.
        exists [], (cur ++ a ++ [nl]), [], (cur ++ a), []. repeat split.
    + cbn [app]. rewrite count_delimiters_cons.
      destruct (delimiter_title a) as [ta|] eqn:Ha.
      * assert (is_delimiter a = true) as -> by (apply is_delimiter_title; eauto).
        rewrite !(sections_delimiter a ta)
          by (auto; intros E; apply app_eq_nil in E as [_ E]; discriminate).
        destruct (IH [nl] Hne') as [before [x [y [z [behind [E1 [E2 Hl]]]]]]].
        rewrite E1, E2. exists (cur :: ta :: before), x, y, z, behind.
        repeat split. cbn [length]. lia.
      * assert (is_delimiter a = false) as -> by now apply is_delimiter_plain.
        rewrite !(sections_plain_line a)
          by (auto; intros E; apply app_eq_nil in E as [_ E]; discriminate).
        apply (IH _ Hne').
Qed.

Lemma lines_join (ls : list str) :
  Forall one_line ls -> ls <> [] -> lines (join [nl] ls) = ls.
Proof.
  induction 1 as [|l ls Hl _ IH]; intros Hne; [congruence|].
  destruct ls as [|l2 ls]; [now apply lines_of_line|].
  change (join [nl] (l :: l2 :: ls)) with (l ++ nl :: join [nl] (l2 :: ls)).
  rewrite lines_app_nl, IH by discriminate. now rewrite lines_of_line.
Qed.

(** The lines of the buffer after line [i] is deleted. *)
Lemma lines_delete_line (text : str) (i : nat) :
  lines (delete_line i text)
  = match delete i (lines text) with [] => [[]] | _ :: _ => delete i (lines text) end.
Proof.
  unfold delete_line. destruct (delete i (lines text)) as [|l ls] eqn:E; [reflexivity|].
  apply lines_join; [|discriminate]. rewrite <- E.
  rewrite delete_take_drop. apply Forall_app.
  split; [apply Forall_take | apply Forall_drop]; apply lines_one_line.
Qed.

Lemma delete_line_sections (text : str) (i : nat) (d t : str) :
  lines text !! i = Some d -> delimiter_title d = Some t ->
  exists before x y z behind,
    sections_of_lines [] (lines text) = before ++ x :: t :: y :: behind
    /\ sections_of_lines [] (lines (delete_line i text)) = before ++ z :: behind
    /\ length before = 2 * count_delimiters (take i (lines text)).
Proof.
  intros Hi Hd. rewrite lines_delete_line, delete_take_drop.
  assert (Els : sections_of_lines [] (lines text)
                = sections_of_lines []
                    (take i (lines text) ++ d :: drop (S i) (lines text)))
    by (now rewrite (list.take_drop_middle _ _ _ Hi)).
  rewrite Els. clear Els.
  destruct (list_eq_nil_dec (take i (lines text) ++ drop (S i) (lines text)))
    as [E|Hne].
  - rewrite E. apply app_eq_nil in E as [-> ->].
    cbn [app sections_of_lines]. rewrite Hd.
    exists [], [], [], [], []. repeat split.
  - destruct (sections_without _ _ d t [] Hd Hne)
      as [before [x [y [z [behind [E1 [E2 Hl]]]]]]].
    exists before, x, y, z, behind. repeat split; auto.
    destruct (take i (lines text) ++ drop (S i) (lines text)); [congruence | exact E2].
Qed.

Lemma steady_delete_line (text : str) (i : nat) :
  forallb steady (lines text) = true ->
  forallb steady (lines (delete_line i text)) = true.
Proof.
  intros H. rewrite lines_delete_line.
  destruct (delete i (lines text)) as [|l ls] eqn:E; [reflexivity|]. rewrite <- E.
  rewrite delete_take_drop, forallb_app.
  rewrite <- (take_drop (S i) (lines text)), forallb_app in H.
  apply andb_true_iff in H as [H1 H2]. rewrite H2, andb_true_r.
  rewrite <- (take_drop i (take (S i) (lines text))), forallb_app in H1.
  apply andb_true_iff in H1 as [H1 _].
  rewrite take_take in H1. replace (i `min` S i) with i in H1 by lia. exact H1.
Qed.

Lemma chapter_sections_bodies (e : editor) :
  forallb steady (lines (editor_text e)) = true ->
  same_bodies (chapter_sections e) (sections_of_lines [] (lines (editor_text e))).
Proof.
  intros H. unfold chapter_sections, editor_get. rewrite split_lines.
  now apply sections_strip.
Qed.

(** What the save reads after a delimiter line is deleted. *)
Lemma without_line_sections (e : editor) (i : nat) (d t : str) :
  lines (editor_text e) !! i = Some d -> delimiter_title d = Some t ->
  forallb steady (lines (editor_text e)) = true ->
  count_delimiters (lines (strip (editor_get (without_line e i)))) + 1
  = count_delimiters (lines (strip (editor_get e)))
  /\ (forall k,
        count_delimiters (take i (lines (editor_text e))) <= k ->
        strip (nth (2 * k + 2) (chapter_sections (without_line e i)) [])
        = strip (nth (2 * (k + 1) + 2) (chapter_sections e) []))
  /\ (forall k,
        k + 1 < count_delimiters (take i (lines (editor_text e))) ->
        strip (nth (2 * k + 2) (chapter_sections (without_line e i)) [])
        = strip (nth (2 * k + 2) (chapter_sections e) [])).
Proof.
  intros Hi Hd Hs.
  destruct (chapter_sections_bodies e Hs) as [L1 B1].
  destruct (chapter_sections_bodies (without_line e i)) as [L2 B2];
    [cbn [without_line with_text editor_text]; now apply steady_delete_line|].
  cbn [without_line with_text editor_text] in L2, B2.
  destruct (delete_line_sections (editor_text e) i d t Hi Hd)
    as [before [x [y [z [behind [E1 [E2 Hl]]]]]]].
  rewrite E1 in L1, B1. rewrite E2 in L2, B2.
  split; [|split].
  - pose proof (sections_count e) as C1.
    pose proof (sections_count (without_line e i)) as C2.
    rewrite L1 in C1. rewrite L2 in C2. rewrite !length_app in C1, C2.
    cbn [length] in C1, C2. lia.
  - intros k Hk. rewrite B1, B2 by lia.
    rewrite !app_nth2 by lia. f_equal.
    replace (2 * (k + 1) + 2 - length before)
      with (S (S (S (2 * k + 1 - length before)))) by lia.
    replace (2 * k + 2 - length before) with (S (2 * k + 1 - length before)) by lia.
    reflexivity.
  - intros k Hk. rewrite B1, B2 by lia.
    rewrite !app_nth1 by lia. reflexivity.
Qed.



(** ** C2: join, then split *)

Lemma count_delimiters_app (a b : list str) :
  count_delimiters (a ++ b) = count_delimiters a + count_delimiters b.
Proof. unfold count_delimiters. now rewrite List.filter_app, length_app. Qed.

Lemma count_delimiters_zero (ls : list str) :
  count_delimiters ls = 0 -> Forall (fun l => delimiter_title l = None) ls.
Proof.
  unfold count_delimiters, is_delimiter. induction ls as [|l ls IH]; [constructor|].
  simpl. destruct (delimiter_title l) eqn:E; simpl; [discriminate|].
  intros H. constructor; auto.
Qed.

Lemma lines_nl (s : str) : lines (nl :: s) = [] :: lines s.
Proof. reflexivity. Qed.

Lemma lines_chunk (sec : str * str) (rest : str) :
  one_line (fst sec) ->
  lines (chunk sec ++ rest) = chunk_lines sec ++ lines rest.
Proof.
  intros H. unfold chunk, chunk_lines, blank_line.
  rewrite <- !app_assoc. cbn [app].
  rewrite lines_app_nl, (lines_of_line _ (one_line_delimiter _ H)).
  rewrite lines_nl, lines_app_nl, lines_nl.
  cbn [app]. rewrite <- ?app_assoc. reflexivity.
Qed.

Lemma lines_chunks (secs : list (str * str)) :
  Forall (fun sec => delimiter_ready (fst sec)) secs ->
  lines (concat (List.map chunk secs)) = concat (List.map chunk_lines secs) ++ [[]].
Proof.
  induction 1 as [|sec secs [_ Hl] _ IH]; [reflexivity|].
  cbn [List.map concat]. now rewrite lines_chunk, IH, <- app_assoc.
Qed.

Lemma count_chunks (secs : list (str * str)) :
  Forall (fun sec => delimiter_ready (fst sec)) secs ->
  length secs <= count_delimiters (concat (List.map chunk_lines secs))
  /\ (count_delimiters (concat (List.map chunk_lines secs)) = length secs ->
      Forall (fun sec => delimiter_free (snd sec)) secs).
Proof.
  induction 1 as [|sec secs Hr _ [IH1 IH2]]; [split; [simpl; lia | constructor]|].
  cbn [List.map concat length]. unfold chunk_lines at 1 3.
  rewrite !count_delimiters_app.
  assert (Hd : count_delimiters [delimiter_line (fst sec); []] = 1).
  { unfold count_delimiters, is_delimiter. cbn [List.filter].
    rewrite (delimiter_ready_title _ Hr). reflexivity. }
  assert (Hb : count_delimiters [[]] = 0) by reflexivity.
  rewrite Hd, Hb. split; [lia|]. intros E. constructor.
  - apply count_delimiters_zero. lia.
  - apply IH2. lia.
Qed.

Lemma sections_chunks (secs : list (str * str)) (cur : str) :
  Forall (fun sec => delimiter_ready (fst sec)) secs ->
  Forall (fun sec => delimiter_free (snd sec)) secs ->
  sections_of_lines cur (concat (List.map chunk_lines secs) ++ [[]])
  = joined_sections cur secs.
Proof.
  intros Hr. revert cur. induction Hr as [|sec secs Hr _ IH]; intros cur Hf.
  - simpl. now rewrite app_nil_r.
  - inversion Hf as [|? ? Hm Hf']; subst. cbn [List.map concat joined_sections].
    unfold chunk_lines at 1. rewrite <- !app_assoc. cbn [app].
    rewrite (sections_delimiter _ (fst sec)) by
      (auto using delimiter_ready_title; discriminate).
    f_equal. f_equal.
    assert (Hne : forall (a b : list str) (x : str), a ++ x :: b <> []).
    { intros a b x E. apply app_eq_nil in E as [_ E]. discriminate. }
    rewrite (sections_plain_line []) by (auto; reflexivity).
    rewrite sections_plain by (auto; discriminate).
    rewrite terminated_lines.
    rewrite (sections_plain_line []) by (auto; reflexivity).
    rewrite IH by assumption. f_equal. unfold blank_line.
    cbn [app]. rewrite <- !app_assoc. reflexivity.
Qed.

Lemma joined_sections_nth (secs : list (str * str)) (cur : str) (i : nat)
    (sec : str * str) :
  secs !! i = Some sec ->
  nth (2 * i + 2) (joined_sections cur secs) [] = blank_line ++ snd sec ++ blank_line.
Proof.
  revert cur i. induction secs as [|s secs IH]; intros cur i H; [discriminate|].
  destruct i as [|i]; simpl in H.
  - inversion H; subst. simpl. destruct secs; reflexivity.
  - replace (2 * S i + 2) with (S (S (2 * i + 2))) by lia. simpl nth. now apply IH.
Qed.

(** A text that starts and ends with characters that are not white space,
    followed by newlines: [strip] removes the newlines. *)
Lemma strip_explicit (c d : char) (s q : str) (k : nat) :
  isspace c = false -> isspace d = false ->
  c :: s = q ++ [d] ++ repeat nl k -> strip (c :: s) = q ++ [d].
Proof.
  intros Hc Hd E. unfold strip. rewrite lstrip_head by assumption.
  rewrite E, app_assoc, rstrip_app_spaces.
  - now apply rstrip_last.
  - apply List.Forall_forall. intros x Hx. apply repeat_spec in Hx. now subst x.
Qed.

(** The joined text is its stripped form followed by newlines. *)
Lemma joined_strip (secs : list (str * str)) :
  secs <> [] -> Forall (fun sec => trimmed (snd sec)) secs ->
  exists k, concat (List.map chunk secs) = strip (concat (List.map chunk secs)) ++ repeat nl k.
Proof.
  intros Hne Ht.
  assert (Hhead : exists s, concat (List.map chunk secs) = 61%N :: s).
  { destruct secs as [|sec secs]; [congruence|]. eexists. reflexivity. }
  destruct Hhead as [s Es].
  destruct (exists_last Hne) as [init [[t m] Elast]]. subst secs.
  apply Forall_app in Ht as [_ Ht]. inversion Ht as [|? ? Hm _]; subst.
  simpl in Hm. rewrite Es.
  assert (Hshape : exists q d k, isspace d = false /\ 61%N :: s = q ++ [d] ++ repeat nl k).
  { rewrite <- Es, map_app, concat_app. cbn [List.map concat]. rewrite app_nil_r.
    unfold chunk. cbn [fst snd]. destruct m as [|c m].
    - exists (concat (List.map chunk init) ++ lit "=== " ++ t ++ lit " =="), 61%N, 4.
      split; [reflexivity|]. unfold delimiter_line, blank_line.
      rewrite <- !app_assoc. reflexivity.
    - destruct Hm as [_ [u [d [Eu Hd]]]].
      exists (concat (List.map chunk init) ++ delimiter_line t ++ blank_line ++ u), d, 2.
      split; [exact Hd|]. rewrite Eu. unfold blank_line.
      rewrite <- !app_assoc. reflexivity. }
  destruct Hshape as [q [d [k [Hd E]]]]. exists k.
  pose proof (strip_explicit 61%N d s q k eq_refl Hd E) as Hs.
  etransitivity; [exact E|]. rewrite app_assoc. f_equal. symmetry. exact Hs.
Qed.

Lemma lookup_map {A B : Type} (f : A -> B) (l : list A) (i : nat) (x : A) :
  l !! i = Some x -> List.map f l !! i = Some (f x).
Proof.
  revert i. induction l as [|y l IH]; intros [|i] H; try discriminate; simpl in *.
  - now inversion H.
  - now apply IH.
Qed.

Lemma full_content_chunks (parse : str -> list node) (book : list item)
    (chs : list chapter) :
  full_content parse book chs = concat (List.map chunk (book_sections parse book chs)).
Proof.
  unfold full_content, book_sections.
  assert (H : forall acc,
             fold_left
               (fun full_content ch =>
                  (full_content ++ lit "=== " ++ ch_title ch ++ lit " ===" ++ blank_line)
                    ++ html_to_markdown (parse (chapter_source book ch)) ++ blank_line)
               chs acc
             = acc ++ concat (List.map chunk
                 (List.map (fun ch => (ch_title ch,
                    html_to_markdown (parse (chapter_source book ch)))) chs))).
  { induction chs as [|ch chs IH]; intros acc; cbn [fold_left List.map concat].
    - now rewrite app_nil_r.
    - rewrite IH. unfold chunk at 2. unfold delimiter_line. cbn [fst snd].
      rewrite <- !app_assoc. reflexivity. }
  apply (H []).
Qed.

(** The sections of the buffer [_load_full_book] leaves in the widget are
    those of the joined text, up to white space around each. *)
Lemma loaded_sections (parse : str -> list node) (e : editor) :
  chapters e <> [] ->
  length (chapter_sections (load_full_book parse e))
  = length (Re.split re_delimiter
              (concat (List.map chunk
                 (book_sections parse (current_book e) (chapters e)))))
  /\ forall i, strip (nth i (chapter_sections (load_full_book parse e)) [])
               = strip (nth i (Re.split re_delimiter
                          (concat (List.map chunk
                             (book_sections parse (current_book e) (chapters e))))) []).
Proof.
  intros Hne.
  assert (Hs : chapter_sections (load_full_book parse e)
               = Re.split re_delimiter
                   (strip (concat (List.map chunk
                      (book_sections parse (current_book e) (chapters e)))))).
  { unfold chapter_sections, load_full_book, editor_get.
    rewrite <- full_content_chunks.
    destruct (chapters e) as [|ch chs]; [congruence|]. cbn [editor_text].
    rewrite strip_app_spaces by repeat constructor. now rewrite strip_idem. }
  rewrite Hs.
  destruct (joined_strip (book_sections parse (current_book e) (chapters e)))
    as [k Hk].
  - unfold book_sections. destruct (chapters e); [congruence | discriminate].
  - unfold book_sections. apply List.Forall_map, List.Forall_forall.
    intros ch _. apply strip_trimmed.
  - destruct (split_trailing_newlines
                (strip (concat (List.map chunk
                   (book_sections parse (current_book e) (chapters e))))) k)
      as [H1 H2].
    rewrite <- Hk in H1, H2. split; [now rewrite H1|]. intros i. now rewrite H2.
Qed.

(** C2, as stated, fails: a chapter whose title runs over two lines, the
    first of them ending in [ ===], is joined into a buffer with one
    delimiter line for its one chapter, but the section after that
    delimiter starts with the rest of the title. *)
Lemma join_then_split_counterexample :
  chapters loaded_two_lines = [chapter_two_lines]
  /\ editor_text (load_full_book (parse_known [soup_two_lines]) loaded_two_lines)
     = lit "=== A ===" ++ nl :: lit "B ===" ++ nl :: nl :: lit "x"
  /\ length (chapter_sections (load_full_book (parse_known [soup_two_lines])
                                 loaded_two_lines))
     = 2 * length (chapters loaded_two_lines) + 1
  /\ html_to_markdown
       (parse_known [soup_two_lines]
          (chapter_source (current_book loaded_two_lines) chapter_two_lines))
     = lit "x"
  /\ strip (nth 2 (chapter_sections (load_full_book (parse_known [soup_two_lines])
                                       loaded_two_lines)) [])
     = lit "B ===" ++ nl :: nl :: lit "x"
  /\ strip (nth 2 (chapter_sections (load_full_book (parse_known [soup_two_lines])
                                       loaded_two_lines)) [])
     <> html_to_markdown
          (parse_known [soup_two_lines]
             (chapter_source (current_book loaded_two_lines) chapter_two_lines)).
Proof. vm_compute. repeat split; try reflexivity. discriminate. Qed.

(** C2, amended. When every chapter title is non-empty and on one line,
    and the joined buffer has exactly one delimiter per chapter, the split
    of the buffer [_load_full_book] builds gives back, for every chapter,
    the markup of that chapter once trimmed. *)
Theorem join_then_split (parse : str -> list node) (e : editor) (i : nat)
    (ch : chapter) :
  Forall (fun c => delimiter_ready (ch_title c)) (chapters e) ->
  length (chapter_sections (load_full_book parse e)) = 2 * length (chapters e) + 1 ->
  chapters e !! i = Some ch ->
  strip (nth (2 * i + 2) (chapter_sections (load_full_book parse e)) [])
  = html_to_markdown (parse (chapter_source (current_book e) ch)).
Proof.
  intros Hready Hlen Hch.
  assert (Hne : chapters e <> []) by (intros E; rewrite E in Hch; discriminate).
  destruct (loaded_sections parse e Hne) as [H1 H2].
  set (secs := book_sections parse (current_book e) (chapters e)) in *.
  assert (Hr : Forall (fun sec => delimiter_ready (fst sec)) secs).
  { unfold secs, book_sections. apply List.Forall_map. exact Hready. }
  assert (Hn : length secs = length (chapters e))
    by (unfold secs, book_sections; apply length_map).
  rewrite split_lines, (lines_chunks _ Hr) in H1, H2.
  destruct (count_chunks secs Hr) as [_ Hfree].
  rewrite sections_length, count_delimiters_app in H1.
  change (count_delimiters [[]]) with 0 in H1.
  rewrite (sections_chunks secs [] Hr) in H2 by (apply Hfree; lia).
  rewrite H2.
  rewrite (joined_sections_nth secs [] i
             (ch_title ch, html_to_markdown (parse (chapter_source (current_book e) ch)))).
  - cbn [snd]. apply strip_pad; try (repeat constructor). apply strip_trimmed.
  - unfold secs, book_sections.
    apply (lookup_map (fun c => (ch_title c,
             html_to_markdown (parse (chapter_source (current_book e) c))))).
    exact Hch.
Qed.

(** C2 on [loaded_ab], for its second chapter. *)
Lemma join_then_split_witness :
  strip (nth 4 (chapter_sections (load_full_book sample_parse loaded_ab)) [])
  = html_to_markdown (sample_parse (chapter_source (current_book loaded_ab) chapter_b)).
Proof.
  apply (join_then_split sample_parse loaded_ab 1 chapter_b).
  - repeat constructor; discriminate.
  - reflexivity.
  - reflexivity.
Defined.

(** * The claims about the conversion to HTML *)

Lemma paragraph_step_block (acc : list str) (p : str) :
  paragraph_step acc p = acc ++ block_html p.
Proof.
  unfold paragraph_step, block_html.
  destruct (nonempty (strip p)); [|now rewrite app_nil_r].
  destruct (startswith (strip p) (lit "<h")); reflexivity.
Qed.

Lemma paragraph_loop (ps : list str) (acc : list str) :
  fold_left paragraph_step ps acc = acc ++ concat (List.map block_html ps).
Proof.
  revert acc. induction ps as [|p ps IH]; intros acc; simpl.
  - now rewrite app_nil_r.
  - now rewrite IH, paragraph_step_block, <- app_assoc.
Qed.

Lemma wrap_paragraphs_blocks (text : str) :
  wrap_paragraphs text = concat (List.map block_html (Py.split blank_line text)).
Proof. unfold wrap_paragraphs. now rewrite paragraph_loop. Qed.

(** Where a pattern matches nowhere, the substitution changes nothing. *)
Lemma sub_no_match (r : regex) (pre post s : str) :
  (forall a x b, s = a ++ x :: b -> match_at r (after None a) (x :: b) = None) ->
  Re.sub r pre post s = s.
Proof.
  intros H. unfold Re.sub. rewrite <- (app_nil_r s) at 1.
  rewrite sub_scan_copy; [simpl; apply app_nil_r|].
  intros a x b E. rewrite app_nil_r. now apply H.
Qed.

Lemma sub_absent (r : regex) (pre post s : str) (c : char) :
  first_lit r = Some c -> ~ In c s -> Re.sub r pre post s = s.
Proof. intros Hr Hs. now apply sub_scan_absent with (c := c). Qed.

Lemma convert_headings_plain (text : str) :
  ~ In 35%N text -> convert_headings text = text.
Proof.
  intros H. unfold convert_headings.
  now rewrite !(sub_absent _ _ _ text 35%N) by (auto; reflexivity).
Qed.

Lemma spaces_without (c : char) (s : str) :
  isspace c = false -> Forall (fun x => isspace x = true) s -> ~ In c s.
Proof.
  intros Hc Hs Hin. rewrite List.Forall_forall in Hs. specialize (Hs c Hin). congruence.
Qed.

Lemma split_scan_spaces (sep : str) (skip : nat) (cur s : str) :
  Forall (fun x => isspace x = true) cur -> Forall (fun x => isspace x = true) s ->
  Forall (Forall (fun x => isspace x = true)) (Py.split_scan sep skip cur s).
Proof.
  intros Hcur Hs. revert skip cur Hcur.
  induction Hs as [|c s Hc Hs IH]; intros skip cur Hcur; cbn [Py.split_scan].
  - repeat constructor. exact Hcur.
  - destruct skip as [|n]; [|now apply IH].
    destruct (startswith (c :: s) sep).
    + constructor; [exact Hcur|]. apply IH. constructor.
    + apply IH. apply List.Forall_app. split; [exact Hcur | repeat constructor; exact Hc].
Qed.

Lemma block_html_spaces (p : str) :
  Forall (fun x => isspace x = true) p -> block_html p = [].
Proof. intros H. unfold block_html. now rewrite strip_spaces. Qed.

(** ** C5: bold before italic *)

(** C5, as stated, fails: the conversion of [**bold** and *italic*] is not
    the bare inline markup, the paragraph step wraps it. *)
Lemma bold_italic_counterexample :
  markdown_to_html (lit "**bold** and *italic*")
  <> lit "<strong>bold</strong> and <em>italic</em>".
Proof. vm_compute. discriminate. Qed.

(** C5, amended. On [**bold** and *italic*] the bold substitution, which
    runs first, takes both [**] markers and leaves the single ones; the
    three formatting substitutions give
    [<strong>bold</strong> and <em>italic</em>], and the whole conversion
    gives that text inside one [<p>] pair. With the italic substitution
    first the result would differ. *)
Theorem bold_before_italic :
  Re.sub re_bold (lit "<strong>") (lit "</strong>") (lit "**bold** and *italic*")
  = lit "<strong>bold</strong> and *italic*"
  /\ convert_formatting (lit "**bold** and *italic*")
     = lit "<strong>bold</strong> and <em>italic</em>"
  /\ markdown_to_html (lit "**bold** and *italic*")
     = lit "<p><strong>bold</strong> and <em>italic</em></p>"
  /\ Re.sub re_bold (lit "<strong>") (lit "</strong>")
       (Re.sub re_italic (lit "<em>") (lit "</em>") (lit "**bold** and *italic*"))
     = lit "<em>*bold</em><em> and </em>italic*".
Proof. vm_compute. repeat split; reflexivity. Qed.

(** ** C10: no empty paragraph *)

Lemma in_blocks (b : str) (ps : list str) :
  In b (concat (List.map block_html ps)) ->
  exists p, p <> [] /\ trimmed p
            /\ (b = lit "<p>" ++ p ++ lit "</p>" /\ startswith p (lit "<h") = false
                \/ b = p /\ startswith p (lit "<h") = true).
Proof.
  intros H. apply in_concat in H as [bs [Hbs Hb]].
  apply in_map_iff in Hbs as [p [<- _]]. unfold block_html in Hb.
  exists (strip p). destruct (strip p) as [|c s] eqn:E; [destruct Hb|].
  split; [discriminate|]. split; [rewrite <- E; apply strip_trimmed|].
  cbn [nonempty] in Hb.
  destruct (startswith (c :: s) (lit "<h")); destruct Hb as [<- | []]; auto.
Qed.

(** C10. Every block the conversion emits is a non-empty trimmed text,
    wrapped in one [<p>] pair or, when it starts with [<h], as it is; so no
    emitted block is [<p></p>] or empty, and a text of white space only
    converts to the empty string. *)
Theorem no_empty_paragraph (text : str) :
  (forall b, In b (html_paragraphs text) ->
     exists p, p <> [] /\ trimmed p
               /\ (b = lit "<p>" ++ p ++ lit "</p>" /\ startswith p (lit "<h") = false
                   \/ b = p /\ startswith p (lit "<h") = true))
  /\ ~ In (lit "<p></p>") (html_paragraphs text)
  /\ ~ In [] (html_paragraphs text)
  /\ (Forall (fun c => isspace c = true) text -> markdown_to_html text = []).
Proof.
  assert (H1 : forall b, In b (html_paragraphs text) ->
             exists p, p <> [] /\ trimmed p
               /\ (b = lit "<p>" ++ p ++ lit "</p>" /\ startswith p (lit "<h") = false
                   \/ b = p /\ startswith p (lit "<h") = true)).
  { intros b Hb. unfold html_paragraphs in Hb. rewrite wrap_paragraphs_blocks in Hb.
    now apply in_blocks in Hb. }
  split; [exact H1|]. split; [|split].
  - intros Hin. destruct (H1 _ Hin) as [p [Hp [_ [[E _] | [E Hh]]]]].
    + apply (app_inv_head (lit "<p>") ([] ++ lit "</p>")) in E.
      apply app_inv_tail in E. congruence.
    + rewrite <- E in Hh. discriminate.
  - intros Hin. destruct (H1 _ Hin) as [p [Hp [_ [[E _] | [E _]]]]];
      [discriminate | congruence].
  - intros Hs. unfold markdown_to_html, html_paragraphs.
    rewrite convert_headings_plain by (apply spaces_without; auto).
    unfold convert_formatting.
    rewrite (sub_absent re_bold _ _ text 42%N) by (auto using spaces_without).
    rewrite (sub_absent re_italic _ _ text 42%N) by (auto using spaces_without).
    rewrite (sub_absent re_underline _ _ text 95%N) by (auto using spaces_without).
    rewrite wrap_paragraphs_blocks.
    assert (Hp : Forall (Forall (fun x => isspace x = true)) (Py.split blank_line text))
      by (apply split_scan_spaces; auto).
    induction Hp as [|p ps Hp _ IH]; [reflexivity|].
    cbn [List.map concat]. rewrite block_html_spaces by assumption. exact IH.
Qed.

(** ** C6: paragraph wrapping *)

(** C6, as stated, fails: the block [<hr>] does not start with a heading
    tag and yet is emitted unwrapped. *)
Lemma paragraph_wrapping_counterexample :
  spec_heading_tag (lit "<hr>") = false
  /\ markdown_to_html (lit "<hr>") = lit "<hr>"
  /\ markdown_to_html (lit "<hr>")
     <> spec_paragraphs (convert_formatting (convert_headings (lit "<hr>"))).
Proof.
  split; [reflexivity|]. split; [reflexivity|]. vm_compute. discriminate.
Qed.

Lemma spec_heading_tag_prefix (p : str) :
  spec_heading_tag p = true -> startswith p (lit "<h") = true.
Proof.
  unfold spec_heading_tag. intros H. apply existsb_exists in H as [n [_ H]].
  change (lit "<h" ++ str_of_nat n) with (60%N :: 104%N :: str_of_nat n) in H.
  change (lit "<h") with [60%N; 104%N].
  destruct p as [|a [|b p]]; cbn [startswith] in H |- *; try discriminate.
  - now rewrite andb_false_r in H.
  - apply andb_true_iff in H as [H1 H]. apply andb_true_iff in H as [H2 _].
    rewrite H1, H2. destruct p; reflexivity.
Qed.

(** C6, amended. The conversion splits the text left by the substitutions
    at each pair of newlines, trims each block, drops the empty ones, emits
    a block that starts with the two characters [<h] as it is and any
    other block inside one [<p>] pair, and joins the results with
    newlines. A block that starts with a heading tag starts with [<h], so
    the conversion agrees with the wording "starts with a heading tag"
    exactly when no block starts with [<h] followed by something else. *)
Theorem paragraph_wrapping (text : str) :
  markdown_to_html text
  = join [nl]
      (concat (List.map block_html
         (Py.split blank_line (convert_formatting (convert_headings text)))))
  /\ (forall p,
        block_html p
        = if nonempty (strip p)
          then [if startswith (strip p) (lit "<h") then strip p
                else lit "<p>" ++ strip p ++ lit "</p>"]
          else [])
  /\ (forall p, spec_heading_tag p = true -> startswith p (lit "<h") = true)
  /\ ((forall p, In p (Py.split blank_line (convert_formatting (convert_headings text))) ->
         startswith (strip p) (lit "<h") = spec_heading_tag (strip p)) ->
      markdown_to_html text
      = spec_paragraphs (convert_formatting (convert_headings text))).
Proof.
  assert (H : markdown_to_html text
              = join [nl]
                  (concat (List.map block_html
                     (Py.split blank_line (convert_formatting (convert_headings text)))))).
  { unfold markdown_to_html, html_paragraphs. now rewrite wrap_paragraphs_blocks. }
  split; [exact H|]. split; [reflexivity|]. split; [apply spec_heading_tag_prefix|].
  intros Hagree. rewrite H. unfold spec_paragraphs. do 2 f_equal.
  apply map_ext_in. intros p Hp. unfold block_html, spec_block.
  now rewrite (Hagree p Hp).
Qed.

(** ** A text with one pair of asterisks *)

Lemma match_bold_inv (prev : option char) (s g rest : str) :
  match_at re_bold prev s = Some (g, rest) ->
  s = lit "**" ++ g ++ lit "**" ++ rest /\ g <> [].
Proof.
  intros H. apply run_sound in H as [m [-> D]]. cbn in D.
  destruct D as [m1 [-> [m2 [-> [u [m3 [-> [Hu [_ D]]]]]]]]].
  destruct D as [m4 [-> [m5 [-> [-> ->]]]]].
  split; [|exact Hu]. cbn. now rewrite <- !app_assoc.
Qed.

Lemma match_italic_inv (prev : option char) (s g rest : str) :
  match_at re_italic prev s = Some (g, rest) ->
  s = lit "*" ++ g ++ lit "*" ++ rest /\ g <> [].
Proof.
  intros H. apply run_sound in H as [m [-> D]]. cbn in D.
  destruct D as [m1 [-> [u [m3 [-> [Hu [_ D]]]]]]].
  destruct D as [m4 [-> [-> ->]]].
  split; [|exact Hu]. cbn. now rewrite <- !app_assoc.
Qed.

(** Where an asterisk stands in a text whose only asterisks are one
    pair. *)
Lemma lone_pair_suffix (a b a1 a2 : str) :
  ~ In 42%N a -> ~ In 42%N b ->
  a ++ 42%N :: 42%N :: b = a1 ++ 42%N :: a2 ->
  a2 = 42%N :: b \/ a2 = b.
Proof.
  revert a1. induction a as [|c a IH]; intros a1 Ha Hb E.
  - destruct a1 as [|x a1]; simpl in E.
    + left. congruence.
    + injection E as Ex E'. destruct a1 as [|y a1]; simpl in E'.
      * right. congruence.
      * exfalso. apply Hb. injection E' as Ey E''. rewrite E''.
        apply in_or_app. right. left. reflexivity.
  - destruct a1 as [|x a1]; simpl in E.
    + exfalso. apply Ha. left. congruence.
    + injection E as Ex E'. apply (IH a1); auto.
      intros Hin. apply Ha. right. exact Hin.
Qed.

Lemma lone_pair_unmatched (a b : str) :
  ~ In 42%N a -> ~ In 42%N b ->
  forall a1 x a2, a ++ lit "**" ++ b = a1 ++ x :: a2 ->
    match_at re_bold (after None a1) (x :: a2) = None
    /\ match_at re_italic (after None a1) (x :: a2) = None.
Proof.
  intros Ha Hb a1 x a2 E.
  destruct (N.eq_dec x 42%N) as [->|Hx].
  - change (lit "**" ++ b) with (42%N :: 42%N :: b) in E.
    assert (Hin : forall g rest, g ++ 42%N :: rest = b -> False).
    { intros g rest Eb. apply Hb. rewrite <- Eb. apply in_or_app. right. now left. }
    destruct (lone_pair_suffix a b a1 a2 Ha Hb E) as [E2 | E2]; subst a2; split.
    + destruct (match_at re_bold (after None a1) (42%N :: 42%N :: b)) as [[g rest]|] eqn:H;
        [exfalso | first [reflexivity | exact H]].
      apply match_bold_inv in H as [Es Hg]. cbn in Es. injection Es as Eb.
      apply (Hin g (42%N :: rest)). now rewrite Eb.
    + destruct (match_at re_italic (after None a1) (42%N :: 42%N :: b)) as [[g rest]|] eqn:H;
        [exfalso | first [reflexivity | exact H]].
      apply match_italic_inv in H as [Es Hg]. cbn in Es. injection Es as Eb.
      destruct g as [|c [|c' g]]; [congruence | |].
      * simpl in Eb. injection Eb as Ec Eb. apply Hb. rewrite Eb. now left.
      * simpl in Eb. injection Eb as Ec Eb. apply (Hin (c' :: g) rest). now rewrite Eb.
    + destruct (match_at re_bold (after None a1) (42%N :: b)) as [[g rest]|] eqn:H;
        [exfalso | first [reflexivity | exact H]].
      apply match_bold_inv in H as [Es Hg]. cbn in Es. injection Es as Eb.
      apply Hb. rewrite Eb. now left.
    + destruct (match_at re_italic (after None a1) (42%N :: b)) as [[g rest]|] eqn:H;
        [exfalso | first [reflexivity | exact H]].
      apply match_italic_inv in H as [Es Hg]. cbn in Es. injection Es as Eb.
      apply (Hin g rest). now rewrite Eb.
  - split; apply run_first_lit with (c := 42%N); auto.
Qed.

(** * The round trip through the markup *)

(** ** The heading patterns on one line *)

Lemma repeat_str_hash (n : nat) : repeat_str (lit "#") n = repeat 35%N n.
Proof. induction n as [|n IH]; [reflexivity|]. unfold repeat_str in *. simpl. now rewrite IH. Qed.

Lemma re_heading_tail (k : nat) :
  re_heading k = Bol :: List.map Lit (repeat 35%N k) ++ heading_tail.
Proof. unfold re_heading. now rewrite repeat_str_hash. Qed.

Lemma run_lits (w : str) (r : regex) (g : str) (prev : option char) (s : str) :
  run (List.map Lit w ++ r) g prev (w ++ s) = run r g (after prev w) s.
Proof.
  revert prev. induction w as [|c w IH]; intros prev; [reflexivity|].
  cbn [List.map app run]. rewrite N.eqb_refl. apply IH.
Qed.

Lemma derives_heading_tail (g0 : str) (prev : option char) (m rest g : str) :
  derives heading_tail g0 prev m rest g <->
  exists u, m = u ++ g /\ u <> [] /\ forallb isspace u = true
            /\ g <> [] /\ one_line g /\ at_eol rest = true.
Proof.
  unfold heading_tail, one_line. cbn [derives]. split.
  - intros [u [m' [-> [Hu [Hall [v [m'' [-> [Hv [Hdot [He [-> ->]]]]]]]]]]]].
    exists u. rewrite app_nil_r. simpl in He. auto 10.
  - intros [u [-> [Hu [Hall [Hg [Hdot He]]]]]].
    exists u, g. split; [reflexivity|]. split; [exact Hu|]. split; [exact Hall|].
    exists g, []. rewrite app_nil_r. auto 10.
Qed.

Lemma heading_tail_match (g0 : str) (prev : option char) (c : char) (s rest : str) :
  isspace c = false -> one_line (c :: s) -> at_eol rest = true ->
  run heading_tail g0 prev (32%N :: (c :: s) ++ rest) = Some (c :: s, rest).
Proof.
  intros Hc Hl He.
  change (32%N :: (c :: s) ++ rest) with ((32%N :: c :: s) ++ rest).
  apply run_unique.
  - apply derives_heading_tail. exists [32%N]. repeat split; auto; discriminate.
  - intros m' rest' g' E D.
    apply derives_heading_tail in D as [u [-> [Hu [Hall [Hg [Hl' He']]]]]].
    destruct u as [|x [|y u]]; [congruence| |].
    + simpl in E. injection E as _ E.
      destruct (first_line_unique _ _ _ _ Hl Hl' He He' E) as [-> ->]. auto.
    + exfalso. simpl in E. injection E as _ Ey _. subst y.
      simpl in Hall. rewrite Hc in Hall. rewrite andb_false_r in Hall.
      simpl in Hall. discriminate.
Qed.

Lemma heading_match (k : nat) (prev : option char) (c : char) (s rest : str) :
  at_bol prev = true -> isspace c = false -> one_line (c :: s) ->
  at_eol rest = true ->
  match_at (re_heading k) prev (repeat 35%N k ++ 32%N :: (c :: s) ++ rest)
  = Some (c :: s, rest).
Proof.
  intros Hb Hc Hl He. unfold match_at. rewrite re_heading_tail.
  cbn [run]. rewrite Hb, run_lits. now apply heading_tail_match.
Qed.

Lemma heading_no_match_more (k : nat) (prev : option char) (x : str) :
  match_at (re_heading k) prev (repeat 35%N k ++ 35%N :: x) = None.
Proof.
  unfold match_at. rewrite re_heading_tail. cbn [run].
  destruct (at_bol prev); [|reflexivity]. rewrite run_lits. reflexivity.
Qed.

Lemma heading_first_lit (k : nat) : first_lit (re_heading (S k)) = Some 35%N.
Proof. rewrite re_heading_tail. reflexivity. Qed.

Lemma heading_no_match_other (k : nat) (prev : option char) (c : char) (x : str) :
  c <> 35%N -> match_at (re_heading (S k)) prev (c :: x) = None.
Proof.
  intros Hc. apply run_first_lit with (c := 35%N); auto using heading_first_lit.
Qed.

(** ** A line-anchored substitution, line by line *)

Lemma sub_line (r : regex) (pre post line out rest : str) (prev : option char) :
  anchored r = true -> line_result r pre post line out ->
  at_bol prev = true -> at_eol rest = true ->
  sub_scan r pre post prev 0 (line ++ rest)
  = out ++ sub_scan r pre post (after prev line) 0 rest.
Proof.
  intros Ha [Hl [Hne [[-> Hnone] | [g [-> Hsome]]]]] Hb He.
  - apply sub_scan_copy. intros a1 x a2 E. destruct a1 as [|c a1].
    + simpl in E. change (x :: a2 ++ rest) with ((x :: a2) ++ rest).
      rewrite <- E. now apply Hnone.
    + apply run_anchored; [exact Ha|]. eapply inside_line; eauto; discriminate.
  - destruct line as [|c m]; [congruence|]. cbn [app].
    rewrite (sub_scan_match r pre post c m rest g prev) by (apply Hsome; auto).
    now rewrite <- !app_assoc.
Qed.

Lemma sub_blank_line (r : regex) (pre post rest : str) (prev : option char) :
  first_lit r = Some 35%N ->
  sub_scan r pre post prev 0 (blank_line ++ rest)
  = blank_line ++ sub_scan r pre post (Some nl) 0 rest.
Proof.
  intros Hf. apply (sub_scan_copy r pre post blank_line rest prev).
  intros a1 x a2 E. apply run_first_lit with (c := 35%N); [exact Hf|].
  intros ->. destruct a1 as [|y [|z [|? ?]]]; discriminate.
Qed.

Lemma sub_lines (r : regex) (pre post : str) (ls outs : list str)
    (prev : option char) :
  anchored r = true -> first_lit r = Some 35%N ->
  Forall2 (line_result r pre post) ls outs -> at_bol prev = true ->
  sub_scan r pre post prev 0 (join blank_line ls) = join blank_line outs.
Proof.
  intros Ha Hf H. revert prev.
  induction H as [|l o ls outs Hlo H IH]; intros prev Hb; [reflexivity|].
  destruct H as [|l2 o2 ls outs Hlo2 H].
  - cbn [join]. rewrite <- (app_nil_r l) at 1.
    rewrite (sub_line r pre post l o [] prev) by auto. simpl. apply app_nil_r.
  - cbn [join] in *.
    rewrite (sub_line r pre post l o _ prev) by auto.
    rewrite sub_blank_line by assumption. now rewrite IH.
Qed.

(** ** Flat documents *)

Ltac level_cases H :=
  match type of H with
  | 1 <= ?n <= 6 =>
      let E := fresh "E" in
      assert (E : n = 1 \/ n = 2 \/ n = 3 \/ n = 4 \/ n = 5 \/ n = 6) by lia;
      destruct E as [E | [E | [E | [E | [E | E]]]]]; subst n
  end.

Lemma find_all_flat (doc : list block) :
  Forall plain_block doc ->
  find_all markup_names (List.map block_node doc) = List.map block_node doc.
Proof.
  unfold find_all. induction 1 as [|b doc Hb _ IH]; [reflexivity|].
  cbn [List.map concat]. rewrite List.filter_app, IH. f_equal.
  destruct b as [n t|t]; [|reflexivity].
  destruct Hb as [Hn _]. level_cases Hn; reflexivity.
Qed.

Lemma element_markup_block (b : block) :
  plain_block b ->
  element_markup (block_node b)
  = concat (List.map (fun l => l ++ blank_line) (stage 0 b)).
Proof.
  destruct b as [n t|t]; intros Hb.
  - destruct Hb as [Hn _]. cbn [stage List.map concat]. rewrite app_nil_r.
    unfold heading_markup. level_cases Hn; cbn [Nat.leb];
      unfold element_markup; cbn [block_node tag_name get_text List.map concat];
      rewrite app_nil_r; rewrite <- !app_assoc; reflexivity.
  - unfold element_markup. cbn [block_node tag_name get_text List.map concat stage].
    rewrite app_nil_r.
    change (name_in (lit "p") heading_names) with false.
    change (str_eqb (lit "p") (lit "p")) with true. cbn iota.
    destruct (nonempty (strip t)); [|reflexivity].
    cbn [List.map concat]. now rewrite app_nil_r.
Qed.

Lemma fold_markup (nodes : list node) (acc : str) :
  fold_left (fun content element => content ++ element_markup element) nodes acc
  = acc ++ concat (List.map element_markup nodes).
Proof.
  revert acc. induction nodes as [|n nodes IH]; intros acc; simpl.
  - now rewrite app_nil_r.
  - now rewrite IH, <- app_assoc.
Qed.

Lemma trimmed_ends (c d : char) (w : str) :
  isspace c = false -> isspace d = false -> trimmed (c :: w ++ [d]).
Proof. intros Hc Hd. split; [exact Hc|]. exists (c :: w), d. auto. Qed.

Lemma trimmed_last (s : str) :
  trimmed s -> s <> [] -> exists u d, s = u ++ [d] /\ isspace d = false.
Proof. destruct s as [|c s]; [congruence|]. intros [_ H] _. exact H. Qed.

Lemma trimmed_prefix (c : char) (w s : str) :
  isspace c = false -> trimmed s -> s <> [] -> trimmed (c :: w ++ s).
Proof.
  intros Hc Hs Hne. destruct (trimmed_last s Hs Hne) as [u [d [-> Hd]]].
  rewrite app_assoc. now apply trimmed_ends.
Qed.

Lemma join_terminated (sep : str) (ls : list str) :
  ls <> [] -> concat (List.map (fun l => l ++ sep) ls) = join sep ls ++ sep.
Proof.
  induction ls as [|l [|l2 ls] IH]; intros Hne; [congruence| |].
  - simpl. now rewrite app_nil_r.
  - cbn [List.map concat join] in *. rewrite IH by discriminate.
    now rewrite <- !app_assoc.
Qed.

Lemma trimmed_join (ls : list str) :
  Forall (fun l => l <> [] /\ trimmed l) ls -> ls <> [] ->
  trimmed (join blank_line ls) /\ join blank_line ls <> [].
Proof.
  induction 1 as [|l ls [Hne Ht] Hls IH]; intros Hne0;
    [exfalso; apply Hne0; reflexivity|].
  destruct ls as [|l2 ls]; [simpl; auto|].
  destruct IH as [IH1 IH2]; [discriminate|]. cbn [join] in *.
  destruct l as [|c w]; [congruence|]. split; [|discriminate].
  cbn [app]. rewrite app_assoc. apply trimmed_prefix; auto. apply Ht.
Qed.

Lemma strip_terminated (ls : list str) :
  Forall (fun l => l <> [] /\ trimmed l) ls ->
  strip (concat (List.map (fun l => l ++ blank_line) ls)) = join blank_line ls.
Proof.
  intros H. destruct ls as [|l ls]; [reflexivity|].
  rewrite join_terminated by discriminate.
  rewrite strip_app_spaces by repeat constructor.
  apply trimmed_strip. now apply trimmed_join.
Qed.

Lemma trimmed_heading_markup (n : nat) (s : str) :
  trimmed s -> s <> [] -> trimmed (heading_markup (S n) s).
Proof.
  intros Hs Hne. unfold heading_markup. rewrite repeat_str_hash. cbn [repeat app].
  rewrite app_assoc. now apply trimmed_prefix.
Qed.

Lemma stage_lines (doc : list block) (k : nat) :
  Forall plain_block doc ->
  Forall (fun l => l <> [] /\ trimmed l) (concat (List.map (stage k) doc)).
Proof.
  induction 1 as [|b doc Hb _ IH]; [constructor|].
  cbn [List.map concat]. apply List.Forall_app. split; [|exact IH].
  destruct b as [n t|t]; cbn [stage].
  - destruct Hb as [Hn [Hne _]]. constructor; [|constructor].
    destruct (n <=? k).
    + split; [destruct n; discriminate|].
      unfold heading_html, open_tag, close_tag. cbn [app].
      rewrite !app_assoc. now apply trimmed_ends.
    + destruct n as [|n]; [lia|]. split.
      * unfold heading_markup. rewrite repeat_str_hash. discriminate.
      * apply trimmed_heading_markup; auto using strip_trimmed.
  - destruct (strip t) as [|c s] eqn:E; [constructor|]. cbn [nonempty].
    constructor; [|constructor]. split; [discriminate|].
    rewrite <- E. apply strip_trimmed.
Qed.

(** The markup of a flat document: its lines, a blank line between
    them. *)
Lemma html_to_markdown_flat (doc : list block) :
  Forall plain_block doc ->
  html_to_markdown (List.map block_node doc)
  = join blank_line (concat (List.map (stage 0) doc)).
Proof.
  intros H. unfold html_to_markdown. rewrite find_all_flat by assumption.
  rewrite fold_markup. cbn [app].
  rewrite <- (strip_terminated _ (stage_lines doc 0 H)). f_equal.
  induction H as [|b doc Hb _ IH]; [reflexivity|].
  cbn [List.map concat]. rewrite IH, element_markup_block by assumption.
  now rewrite map_app, concat_app.
Qed.

Lemma one_line_repeat_hash (n : nat) : one_line (repeat 35%N n).
Proof. induction n as [|n IH]; [reflexivity|]. apply one_line_cons. auto. Qed.

Lemma one_line_heading_markup (n : nat) (s : str) :
  one_line s -> one_line (heading_markup n s).
Proof.
  intros H. unfold heading_markup. rewrite repeat_str_hash, !one_line_app.
  repeat split; auto using one_line_repeat_hash.
Qed.

Lemma one_line_heading_html (n : nat) (s : str) :
  1 <= n <= 6 -> one_line s -> one_line (heading_html n s).
Proof.
  intros Hn H. unfold heading_html. rewrite !one_line_app.
  level_cases Hn; repeat split; auto.
Qed.

Lemma stage_one_line (doc : list block) (k : nat) :
  Forall plain_block doc -> Forall one_line (concat (List.map (stage k) doc)).
Proof.
  induction 1 as [|b doc Hb _ IH]; [constructor|].
  cbn [List.map concat]. apply List.Forall_app. split; [|exact IH].
  destruct b as [n t|t]; cbn [stage].
  - destruct Hb as [Hn [_ [[Hl _] _]]]. constructor; [|constructor].
    destruct (n <=? k); auto using one_line_heading_html, one_line_heading_markup.
  - destruct Hb as [[Hl _] _]. destruct (nonempty (strip t)); repeat constructor; auto.
Qed.

(** The rule for level [k + 1] turns the lines of stage [k] into those of
    stage [k + 1]. *)
Lemma heading_rule_stage (k : nat) (doc : list block) :
  Forall plain_block doc ->
  Forall2 (line_result (re_heading (S k))
             (open_tag (heading_name (S k))) (close_tag (heading_name (S k))))
    (concat (List.map (stage k) doc)) (concat (List.map (stage (S k)) doc)).
Proof.
  induction 1 as [|b doc Hb _ IH]; [constructor|].
  cbn [List.map concat]. apply List.Forall2_app; [|exact IH].
  destruct b as [n t|t]; cbn [stage].
  - destruct Hb as [Hn [Hne [[Hl _] _]]]. constructor; [|constructor].
    pose proof (strip_trimmed t) as Ht.
    destruct (strip t) as [|c s] eqn:Es; [congruence|]. destruct Ht as [Hc _].
    destruct (Nat.leb_spec n k) as [Hle | Hgt].
    + (* converted by an earlier rule *)
      destruct (Nat.leb_spec n (S k)) as [_ | Hx]; [|lia].
      split; [now apply one_line_heading_html|]. split; [discriminate|].
      left. split; [reflexivity|]. intros prev rest _ _.
      apply heading_no_match_other. discriminate.
    + destruct (Nat.leb_spec n (S k)) as [Hle | Hgt'].
      * (* the level of this rule *)
        assert (n = S k) by lia. subst n.
        split; [now apply one_line_heading_markup|].
        split; [unfold heading_markup; rewrite repeat_str_hash; discriminate|].
        right. exists (c :: s). split; [reflexivity|]. intros prev rest Hb He.
        unfold heading_markup. rewrite repeat_str_hash, <- !app_assoc.
        now apply (heading_match (S k) prev c s rest).
      * (* a deeper level *)
        split; [now apply one_line_heading_markup|].
        split; [unfold heading_markup; rewrite repeat_str_hash;
                destruct n; [lia | discriminate]|].
        left. split; [reflexivity|]. intros prev rest _ _.
        unfold heading_markup. rewrite repeat_str_hash.
        replace n with (S k + S (n - S k - 1)) by lia.
        rewrite repeat_app, <- !app_assoc. apply heading_no_match_more.
  - destruct Hb as [[Hl _] [Hh _]].
    destruct (strip t) as [|c s] eqn:Es; [constructor|]. cbn [nonempty].
    constructor; [|constructor]. split; [exact Hl|]. split; [discriminate|].
    left. split; [reflexivity|]. intros prev rest _ _.
    apply heading_no_match_other. intros ->.
    change (lit "#") with [35%N] in Hh. cbn [startswith] in Hh.
    rewrite N.eqb_refl, startswith_nil in Hh. discriminate.
Qed.

Lemma convert_headings_flat (doc : list block) :
  Forall plain_block doc ->
  convert_headings (join blank_line (concat (List.map (stage 0) doc)))
  = join blank_line (concat (List.map (stage 3) doc)).
Proof.
  intros H. unfold convert_headings, Re.sub.
  rewrite (sub_lines (re_heading 1) (lit "<h1>") (lit "</h1>") _ _ None eq_refl eq_refl
             (heading_rule_stage 0 doc H) eq_refl).
  rewrite (sub_lines (re_heading 2) (lit "<h2>") (lit "</h2>") _ _ None eq_refl eq_refl
             (heading_rule_stage 1 doc H) eq_refl).
  apply (sub_lines (re_heading 3) (lit "<h3>") (lit "</h3>") _ _ None eq_refl eq_refl
           (heading_rule_stage 2 doc H) eq_refl).
Qed.

Lemma in_join (c : char) (sep : str) (ls : list str) :
  In c (join sep ls) -> In c sep \/ exists l, In l ls /\ In c l.
Proof.
  induction ls as [|l [|l2 ls] IH]; cbn [join]; intros H.
  - destruct H.
  - right. exists l. split; [now left | exact H].
  - apply in_app_or in H as [H | H]; [right; exists l; split; [now left | exact H]|].
    apply in_app_or in H as [H | H]; [now left|].
    destruct (IH H) as [H' | [l' [Hl' Hc]]]; [now left|].
    right. exists l'. split; [now right | exact Hc].
Qed.

Lemma stage_no_marker (doc : list block) (k : nat) (c : char) :
  c = 42%N \/ c = 95%N -> Forall plain_block doc ->
  ~ In c (join blank_line (concat (List.map (stage k) doc))).
Proof.
  intros Hc H Hin. apply in_join in Hin as [Hin | [l [Hl Hin]]].
  - destruct Hc as [-> | ->]; destruct Hin as [E | [E | []]]; discriminate.
  - apply in_concat in Hl as [ls [Hls Hl]]. apply in_map_iff in Hls as [b [<- Hb]].
    rewrite List.Forall_forall in H. specialize (H b Hb).
    destruct b as [n t|t]; cbn [stage] in Hl.
    + destruct H as [Hn [_ [[_ [H42 H95]] _]]]. destruct Hl as [<- | []].
      assert (Hs : ~ In c (strip t)) by (destruct Hc as [-> | ->]; assumption).
      destruct (n <=? k).
      * unfold heading_html in Hin.
        apply in_app_or in Hin as [Hin | Hin];
          [|apply in_app_or in Hin as [Hin | Hin]; [contradiction|]];
          level_cases Hn; cbn in Hin; destruct Hc as [-> | ->];
          repeat (destruct Hin as [Hin | Hin]; [discriminate|]); destruct Hin.
      * unfold heading_markup in Hin. rewrite repeat_str_hash in Hin.
        apply in_app_or in Hin as [Hin | Hin].
        -- apply repeat_spec in Hin. destruct Hc as [-> | ->]; discriminate.
        -- destruct Hin as [E | Hin]; [destruct Hc as [-> | ->]; discriminate|].
           contradiction.
    + destruct H as [[_ [H42 H95]] _].
      destruct (nonempty (strip t)); [|destruct Hl].
      destruct Hl as [<- | []]. destruct Hc as [-> | ->]; contradiction.
Qed.

Lemma convert_formatting_flat (doc : list block) :
  Forall plain_block doc ->
  convert_formatting (join blank_line (concat (List.map (stage 3) doc)))
  = join blank_line (concat (List.map (stage 3) doc)).
Proof.
  intros H. unfold convert_formatting.
  rewrite (sub_absent re_bold _ _ _ 42%N)
    by first [reflexivity | apply stage_no_marker; auto].
  rewrite (sub_absent re_italic _ _ _ 42%N)
    by first [reflexivity | apply stage_no_marker; auto].
  apply (sub_absent re_underline _ _ _ 95%N);
    first [reflexivity | apply stage_no_marker; auto].
Qed.

(** ** Splitting the lines again *)

Lemma py_split_line (l rest cur : str) :
  one_line l ->
  Py.split_scan blank_line 0 cur (l ++ rest)
  = Py.split_scan blank_line 0 (cur ++ l) rest.
Proof.
  revert cur. induction l as [|c l IH]; intros cur H.
  - simpl. now rewrite app_nil_r.
  - apply one_line_cons in H as [Hc Hl]. cbn [app Py.split_scan].
    unfold blank_line at 1. cbn [startswith]. fold (is_nl c). rewrite Hc. cbn [andb].
    rewrite IH by assumption. now rewrite <- app_assoc.
Qed.

Lemma py_split_blank (rest cur : str) :
  Py.split_scan blank_line 0 cur (blank_line ++ rest)
  = cur :: Py.split_scan blank_line 0 [] rest.
Proof.
  unfold blank_line. cbn [app Py.split_scan startswith length Nat.sub].
  rewrite !N.eqb_refl, startswith_nil. reflexivity.
Qed.

Lemma py_split_join (ls : list str) (cur : str) :
  Forall one_line ls -> ls <> [] ->
  Py.split_scan blank_line 0 cur (join blank_line ls)
  = match ls with l :: ls' => (cur ++ l) :: ls' | [] => [] end.
Proof.
  intros H. revert cur. induction H as [|l ls Hl Hls IH]; intros cur Hne;
    [exfalso; apply Hne; reflexivity|].
  destruct ls as [|l2 ls].
  - cbn [join]. rewrite <- (app_nil_r l) at 1. now rewrite py_split_line.
  - cbn [join]. rewrite py_split_line, py_split_blank by assumption.
    now rewrite IH by discriminate.
Qed.

Lemma blocks_of_join (ls : list str) :
  Forall one_line ls ->
  concat (List.map block_html (Py.split blank_line (join blank_line ls)))
  = concat (List.map block_html ls).
Proof.
  intros H. destruct ls as [|l ls]; [reflexivity|].
  unfold Py.split. now rewrite py_split_join by (auto; discriminate).
Qed.

Lemma block_html_trimmed (l : str) :
  l <> [] -> trimmed l ->
  block_html l = [if startswith l (lit "<h") then l else lit "<p>" ++ l ++ lit "</p>"].
Proof.
  intros Hne Ht. unfold block_html. rewrite trimmed_strip by assumption.
  destruct l; [congruence | reflexivity].
Qed.

Lemma escape_plain (s : str) : entity_free s -> escape s = s.
Proof.
  intros [H38 [H60 H62]]. induction s as [|c s IH]; [reflexivity|].
  unfold escape in *. cbn [List.map concat]. rewrite IH.
  - unfold escape_char.
    destruct (N.eqb_spec c 38%N) as [->|_]; [exfalso; apply H38; now left|].
    destruct (N.eqb_spec c 60%N) as [->|_]; [exfalso; apply H60; now left|].
    destruct (N.eqb_spec c 62%N) as [->|_]; [exfalso; apply H62; now left|].
    reflexivity.
  - intros H; apply H38; now right.
  - intros H; apply H60; now right.
  - intros H; apply H62; now right.
Qed.

Lemma render_element (name text : str) :
  render (Tag name [Text text]) = open_tag name ++ escape text ++ close_tag name.
Proof. cbn [render List.map concat]. now rewrite app_nil_r. Qed.

Lemma entity_free_no_tag (s : str) :
  entity_free s -> startswith s (lit "<h") = false.
Proof.
  intros [_ [H60 _]]. destruct s as [|c s]; [reflexivity|].
  change (lit "<h") with [60%N; 104%N]. cbn [startswith].
  destruct (N.eqb_spec c 60%N) as [->|_]; [|reflexivity].
  exfalso. apply H60. now left.
Qed.

Lemma entity_free_app (a b : str) :
  entity_free (a ++ b) <-> entity_free a /\ entity_free b.
Proof. unfold entity_free. rewrite !in_app_iff. tauto. Qed.

Lemma startswith_heading_html (n : nat) (s : str) :
  startswith (heading_html n s) (lit "<h") = true.
Proof.
  unfold heading_html, open_tag, heading_name.
  change (startswith (60%N :: 104%N :: (str_of_nat n ++ lit ">") ++ s
                        ++ close_tag (lit "h" ++ str_of_nat n)) [60%N; 104%N] = true).
  cbn [startswith]. now rewrite !N.eqb_refl, startswith_nil.
Qed.

Lemma round_trip_stage (b : block) :
  plain_block b -> concat (List.map block_html (stage 3 b)) = round_trip b.
Proof.
  intros Hb.
  assert (Hl : Forall (fun l => l <> [] /\ trimmed l) (concat (List.map (stage 3) [b])))
    by (apply stage_lines; repeat constructor; exact Hb).
  cbn [List.map concat] in Hl. rewrite app_nil_r in Hl.
  destruct b as [n t|t]; cbn [stage round_trip] in *.
  - inversion Hl as [|? ? [Hne Ht] _]; subst. cbn [List.map concat].
    rewrite app_nil_r, block_html_trimmed by assumption.
    destruct Hb as [Hn [_ [_ He]]].
    rewrite !render_element. destruct (n <=? 3).
    + now rewrite startswith_heading_html, (escape_plain _ He).
    + destruct n as [|n]; [lia|].
      assert (Hm : entity_free (heading_markup (S n) (strip t))).
      { unfold heading_markup. rewrite repeat_str_hash.
        apply entity_free_app. split; [|apply entity_free_app; split; [|exact He]].
        - repeat split; intros H; apply repeat_spec in H; discriminate.
        - repeat split; intros H; literal_free H. }
      rewrite (escape_plain _ Hm).
      unfold heading_markup. rewrite repeat_str_hash. reflexivity.
  - destruct Hb as [_ [_ He]]. destruct (nonempty (strip t)); [|reflexivity].
    inversion Hl as [|? ? [Hne Ht] _]; subst. cbn [List.map concat].
    rewrite app_nil_r, block_html_trimmed by assumption.
    rewrite (entity_free_no_tag _ He), render_element, (escape_plain _ He).
    reflexivity.
Qed.

(** * Moving between chapters and views *)

Section NavigationFacts.

Variable parse : str -> list node.

Lemma load_chapter_frame (index : nat) (e : editor) :
  current_book (load_chapter parse index e) = current_book e
  /\ chapters (load_chapter parse index e) = chapters e
  /\ current_chapter_index (load_chapter parse index e) = current_chapter_index e
  /\ view_mode (load_chapter parse index e) = view_mode e.
Proof. unfold load_chapter. destruct (chapters e !! index); auto. Qed.

Lemma load_full_book_frame (e : editor) :
  current_book (load_full_book parse e) = current_book e
  /\ chapters (load_full_book parse e) = chapters e
  /\ current_chapter_index (load_full_book parse e) = current_chapter_index e
  /\ view_mode (load_full_book parse e) = view_mode e.
Proof. unfold load_full_book. destruct (chapters e) eqn:E; repeat split; auto. Qed.

Lemma switch_view_mode_frame (m : mode) (e : editor) :
  current_book (switch_view_mode parse m e) = current_book e
  /\ chapters (switch_view_mode parse m e) = chapters e
  /\ current_chapter_index (switch_view_mode parse m e) = current_chapter_index e.
Proof.
  unfold switch_view_mode. destruct (mode_eqb m (view_mode e)); [auto|].
  destruct m.
  - cbn [with_mode chapters]. destruct (chapters e) eqn:E; [auto|].
    destruct (load_chapter_frame (current_chapter_index (with_mode e chapter_view))
                (with_mode e chapter_view)) as [H1 [H2 [H3 _]]].
    rewrite H1, H2, H3. cbn. auto.
  - destruct (load_full_book_frame (with_mode e full_book_view)) as [H1 [H2 [H3 _]]].
    rewrite H1, H2, H3. auto.
Qed.

Lemma switch_view_mode_mode (m : mode) (e : editor) :
  view_mode (switch_view_mode parse m e) = m.
Proof.
  unfold switch_view_mode. destruct (mode_eqb m (view_mode e)) eqn:E.
  - destruct m, (view_mode e); try discriminate; reflexivity.
  - destruct m.
    + cbn [with_mode chapters]. destruct (chapters e); [reflexivity|].
      now destruct (load_chapter_frame (current_chapter_index (with_mode e chapter_view))
                      (with_mode e chapter_view)) as [_ [_ [_ ->]]].
    + now destruct (load_full_book_frame (with_mode e full_book_view)) as [_ [_ [_ ->]]].
Qed.

Lemma on_chapter_selected_frame (selection : list nat) (e : editor) :
  current_book (on_chapter_selected parse selection e) = current_book e
  /\ chapters (on_chapter_selected parse selection e) = chapters e.
Proof.
  unfold on_chapter_selected. destruct (view_mode e); [|auto].
  destruct selection as [|index ?]; [auto|].
  destruct (load_chapter_frame index (with_index e index)) as [H1 [H2 _]].
  rewrite H1, H2. auto.
Qed.

Lemma previous_chapter_frame (e : editor) :
  current_book (previous_chapter parse e) = current_book e
  /\ chapters (previous_chapter parse e) = chapters e.
Proof.
  unfold previous_chapter. destruct (view_mode e); [|auto].
  destruct (0 <? current_chapter_index e); [|auto].
  cbn [with_index current_chapter_index].
  destruct (load_chapter_frame (current_chapter_index e - 1)
              (with_index e (current_chapter_index e - 1))) as [H1 [H2 _]].
  rewrite H1, H2. auto.
Qed.

Lemma next_chapter_frame (e : editor) :
  current_book (next_chapter parse e) = current_book e
  /\ chapters (next_chapter parse e) = chapters e.
Proof.
  unfold next_chapter. destruct (view_mode e); [|auto].
  destruct (_ <? _)%Z; [|auto].
  cbn [with_index current_chapter_index].
  destruct (load_chapter_frame (current_chapter_index e + 1)
              (with_index e (current_chapter_index e + 1))) as [H1 [H2 _]].
  rewrite H1, H2. auto.
Qed.

Lemma well_formed_frame (e e' : editor) :
  current_book e' = current_book e -> chapters e' = chapters e ->
  well_formed e -> well_formed e'.
Proof. unfold well_formed. now intros -> ->. Qed.

Lemma index_in_range_frame (e e' : editor) :
  chapters e' = chapters e -> current_chapter_index e' = current_chapter_index e ->
  index_in_range e -> index_in_range e'.
Proof. unfold index_in_range. now intros -> ->. Qed.

Lemma load_epub_file_index (book : list item) (e : editor) :
  index_in_range (load_epub_file parse book e).
Proof.
  unfold index_in_range, load_epub_file.
  destruct (load_chapters parse 0 book []) as [|ch chs] eqn:E; [now left|]. right.
  destruct (view_mode e).
  - match goal with |- context [load_chapter parse 0 ?x] =>
      destruct (load_chapter_frame 0 x) as [_ [-> [-> _]]] end.
    simpl. lia.
  - match goal with |- context [load_full_book parse ?x] =>
      destruct (load_full_book_frame x) as [_ [-> [-> _]]] end.
    simpl. lia.
Qed.

Lemma save_index (e : editor) :
  current_chapter_index (save_epub_to_path e) = current_chapter_index e.
Proof.
  unfold save_epub_to_path, save_chapter, save_full_book.
  destruct (view_mode e); [|reflexivity].
  destruct (chapters e !! current_chapter_index e); [|reflexivity].
  destruct (encode_utf8 _); reflexivity.
Qed.

Lemma reachable_well_formed (e : editor) :
  reachable parse e -> well_formed e /\ index_in_range e.
Proof.
  induction 1 as [|book e _ _|text e _ [IH1 IH2]|m e _ [IH1 IH2]
                  |value e _ [IH1 IH2]
                  |selection e _ [IH1 IH2] Hsel|e _ [IH1 IH2]|e _ [IH1 IH2]
                  |e _ [IH1 IH2]].
  - split; [split; [constructor | constructor] | now left].
  - split; [apply load_well_formed | apply load_epub_file_index].
  - split; [exact IH1 | exact IH2].
  - destruct (switch_view_mode_frame m e) as [H1 [H2 H3]].
    split; [eapply well_formed_frame | eapply index_in_range_frame]; eauto.
  - unfold on_view_mode_changed.
    destruct (str_eqb value (lit "Chapter"));
      match goal with |- context [switch_view_mode parse ?m e] =>
        destruct (switch_view_mode_frame m e) as [H1 [H2 H3]] end;
      (split; [eapply well_formed_frame | eapply index_in_range_frame]; eauto).
  - destruct (on_chapter_selected_frame selection e) as [H1 H2].
    split; [eapply well_formed_frame; eauto|].
    unfold index_in_range in *. rewrite H2.
    unfold on_chapter_selected. destruct (view_mode e); [|exact IH2].
    destruct selection as [|index rest]; [exact IH2|].
    destruct (load_chapter_frame index (with_index e index)) as [_ [_ [-> _]]].
    inversion Hsel; subst. right. assumption.
  - destruct (previous_chapter_frame e) as [H1 H2].
    split; [eapply well_formed_frame; eauto|].
    unfold index_in_range in *. rewrite H2.
    unfold previous_chapter. destruct (view_mode e); [|exact IH2].
    destruct (Nat.ltb_spec 0 (current_chapter_index e)); [|exact IH2].
    cbn [with_index current_chapter_index].
    destruct (load_chapter_frame (current_chapter_index e - 1)
                (with_index e (current_chapter_index e - 1))) as [_ [_ [-> _]]].
    cbn [with_index current_chapter_index]. destruct IH2; [now left | right; lia].
  - destruct (next_chapter_frame e) as [H1 H2].
    split; [eapply well_formed_frame; eauto|].
    unfold index_in_range in *. rewrite H2.
    unfold next_chapter. destruct (view_mode e); [|exact IH2].
    destruct (Z.ltb_spec (Z.of_nat (current_chapter_index e))
                (Z.of_nat (length (chapters e)) - 1)); [|exact IH2].
    cbn [with_index current_chapter_index].
    destruct (load_chapter_frame (current_chapter_index e + 1)
                (with_index e (current_chapter_index e + 1))) as [_ [_ [-> _]]].
    cbn [with_index current_chapter_index]. right. lia.
  - split; [now apply save_well_formed|].
    unfold index_in_range. rewrite save_chapters, save_index. exact IH2.
Qed.

End NavigationFacts.

(** * What a save writes, and what it leaves alone *)

Lemma set_content_lookup (book : list item) (i : nat) (c : str) :
  set_content book i c !! i
  = (fun it => {| get_type := get_type it; get_content := c |}) <$> book !! i.
Proof.
  unfold set_content. destruct (book !! i) as [it|] eqn:E.
  - rewrite list_lookup_insert_eq; [reflexivity|]. eapply lookup_lt_Some; eauto.
  - now rewrite E.
Qed.

Lemma set_content_types (book : list item) (i : nat) (c : str) :
  get_type <$> set_content book i c = get_type <$> book.
Proof.
  unfold set_content. destruct (book !! i) as [it|] eqn:E; [|reflexivity].
  rewrite list_fmap_insert. apply list_insert_id.
  rewrite list_lookup_fmap, E. reflexivity.
Qed.

Lemma set_content_twice (book : list item) (i : nat) (c : str) :
  set_content (set_content book i c) i c = set_content book i c.
Proof.
  apply list_eq. intros p. destruct (Nat.eq_dec i p) as [<-|Hne].
  - rewrite !set_content_lookup. destruct (book !! i); reflexivity.
  - now rewrite !set_content_other.
Qed.

Section CommitAgain.

Variable chs : list chapter.
Variable sections : list str.

Lemma commit_loop_stuck (k i0 c : nat) (book : list item) :
  chs !! c = None -> commit_loop chs sections k i0 (book, c) = (book, c).
Proof.
  intros H. revert i0. induction k as [|k IH]; intros i0; [reflexivity|].
  rewrite commit_loop_step. cbn [write_section]. rewrite H. apply IH.
Qed.

Lemma commit_loop_types (k i0 c : nat) (book : list item) :
  get_type <$> fst (commit_loop chs sections k i0 (book, c)) = get_type <$> book.
Proof.
  revert i0 c book. induction k as [|k IH]; intros i0 c book; [reflexivity|].
  rewrite commit_loop_step. cbn [write_section].
  destruct (chs !! c) as [ch|]; [|apply IH].
  rewrite IH. apply set_content_types.
Qed.

(** The outcome of the loop depends on the book it starts from only
    through the types of the items and the items it does not write. *)
Lemma commit_loop_start (k i0 c : nat) (b1 b2 : list item) :
  get_type <$> b1 = get_type <$> b2 ->
  (forall p, (forall j ch, c <= j < c + k -> chs !! j = Some ch -> ch_item ch <> p) ->
             b1 !! p = b2 !! p) ->
  fst (commit_loop chs sections k i0 (b1, c))
  = fst (commit_loop chs sections k i0 (b2, c)).
Proof.
  revert i0 c b1 b2. induction k as [|k IH]; intros i0 c b1 b2 Ht Hf.
  - cbn. apply list_eq. intros p. apply Hf. intros; lia.
  - rewrite !commit_loop_step. cbn [write_section].
    destruct (chs !! c) as [ch|] eqn:E.
    + apply IH.
      * now rewrite !set_content_types.
      * intros p Hp. destruct (Nat.eq_dec (ch_item ch) p) as [<-|Hne].
        -- rewrite !set_content_lookup.
           assert (Hl : get_type <$> b1 !! ch_item ch = get_type <$> b2 !! ch_item ch)
             by (rewrite <- !list_lookup_fmap; now rewrite Ht).
           destruct (b1 !! ch_item ch), (b2 !! ch_item ch);
             try discriminate; [|reflexivity].
           cbn in *. now inversion Hl.
        -- rewrite !set_content_other by assumption. apply Hf.
           intros j ch' Hj Hch'. destruct (Nat.eq_dec j c) as [->|Hjc].
           ++ rewrite E in Hch'. now inversion Hch'; subst.
           ++ apply (Hp j ch'); [lia | assumption].
    + rewrite !commit_loop_stuck by assumption. cbn. apply list_eq. intros p.
      apply Hf. intros j ch Hj Hch. exfalso.
      apply lookup_ge_None in E. apply lookup_lt_Some in Hch. lia.
Qed.

Lemma commit_loop_twice (k i0 c : nat) (book : list item) :
  fst (commit_loop chs sections k i0
         (fst (commit_loop chs sections k i0 (book, c)), c))
  = fst (commit_loop chs sections k i0 (book, c)).
Proof.
  transitivity (fst (commit_loop chs sections k i0 (book, c))); [|reflexivity].
  apply commit_loop_start.
  - apply commit_loop_types.
  - intros p Hp. now apply commit_loop_frame.
Qed.

End CommitAgain.

Lemma save_types (e : editor) :
  get_type <$> current_book (save_epub_to_path e) = get_type <$> current_book e.
Proof.
  destruct (view_mode e) eqn:Hm.
  - unfold save_epub_to_path, save_chapter. rewrite Hm.
    destruct (chapters e !! current_chapter_index e); [|reflexivity].
    destruct (encode_utf8 _); [apply set_content_types | reflexivity].
  - rewrite full_book_commit by exact Hm. apply commit_loop_types.
Qed.

Section Reload.

Variables parse parse' : str -> list node.

Lemma loaded_positions (items items' : list item) (pos n n' : nat) :
  get_type <$> items = get_type <$> items' ->
  ch_item <$> loaded parse pos items n = ch_item <$> loaded parse' pos items' n'.
Proof.
  revert items' pos n n'. induction items as [|x items IH];
    intros [|y items'] pos n n' H; try discriminate; [reflexivity|].
  cbn in H. injection H as Hxy H. cbn [loaded]. unfold is_document.
  rewrite Hxy. destruct (get_type y); cbn; [f_equal|]; now apply IH.
Qed.

End Reload.

(** ** The states the application reaches *)



(** ** The chapter branch of a save *)

(** X2. A save in the chapter view changes at most one item, the one the
    current chapter refers to: every other item of the book stays as it
    was, and with them the content of every other chapter. When the
    current index points at no chapter, the save changes nothing. *)
Theorem chapter_view_commit (e : editor) :
  view_mode e = chapter_view ->
  match chapters e !! current_chapter_index e with
  | Some ch =>
      (forall p, p <> ch_item ch ->
         current_book (save_epub_to_path e) !! p = current_book e !! p)
      /\ (well_formed e ->
          forall k other,
            chapters e !! k = Some other -> k <> current_chapter_index e ->
            chapter_source (current_book (save_epub_to_path e)) other
            = chapter_source (current_book e) other)
  | None => save_epub_to_path e = e
  end.
Proof.
  intros Hm. unfold save_epub_to_path, save_chapter. rewrite Hm.
  destruct (chapters e !! current_chapter_index e) as [ch|] eqn:Hch; [|reflexivity].
  destruct (encode_utf8 _) as [encoded|]; [|split; reflexivity].
  cbn [with_book current_book]. split.
  - intros p Hp. apply set_content_other. congruence.
  - intros [Hnd _] k other Hk Hne. apply source_lookup, set_content_other.
    apply (distinct_items (chapters e) (current_chapter_index e) k); auto.
Qed.

(** X2 on the two-chapter book: a save with the first chapter current
    leaves the second chapter as it was. *)
Lemma chapter_view_commit_witness :
  chapter_source
    (current_book
       (save_epub_to_path
          (with_text (load_epub_file sample_parse book_ab (initial chapter_view))
             (lit "changed"))))
    chapter_b
  = chapter_source book_ab chapter_b.
Proof.
  pose proof (chapter_view_commit
                (with_text (load_epub_file sample_parse book_ab (initial chapter_view))
                   (lit "changed")) eq_refl) as H.
  cbn in H. destruct H as [_ H].
  apply (H (load_well_formed sample_parse book_ab (initial chapter_view)) 1 chapter_b).
  - reflexivity.
  - discriminate.
Defined.

(** ** Saving twice *)

(** X3. Saving twice in a row is the same as saving once: the second save
    writes what the first one wrote. *)
Theorem save_twice (e : editor) :
  save_epub_to_path (save_epub_to_path e) = save_epub_to_path e.
Proof.
  unfold save_epub_to_path. destruct (view_mode e) eqn:Hm.
  - unfold save_chapter.
    destruct (chapters e !! current_chapter_index e) as [ch|] eqn:Hch.
    + destruct (encode_utf8 _) as [encoded|] eqn:He.
      * cbn [with_book view_mode chapters current_chapter_index]. rewrite Hm, Hch.
        unfold editor_get in *.
        cbn [with_book current_book chapters current_chapter_index view_mode
               editor_text].
        rewrite He. unfold with_book.
        cbn [current_book chapters current_chapter_index view_mode editor_text].
        f_equal. apply set_content_twice.
      * rewrite Hm, Hch, He. reflexivity.
    + now rewrite Hm, Hch.
  - unfold save_full_book, with_book, range_1_step_2.
    cbn [view_mode chapters current_book current_chapter_index editor_text].
    rewrite Hm. unfold chapter_sections, editor_get.
    cbn [view_mode chapters current_book current_chapter_index editor_text].
    f_equal. rewrite !save_sections_completed. apply commit_loop_twice.
Qed.

(** ** A save and the items of the book *)

(** X4. A save keeps the number of items and the type of each of them, so
    opening the saved book gives a chapter list of the same length whose
    entries refer to the same items as before the save. *)
Theorem save_keeps_items (parse : str -> list node) (e e' : editor) :
  length (current_book (save_epub_to_path e)) = length (current_book e)
  /\ get_type <$> current_book (save_epub_to_path e) = get_type <$> current_book e
  /\ ch_item <$> chapters (load_epub_file parse (current_book (save_epub_to_path e)) e')
     = ch_item <$> chapters (load_epub_file parse (current_book e) e')
  /\ length (chapters (load_epub_file parse (current_book (save_epub_to_path e)) e'))
     = length (documents (current_book e)).
Proof.
  split; [apply save_length|]. split; [apply save_types|].
  destruct (load_epub_file_chapters parse (current_book (save_epub_to_path e)) e')
    as [-> _].
  destruct (load_epub_file_chapters parse (current_book e) e') as [-> _].
  assert (H : ch_item <$> loaded parse 0 (current_book (save_epub_to_path e)) 0
              = ch_item <$> loaded parse 0 (current_book e) 0)
    by apply loaded_positions, save_types.
  split; [exact H|].
  rewrite <- (loaded_length parse (current_book e) 0 0).
  rewrite <- (length_fmap ch_item), H. apply length_fmap.
Qed.

(** * Opening, then saving *)

Lemma strip_buffer (s : str) : strip (strip s ++ [nl]) = strip s.
Proof. rewrite strip_app_spaces by repeat constructor. apply strip_idem. Qed.

Lemma joined_sections_length (secs : list (str * str)) (cur : str) :
  length (joined_sections cur secs) = 2 * length secs + 1.
Proof.
  revert cur. induction secs as [|sec secs IH]; intros cur; [reflexivity|].
  cbn [joined_sections length]. rewrite IH. lia.
Qed.

Lemma spaces_encodable (n : nat) : existsb is_surrogate (spaces n) = false.
Proof. induction n as [|n IH]; [reflexivity | exact IH]. Qed.

(** A page can be encoded when its title and its body can. *)
Lemma full_html_encodable (indent : nat) (title html_content : str) :
  encodable (full_html indent title html_content)
  <-> encodable title /\ encodable html_content.
Proof.
  unfold encodable, full_html. rewrite !existsb_app, !spaces_encodable.
  cbn. rewrite !orb_false_r.
  destruct (existsb is_surrogate title), (existsb is_surrogate html_content);
    cbn; intuition discriminate.
Qed.

(** What a save in the chapter view does with a chapter just loaded. *)
Lemma load_then_save_chapter_core (parse : str -> list node) (e : editor)
    (ch : chapter) :
  view_mode e = chapter_view ->
  chapters e !! current_chapter_index e = Some ch ->
  ch_item ch < length (current_book e) ->
  save_epub_to_path (load_chapter parse (current_chapter_index e) e)
  = match encode_utf8
            (full_html 20 (ch_title ch)
               (markdown_to_html
                  (html_to_markdown (parse (chapter_source (current_book e) ch)))))
    with
    | Some encoded =>
        with_book (load_chapter parse (current_chapter_index e) e)
          (set_content (current_book e) (ch_item ch) encoded)
    | None => load_chapter parse (current_chapter_index e) e
    end.
Proof.
  intros Hm Hch Hlt. unfold load_chapter. rewrite Hch.
  unfold save_epub_to_path, save_chapter.
  cbn [view_mode chapters current_chapter_index current_book editor_text editor_get].
  rewrite Hm, Hch.
  assert (Hs : strip (html_to_markdown (parse (chapter_source (current_book e) ch))
                      ++ [nl])
               = html_to_markdown (parse (chapter_source (current_book e) ch))).
  { unfold html_to_markdown. apply strip_buffer. }
  unfold editor_get. cbn [editor_text]. rewrite Hs. reflexivity.
Qed.

Lemma load_then_save_chapter_page (parse : str -> list node) (e : editor)
    (ch : chapter) :
  view_mode e = chapter_view ->
  chapters e !! current_chapter_index e = Some ch ->
  ch_item ch < length (current_book e) ->
  encodable (full_html 20 (ch_title ch)
               (markdown_to_html
                  (html_to_markdown (parse (chapter_source (current_book e) ch))))) ->
  chapter_source
    (current_book
       (save_epub_to_path (load_chapter parse (current_chapter_index e) e))) ch
  = full_html 20 (ch_title ch)
      (markdown_to_html
         (html_to_markdown (parse (chapter_source (current_book e) ch)))).
Proof.
  intros Hm Hch Hlt Henc. rewrite (load_then_save_chapter_core parse e ch) by assumption.
  unfold encode_utf8. unfold encodable in Henc. rewrite Henc.
  cbn [with_book current_book]. now apply source_set_same.
Qed.

Lemma load_then_save_chapter_fails (parse : str -> list node) (e : editor)
    (ch : chapter) :
  view_mode e = chapter_view ->
  chapters e !! current_chapter_index e = Some ch ->
  ch_item ch < length (current_book e) ->
  ~ encodable (full_html 20 (ch_title ch)
                 (markdown_to_html
                    (html_to_markdown (parse (chapter_source (current_book e) ch))))) ->
  save_epub_to_path (load_chapter parse (current_chapter_index e) e)
  = load_chapter parse (current_chapter_index e) e.
Proof.
  intros Hm Hch Hlt Henc. rewrite (load_then_save_chapter_core parse e ch) by assumption.
  unfold encode_utf8. unfold encodable in Henc.
  destruct (existsb is_surrogate _); [reflexivity | now contradiction Henc].
Qed.

(** X5. A chapter that is loaded into the editor and saved without an edit
    is replaced by the page made of its stored title and of its content
    taken through both conversions, to markup and back, when that page
    can be encoded; when it cannot, the save changes nothing. *)
Theorem load_then_save_chapter (parse : str -> list node) (e : editor)
    (ch : chapter) :
  view_mode e = chapter_view ->
  chapters e !! current_chapter_index e = Some ch ->
  ch_item ch < length (current_book e) ->
  (encodable (full_html 20 (ch_title ch)
                (markdown_to_html
                   (html_to_markdown (parse (chapter_source (current_book e) ch))))) ->
   chapter_source
     (current_book
        (save_epub_to_path (load_chapter parse (current_chapter_index e) e))) ch
   = full_html 20 (ch_title ch)
       (markdown_to_html
          (html_to_markdown (parse (chapter_source (current_book e) ch)))))
  /\ (~ encodable (full_html 20 (ch_title ch)
                     (markdown_to_html
                        (html_to_markdown
                           (parse (chapter_source (current_book e) ch))))) ->
      save_epub_to_path (load_chapter parse (current_chapter_index e) e)
      = load_chapter parse (current_chapter_index e) e).
Proof.
  intros Hm Hch Hlt. split.
  - now apply load_then_save_chapter_page.
  - now apply load_then_save_chapter_fails.
Qed.

(** X5 on the first chapter of the two-chapter book. *)
Lemma load_then_save_chapter_witness :
  chapter_source
    (current_book
       (save_epub_to_path
          (load_chapter sample_parse 0
             (load_epub_file sample_parse book_ab (initial chapter_view)))))
    chapter_a
  = full_html 20 (lit "A") (lit "<p>alpha</p>").
Proof.
  apply (load_then_save_chapter sample_parse
           (load_epub_file sample_parse book_ab (initial chapter_view)) chapter_a);
    [reflexivity | reflexivity | vm_compute; lia | vm_compute; reflexivity].
Defined.

(** X6. A document in which none of the twelve element names occurs loads
    as an empty buffer, and a save then replaces it by a page with an
    empty body, when the stored title can be encoded: text held only by
    other elements (list items, for one) or by no element is lost. When
    the title cannot be encoded, the save changes nothing. *)
Theorem unlisted_elements_are_lost (parse : str -> list node) (e : editor)
    (ch : chapter) :
  view_mode e = chapter_view ->
  chapters e !! current_chapter_index e = Some ch ->
  ch_item ch < length (current_book e) ->
  Forall (fun n => name_in (tag_name n) markup_names = false)
    (concat (List.map tags_of (parse (chapter_source (current_book e) ch)))) ->
  editor_text (load_chapter parse (current_chapter_index e) e) = []
  /\ (encodable (ch_title ch) ->
      chapter_source
        (current_book
           (save_epub_to_path (load_chapter parse (current_chapter_index e) e))) ch
      = full_html 20 (ch_title ch) [])
  /\ (~ encodable (ch_title ch) ->
      save_epub_to_path (load_chapter parse (current_chapter_index e) e)
      = load_chapter parse (current_chapter_index e) e).
Proof.
  intros Hm Hch Hlt Hnone.
  assert (Hmd : html_to_markdown (parse (chapter_source (current_book e) ch)) = []).
  { unfold html_to_markdown, find_all.
    replace (List.filter (fun n => name_in (tag_name n) markup_names)
               (concat (List.map tags_of (parse (chapter_source (current_book e) ch)))))
      with (@nil node); [reflexivity|].
    symmetry. induction Hnone as [|n ns Hn _ IH]; [reflexivity|].
    cbn [List.filter]. now rewrite Hn. }
  assert (Henc : encodable (full_html 20 (ch_title ch)
                   (markdown_to_html
                      (html_to_markdown (parse (chapter_source (current_book e) ch)))))
                 <-> encodable (ch_title ch)).
  { rewrite Hmd, full_html_encodable. split; [tauto|]. intros H.
    split; [exact H | reflexivity]. }
  split; [|split].
  - unfold load_chapter. rewrite Hch. cbn [editor_text]. exact Hmd.
  - intros H. rewrite load_then_save_chapter_page by (try assumption; now apply Henc).
    now rewrite Hmd.
  - intros H. apply (load_then_save_chapter_fails parse e ch); try assumption.
    intros H'. apply H, Henc, H'.
Qed.

(** X6 on the book whose one document is a list. *)
Lemma unlisted_elements_are_lost_witness :
  editor_text (load_chapter (parse_known [soup_list]) 0 loaded_list) = []
  /\ chapter_source
       (current_book
          (save_epub_to_path (load_chapter (parse_known [soup_list]) 0 loaded_list)))
       chapter_list
     = full_html 20 (lit "Chapter 1") [].
Proof.
  destruct (unlisted_elements_are_lost (parse_known [soup_list]) loaded_list
              chapter_list) as [H1 [H2 _]];
    [reflexivity | reflexivity | vm_compute; lia | vm_compute; repeat constructor|].
  split; [exact H1 | apply H2; vm_compute; reflexivity].
Defined.

(** X7. The same in the full-book view, when every title is non-empty and
    on one line and no line of a chapter's markup is a delimiter: a book
    that is loaded as a whole and saved without an edit has a chapter
    replaced by the page made of its stored title and of its content taken
    through both conversions, when that page and those of the chapters
    before it can be encoded. *)
Theorem load_then_save_full_book (parse : str -> list node) (e : editor)
    (i : nat) (ch : chapter) :
  well_formed e -> view_mode e = full_book_view ->
  Forall (fun c => delimiter_ready (ch_title c)) (chapters e) ->
  Forall (fun c => delimiter_free
                     (html_to_markdown (parse (chapter_source (current_book e) c))))
    (chapters e) ->
  chapters e !! i = Some ch ->
  (forall j cj,
     j <= i -> chapters e !! j = Some cj ->
     encodable (full_html 24 (ch_title cj)
                  (markdown_to_html
                     (html_to_markdown
                        (parse (chapter_source (current_book e) cj)))))) ->
  chapter_source (current_book (save_epub_to_path (load_full_book parse e))) ch
  = full_html 24 (ch_title ch)
      (markdown_to_html
         (html_to_markdown (parse (chapter_source (current_book e) ch)))).
Proof.
  intros Hwf Hm Hready Hfree Hch Henc.
  assert (Hne : chapters e <> []) by (intros E; rewrite E in Hch; discriminate).
  destruct (load_full_book_frame parse e) as [Hb [Hc [_ Hv]]].
  destruct (loaded_sections parse e Hne) as [H1 H2].
  set (secs := book_sections parse (current_book e) (chapters e)) in *.
  assert (Hr : Forall (fun sec => delimiter_ready (fst sec)) secs).
  { unfold secs, book_sections. apply List.Forall_map. exact Hready. }
  assert (Hf : Forall (fun sec => delimiter_free (snd sec)) secs).
  { unfold secs, book_sections. apply List.Forall_map. exact Hfree. }
  assert (Hn : length secs = length (chapters e))
    by (unfold secs, book_sections; apply length_map).
  rewrite split_lines, (lines_chunks _ Hr), (sections_chunks secs [] Hr Hf) in H1, H2.
  rewrite joined_sections_length, sections_count in H1.
  assert (Hpage : forall j cj,
            chapters e !! j = Some cj ->
            chapter_page (load_full_book parse e) j cj
            = full_html 24 (ch_title cj)
                (markdown_to_html
                   (html_to_markdown (parse (chapter_source (current_book e) cj))))).
  { intros j cj Hcj. unfold chapter_page. rewrite H2.
    rewrite (joined_sections_nth secs [] j
               (ch_title cj, html_to_markdown (parse (chapter_source (current_book e) cj)))).
    - cbn [snd]. f_equal. f_equal.
      apply strip_pad; try (repeat constructor). apply strip_trimmed.
    - unfold secs, book_sections.
      apply (lookup_map (fun c => (ch_title c,
               html_to_markdown (parse (chapter_source (current_book e) c))))).
      exact Hcj. }
  rewrite (commit_written (load_full_book parse e) i ch).
  - now apply Hpage.
  - eapply well_formed_frame; eauto.
  - congruence.
  - now rewrite Hc.
  - apply lookup_lt_Some in Hch. lia.
  - intros j cj Hj Hcj. rewrite Hc in Hcj. rewrite (Hpage j cj Hcj).
    now apply (Henc j cj).
Qed.

(** X7 on the second chapter of the two-chapter book. *)
Lemma load_then_save_full_book_witness :
  chapter_source
    (current_book (save_epub_to_path (load_full_book sample_parse loaded_ab)))
    chapter_b
  = full_html 24 (lit "B") (lit "<p>beta</p>").
Proof.
  apply (load_then_save_full_book sample_parse loaded_ab 1 chapter_b).
  - exact (load_well_formed sample_parse book_ab (initial full_book_view)).
  - reflexivity.
  - repeat constructor; discriminate.
  - repeat constructor.
  - reflexivity.
  - intros [|[|j]] cj Hj Hcj; [| |lia]; injection Hcj as <-; vm_compute; reflexivity.
Defined.

(** * Leaving a chapter and coming back *)

Section ComingBack.

Variable parse : str -> list node.

Lemma load_chapter_some (index : nat) (e : editor) (ch : chapter) :
  chapters e !! index = Some ch ->
  load_chapter parse index e
  = {| current_book := current_book e; chapters := chapters e;
       current_chapter_index := current_chapter_index e;
       view_mode := view_mode e;
       editor_text := html_to_markdown (parse (chapter_source (current_book e) ch)) |}.
Proof. intros H. unfold load_chapter. now rewrite H. Qed.

Lemma next_chapter_moves (e : editor) :
  view_mode e = chapter_view ->
  current_chapter_index e + 1 < length (chapters e) ->
  next_chapter parse e
  = load_chapter parse (current_chapter_index e + 1)
      (with_index e (current_chapter_index e + 1)).
Proof.
  intros Hm Hn. unfold next_chapter. rewrite Hm.
  destruct (Z.ltb_spec (Z.of_nat (current_chapter_index e))
              (Z.of_nat (length (chapters e)) - 1)); [reflexivity | lia].
Qed.

Lemma previous_chapter_moves (e : editor) :
  view_mode e = chapter_view -> 0 < current_chapter_index e ->
  previous_chapter parse e
  = load_chapter parse (current_chapter_index e - 1)
      (with_index e (current_chapter_index e - 1)).
Proof.
  intros Hm Hp. unfold previous_chapter. rewrite Hm.
  destruct (Nat.ltb_spec 0 (current_chapter_index e)); [reflexivity | lia].
Qed.

End ComingBack.

(** X8. In the chapter view, with the current index at a chapter, what is
    typed into the editor is lost by moving away and back: Next followed
    by Previous, Previous followed by Next, and a change to the full-book
    view and back all end in the state that loading the current chapter
    from the book gives, whatever the editor held. *)
Theorem coming_back_reloads (parse : str -> list node) (e : editor) (text : str) :
  view_mode e = chapter_view ->
  current_chapter_index e < length (chapters e) ->
  (current_chapter_index e + 1 < length (chapters e) ->
   previous_chapter parse (next_chapter parse (with_text e text))
   = load_chapter parse (current_chapter_index e) e)
  /\ (0 < current_chapter_index e ->
      next_chapter parse (previous_chapter parse (with_text e text))
      = load_chapter parse (current_chapter_index e) e)
  /\ switch_view_mode parse chapter_view
       (switch_view_mode parse full_book_view (with_text e text))
     = load_chapter parse (current_chapter_index e) e.
Proof.
  intros Hm Hi. destruct (lookup_lt_is_Some_2 _ _ Hi) as [ch Hch].
  rewrite (load_chapter_some parse _ e ch Hch).
  split; [|split].
  - intros Hn. destruct (lookup_lt_is_Some_2 _ _ Hn) as [ch' Hch'].
    rewrite (next_chapter_moves parse (with_text e text)) by assumption.
    rewrite (load_chapter_some parse _ _ ch') by exact Hch'.
    cbn [with_index with_text current_chapter_index chapters current_book view_mode].
    rewrite previous_chapter_moves by (cbn [view_mode current_chapter_index]; auto; lia).
    cbn [with_index current_chapter_index chapters current_book view_mode editor_text].
    replace (current_chapter_index e + 1 - 1) with (current_chapter_index e) by lia.
    rewrite (load_chapter_some parse _ _ ch) by exact Hch. now rewrite Hm.
  - intros Hp.
    assert (Hq : current_chapter_index e - 1 < length (chapters e)) by lia.
    destruct (lookup_lt_is_Some_2 _ _ Hq) as [ch' Hch'].
    rewrite (previous_chapter_moves parse (with_text e text)) by assumption.
    rewrite (load_chapter_some parse _ _ ch') by exact Hch'.
    cbn [with_index with_text current_chapter_index chapters current_book view_mode].
    rewrite next_chapter_moves
      by (cbn [view_mode current_chapter_index chapters]; auto; lia).
    cbn [with_index current_chapter_index chapters current_book view_mode editor_text].
    replace (current_chapter_index e - 1 + 1) with (current_chapter_index e) by lia.
    rewrite (load_chapter_some parse _ _ ch) by exact Hch. now rewrite Hm.
  - unfold switch_view_mode at 2. cbn [with_text view_mode]. rewrite Hm.
    cbn [mode_eqb]. unfold load_full_book. cbn [with_mode with_text chapters].
    destruct (chapters e) as [|c0 cs] eqn:Ec; [cbn in Hi; lia|].
    cbn [current_book chapters current_chapter_index view_mode editor_text].
    unfold switch_view_mode. cbn [view_mode mode_eqb with_mode chapters].
    cbn [current_book chapters current_chapter_index view_mode editor_text].
    rewrite (load_chapter_some parse _ _ ch) by exact Hch. reflexivity.
Qed.

(** X8 on the two-chapter book: typing, Next, then Previous gives the
    state the book was opened in. *)
Lemma coming_back_reloads_witness :
  previous_chapter sample_parse
    (next_chapter sample_parse
       (with_text (load_epub_file sample_parse book_ab (initial chapter_view))
          (lit "typed")))
  = load_epub_file sample_parse book_ab (initial chapter_view).
Proof.
  destruct (coming_back_reloads sample_parse
              (load_epub_file sample_parse book_ab (initial chapter_view))
              (lit "typed") eq_refl) as [H _].
  - vm_compute. lia.
  - rewrite H; [reflexivity | vm_compute; lia].
Defined.

(** * What opening a book shows *)

(** X9. Opening a book puts the current index at the first chapter and
    shows, in the chapter view, the markup of the first document item of
    the book (not of its first item), in the full-book view the joined
    text of all chapters. A book without a document item leaves the
    editor and the index as they were, with an empty chapter list. *)
Theorem open_shows_first_document (parse : str -> list node) (book : list item)
    (e : editor) :
  match documents book with
  | it :: _ =>
      current_chapter_index (load_epub_file parse book e) = 0
      /\ editor_text (load_epub_file parse book e)
         = match view_mode e with
           | chapter_view => html_to_markdown (parse (get_content it))
           | full_book_view =>
               strip (full_content parse book (chapters (load_epub_file parse book e)))
           end
  | [] =>
      load_epub_file parse book e
      = {| current_book := book; chapters := [];
           current_chapter_index := current_chapter_index e;
           view_mode := view_mode e; editor_text := editor_text e |}
  end.
Proof.
  destruct (documents book) as [|it rest] eqn:Ed.
  - unfold load_epub_file. rewrite load_chapters_loaded. cbn [app length].
    pose proof (loaded_length parse book 0 0) as Hl. rewrite Ed in Hl.
    destruct (loaded parse 0 book 0); [reflexivity | discriminate].
  - destruct (loaded_lookup parse book 0 0 0 it) as [ch [H1 [H2 _]]];
      [now rewrite Ed|].
    rewrite Nat.sub_0_r in H2.
    destruct (load_epub_file_chapters parse book e) as [Hc _]. rewrite Hc.
    unfold load_epub_file. rewrite load_chapters_loaded. cbn [app length].
    destruct (loaded parse 0 book 0) as [|c0 cs] eqn:El; [discriminate|].
    cbn in H1. injection H1 as ->.
    destruct (view_mode e).
    + unfold load_chapter. cbn. unfold chapter_source. rewrite H2. auto.
    + unfold load_full_book. cbn. auto.
Qed.

(** * A pair of markers around a text *)

Lemma after_some (c : char) (u : str) (prev : option char) :
  after prev (c :: u) = after None (c :: u).
Proof. reflexivity. Qed.

Section LazyRepetition.

Context {R : Type}.

(** A lazy repetition stops at the first length at which the rest of the
    pattern matches. *)
Lemma plus_lazy_first (cls : char -> bool)
    (k : str -> option char -> str -> option R) (u : str) :
  forall (acc v : str) (r : R),
  u <> [] -> forallb cls u = true ->
  k (acc ++ u) (after None u) v = Some r ->
  (forall u1 u2, u = u1 ++ u2 -> u1 <> [] -> u2 <> [] ->
                 k (acc ++ u1) (after None u1) (u2 ++ v) = None) ->
  plus false cls k acc (u ++ v) = Some r.
Proof.
  induction u as [|c u IH]; intros acc v r Hne Hcls Hk Hnone; [congruence|].
  cbn [forallb] in Hcls. apply andb_true_iff in Hcls as [Hc Hu].
  cbn [app plus]. rewrite Hc. destruct u as [|d u].
  - cbn [app]. cbn in Hk. now rewrite Hk.
  - pose proof (Hnone [c] (d :: u) eq_refl) as H0.
    cbn [after fold_left app] in H0. cbn [app].
    rewrite H0 by discriminate.
    change (d :: u ++ v) with ((d :: u) ++ v).
    apply IH; [discriminate | exact Hu | |].
    + rewrite <- app_assoc. exact Hk.
    + intros u1 u2 E H1 H2. rewrite <- app_assoc. cbn [app].
      destruct u1 as [|x u1]; [congruence|].
      rewrite <- (after_some x u1 (Some c)).
      apply (Hnone (c :: x :: u1) u2); [now rewrite E | discriminate | exact H2].
Qed.

End LazyRepetition.

(** The pattern of a formatting rule: a marker, a lazy group, the marker
    again. *)
Lemma pair_match (c : char) (m g rest : str) (prev : option char) :
  ~ In c g -> g <> [] -> one_line g ->
  match_at (List.map Lit (c :: m) ++ [Group false dot] ++ List.map Lit (c :: m)) prev
    ((c :: m) ++ g ++ (c :: m) ++ rest)
  = Some (g, rest).
Proof.
  intros Hin Hne Hl. unfold match_at. rewrite run_lits.
  cbn [app run]. apply plus_lazy_first; try assumption.
  - cbn [app]. change (Lit c :: List.map Lit m) with (List.map Lit (c :: m)).
    rewrite <- (app_nil_r (List.map Lit (c :: m))).
    change (c :: m ++ rest) with ((c :: m) ++ rest). now rewrite run_lits.
  - intros u1 u2 E _ H2. destruct u2 as [|x u2]; [congruence|].
    cbn [app run List.map]. destruct (N.eqb_spec x c) as [->|_]; [|reflexivity].
    exfalso. apply Hin. rewrite E. apply in_or_app. right. now left.
Qed.

Lemma sub_pair (c : char) (m pre post a g b : str) :
  ~ In c a -> ~ In c g -> ~ In c b -> g <> [] -> one_line g ->
  Re.sub (List.map Lit (c :: m) ++ [Group false dot] ++ List.map Lit (c :: m)) pre post
    (a ++ (c :: m) ++ g ++ (c :: m) ++ b)
  = a ++ pre ++ g ++ post ++ b.
Proof.
  intros Ha Hg Hb Hne Hl. unfold Re.sub.
  set (r := List.map Lit (c :: m) ++ [Group false dot] ++ List.map Lit (c :: m)).
  assert (Hr : first_lit r = Some c) by reflexivity.
  rewrite sub_scan_copy.
  - f_equal.
    pose proof (sub_scan_match r pre post c (m ++ g ++ (c :: m)) b g (after None a)) as H.
    rewrite <- !app_assoc in H. cbn [app] in *. rewrite <- ?app_assoc in H.
    rewrite H.
    + rewrite (sub_scan_absent r pre post c b) by assumption. reflexivity.
    + apply (pair_match c m g b (after None a)); assumption.
  - intros a1 x a2 E. apply run_first_lit with (c := c); [exact Hr|].
    intros ->. apply Ha. rewrite E. apply in_or_app. right. now left.
Qed.

Lemma single_marker_unmatched (a g b : str) :
  ~ In 42%N a -> ~ In 42%N g -> ~ In 42%N b -> g <> [] ->
  forall a1 x a2, a ++ lit "*" ++ g ++ lit "*" ++ b = a1 ++ x :: a2 ->
    match_at re_bold (after None a1) (x :: a2) = None.
Proof.
  intros Ha Hg Hb Hne a1 x a2 E.
  destruct (N.eqb_spec x 42%N) as [->|Hx];
    [|apply run_first_lit with (c := 42%N); [reflexivity | exact Hx]].
  destruct (marker_place 42%N a _ a1 a2 Ha E) as [r1 [E1 _]].
  assert (Hbold : re_bold = Lit 42%N :: Lit 42%N :: Group false dot :: lits "**")
    by reflexivity.
  assert (Hnext : forall y s, y <> 42%N ->
            match_at re_bold (after None a1) (42%N :: y :: s) = None).
  { intros y s Hy. unfold match_at. rewrite Hbold. cbn [run]. rewrite N.eqb_refl.
    destruct (N.eqb_spec y 42%N); [contradiction | reflexivity]. }
  assert (Hend : match_at re_bold (after None a1) [42%N] = None).
  { unfold match_at. rewrite Hbold. cbn [run]. now rewrite N.eqb_refl. }
  change (lit "*" ++ g ++ lit "*" ++ b) with (42%N :: g ++ 42%N :: b) in E1.
  destruct r1 as [|z r1]; cbn [app] in E1.
  - injection E1 as E1. subst a2. destruct g as [|y g]; [congruence|]. cbn [app].
    apply Hnext. intros ->. apply Hg. now left.
  - injection E1 as _ Ez.
    destruct (marker_place 42%N g _ r1 a2 Hg Ez) as [r2 [E2 _]].
    destruct r2 as [|w r2]; cbn [app] in E2.
    + injection E2 as E2. subst a2. destruct b as [|y b]; [exact Hend|].
      apply Hnext. intros ->. apply Hb. now left.
    + injection E2 as _ Eb. exfalso. apply Hb. rewrite Eb.
      apply in_or_app. right. now left.
Qed.

Lemma not_in_pieces (c : char) (a pre g post b : str) :
  ~ In c (a ++ g ++ b) -> ~ In c pre -> ~ In c post ->
  ~ In c (a ++ pre ++ g ++ post ++ b).
Proof.
  intros H Hpre Hpost Hin. apply H.
  apply in_app_or in Hin as [Hin|Hin]; [apply in_or_app; now left|].
  apply in_app_or in Hin as [Hin|Hin]; [contradiction|].
  apply in_app_or in Hin as [Hin|Hin];
    [apply in_or_app; right; apply in_or_app; now left|].
  apply in_app_or in Hin as [Hin|Hin]; [contradiction|].
  apply in_or_app; right; apply in_or_app; now right.
Qed.

Lemma one_line_paragraph (text : str) :
  ~ In 35%N text -> one_line (convert_formatting text) ->
  markdown_to_html text = join [nl] (block_html (convert_formatting text)).
Proof.
  intros Hh Hl. unfold markdown_to_html, html_paragraphs.
  rewrite convert_headings_plain by assumption.
  rewrite wrap_paragraphs_blocks. unfold Py.split.
  rewrite <- (app_nil_r (convert_formatting text)) at 1.
  rewrite py_split_line by assumption. cbn [Py.split_scan app List.map concat].
  now rewrite app_nil_r.
Qed.

Lemma one_line_pieces (a pre g post b : str) :
  one_line a -> one_line pre -> one_line g -> one_line post -> one_line b ->
  one_line (a ++ pre ++ g ++ post ++ b).
Proof. intros. rewrite !one_line_app. auto. Qed.

Section InlinePairs.

Variables a g b : str.
Hypothesis no_asterisk : ~ In 42%N (a ++ g ++ b).
Hypothesis no_underscore : ~ In 95%N (a ++ g ++ b).
Hypothesis group_not_empty : g <> [].
Hypothesis group_one_line : one_line g.

Lemma pieces_free (c : char) :
  ~ In c (a ++ g ++ b) -> ~ In c a /\ ~ In c g /\ ~ In c b.
Proof.
  intros H. repeat split; intros Hin; apply H.
  - apply in_or_app; now left.
  - apply in_or_app; right; apply in_or_app; now left.
  - apply in_or_app; right; apply in_or_app; now right.
Qed.

Lemma bold_pair :
  convert_formatting (a ++ lit "**" ++ g ++ lit "**" ++ b)
  = a ++ lit "<strong>" ++ g ++ lit "</strong>" ++ b.
Proof.
  destruct (pieces_free 42%N no_asterisk) as [Ha [Hg Hb]].
  unfold convert_formatting.
  pose proof (sub_pair 42%N [42%N] (lit "<strong>") (lit "</strong>") a g b
                Ha Hg Hb group_not_empty group_one_line) as H1.
  change (Re.sub re_bold (lit "<strong>") (lit "</strong>")
            (a ++ lit "**" ++ g ++ lit "**" ++ b)
          = a ++ lit "<strong>" ++ g ++ lit "</strong>" ++ b) in H1.
  rewrite H1.
  rewrite (sub_absent re_italic _ _ _ 42%N); [|reflexivity|].
  - apply (sub_absent re_underline _ _ _ 95%N); [reflexivity|].
    apply not_in_pieces; [assumption | |]; intros H; literal_free H.
  - apply not_in_pieces; [assumption | |]; intros H; literal_free H.
Qed.

Lemma italic_pair :
  convert_formatting (a ++ lit "*" ++ g ++ lit "*" ++ b)
  = a ++ lit "<em>" ++ g ++ lit "</em>" ++ b.
Proof.
  destruct (pieces_free 42%N no_asterisk) as [Ha [Hg Hb]].
  unfold convert_formatting.
  rewrite (sub_no_match re_bold)
    by (apply single_marker_unmatched; assumption).
  pose proof (sub_pair 42%N [] (lit "<em>") (lit "</em>") a g b
                Ha Hg Hb group_not_empty group_one_line) as H1.
  change (Re.sub re_italic (lit "<em>") (lit "</em>")
            (a ++ lit "*" ++ g ++ lit "*" ++ b)
          = a ++ lit "<em>" ++ g ++ lit "</em>" ++ b) in H1.
  rewrite H1.
  apply (sub_absent re_underline _ _ _ 95%N); [reflexivity|].
  apply not_in_pieces; [assumption | |]; intros H; literal_free H.
Qed.

Lemma underline_pair :
  convert_formatting (a ++ lit "__" ++ g ++ lit "__" ++ b)
  = a ++ lit "<u>" ++ g ++ lit "</u>" ++ b.
Proof.
  destruct (pieces_free 95%N no_underscore) as [Ha [Hg Hb]].
  unfold convert_formatting.
  rewrite (sub_absent re_bold _ _ _ 42%N); [|reflexivity|].
  - rewrite (sub_absent re_italic _ _ _ 42%N); [|reflexivity|].
    + exact (sub_pair 95%N [95%N] (lit "<u>") (lit "</u>") a g b
               Ha Hg Hb group_not_empty group_one_line).
    + apply not_in_pieces; [assumption | |]; intros H; literal_free H.
  - apply not_in_pieces; [assumption | |]; intros H; literal_free H.
Qed.

End InlinePairs.

(** X10. A formatting marker pair around a non-empty text on one line, in a
    text that holds no other asterisk or underscore: [**g**] becomes a
    [strong] element around [g], [*g*] an [em] element, [__g__] a [u]
    element, and the text before and after is kept. When the whole text is
    one line without a hash sign, the page body is that line as one
    block. *)
Theorem inline_pairs (a g b : str) :
  ~ In 42%N (a ++ g ++ b) -> ~ In 95%N (a ++ g ++ b) -> g <> [] -> one_line g ->
  convert_formatting (a ++ lit "**" ++ g ++ lit "**" ++ b)
  = a ++ lit "<strong>" ++ g ++ lit "</strong>" ++ b
  /\ convert_formatting (a ++ lit "*" ++ g ++ lit "*" ++ b)
     = a ++ lit "<em>" ++ g ++ lit "</em>" ++ b
  /\ convert_formatting (a ++ lit "__" ++ g ++ lit "__" ++ b)
     = a ++ lit "<u>" ++ g ++ lit "</u>" ++ b
  /\ (~ In 35%N (a ++ g ++ b) -> one_line a -> one_line b ->
      markdown_to_html (a ++ lit "**" ++ g ++ lit "**" ++ b)
      = join [nl] (block_html (a ++ lit "<strong>" ++ g ++ lit "</strong>" ++ b))
      /\ markdown_to_html (a ++ lit "*" ++ g ++ lit "*" ++ b)
         = join [nl] (block_html (a ++ lit "<em>" ++ g ++ lit "</em>" ++ b))
      /\ markdown_to_html (a ++ lit "__" ++ g ++ lit "__" ++ b)
         = join [nl] (block_html (a ++ lit "<u>" ++ g ++ lit "</u>" ++ b))).
Proof.
  intros H42 H95 Hne Hl.
  pose proof (bold_pair a g b H42 H95 Hne Hl) as Hb.
  pose proof (italic_pair a g b H42 H95 Hne Hl) as Hi.
  pose proof (underline_pair a g b H42 H95 Hne Hl) as Hu.
  split; [exact Hb|]. split; [exact Hi|]. split; [exact Hu|].
  intros H35 Ha Hbl. repeat split.
  - rewrite one_line_paragraph, Hb; [reflexivity | |].
    + apply not_in_pieces; [assumption | |]; intros H; literal_free H.
    + rewrite Hb. apply one_line_pieces; auto; reflexivity.
  - rewrite one_line_paragraph, Hi; [reflexivity | |].
    + apply not_in_pieces; [assumption | |]; intros H; literal_free H.
    + rewrite Hi. apply one_line_pieces; auto; reflexivity.
  - rewrite one_line_paragraph, Hu; [reflexivity | |].
    + apply not_in_pieces; [assumption | |]; intros H; literal_free H.
    + rewrite Hu. apply one_line_pieces; auto; reflexivity.
Qed.

(** X10 on a line with one bold pair. *)
Lemma inline_pairs_witness :
  markdown_to_html (lit "say **hello** now")
  = lit "<p>say <strong>hello</strong> now</p>".
Proof.
  destruct (inline_pairs (lit "say ") (lit "hello") (lit " now")) as [_ [_ [_ H]]].
  - intros H; literal_free H.
  - intros H; literal_free H.
  - discriminate.
  - reflexivity.
  - destruct H as [H _]; [intros H; literal_free H | reflexivity | reflexivity|].
    exact H.
Defined.

(** * C4: unmatched markers *)

(** The number of asterisks of a text. *)
Lemma stars_app (a b : str) :
  count_occ N.eq_dec (a ++ b) 42%N = count_occ N.eq_dec a 42%N + count_occ N.eq_dec b 42%N.
Proof. apply count_occ_app. Qed.

Lemma stars_none (a : str) : ~ In 42%N a -> count_occ N.eq_dec a 42%N = 0.
Proof. apply count_occ_not_In. Qed.

Lemma stars_suffix (s a1 a2 : str) :
  s = a1 ++ a2 -> count_occ N.eq_dec a2 42%N <= count_occ N.eq_dec s 42%N.
Proof. intros ->. rewrite stars_app. lia. Qed.

Lemma match_italic_line (prev : option char) (s g rest : str) :
  match_at re_italic prev s = Some (g, rest) ->
  s = lit "*" ++ g ++ lit "*" ++ rest /\ g <> [] /\ one_line g.
Proof.
  intros H. apply run_sound in H as [m [-> D]]. cbn in D.
  destruct D as [m1 [-> [u [m3 [-> [Hu [Hd D]]]]]]].
  destruct D as [m4 [-> [-> ->]]].
  split; [|split; [exact Hu | exact Hd]]. cbn. now rewrite <- !app_assoc.
Qed.

(** A bold match holds four asterisks. *)
Lemma bold_needs_four (prev : option char) (s : str) :
  count_occ N.eq_dec s 42%N < 4 -> match_at re_bold prev s = None.
Proof.
  intros H. destruct (match_at re_bold prev s) as [[g rest]|] eqn:E; [|reflexivity].
  exfalso. apply match_bold_inv in E as [-> _].
  rewrite !stars_app in H. change (count_occ N.eq_dec (lit "**") 42%N) with 2 in H. lia.
Qed.

Lemma sub_bold_few (s : str) :
  count_occ N.eq_dec s 42%N < 4 ->
  Re.sub re_bold (lit "<strong>") (lit "</strong>") s = s.
Proof.
  intros H. apply sub_no_match. intros a x b E. apply bold_needs_four.
  pose proof (stars_suffix s a (x :: b) E). lia.
Qed.

(** The italic pattern at the first asterisk of a pair, when one more
    asterisk follows on the same line. *)
Lemma italic_takes_pair (g rest : str) (prev : option char) :
  ~ In 42%N g -> one_line g ->
  match_at re_italic prev (lit "**" ++ g ++ lit "*" ++ rest)
  = Some (lit "*" ++ g, rest).
Proof.
  intros Hg Hl.
  change re_italic with (List.map Lit [42%N] ++ [Group false dot] ++ List.map Lit [42%N]).
  change (lit "**" ++ g ++ lit "*" ++ rest)
    with ([42%N] ++ (lit "*" ++ g) ++ [42%N] ++ rest).
  unfold match_at. rewrite run_lits. cbn [app run].
  change (42%N :: g ++ 42%N :: rest) with ((lit "*" ++ g) ++ [42%N] ++ rest).
  apply plus_lazy_first.
  - discriminate.
  - exact Hl.
  - cbn [app run List.map]. now rewrite N.eqb_refl.
  - intros u1 u2 E H1 H2. destruct u2 as [|x u2]; [congruence|].
    cbn [app run List.map]. destruct (N.eqb_spec x 42%N) as [->|_]; [|reflexivity].
    exfalso. apply Hg. destruct u1 as [|y u1]; [congruence|].
    cbn in E. injection E as _ E. rewrite E. apply in_or_app. right. now left.
Qed.

Lemma sub_italic_pair (a g b : str) :
  ~ In 42%N a -> ~ In 42%N g -> ~ In 42%N b -> one_line g ->
  Re.sub re_italic (lit "<em>") (lit "</em>") (a ++ lit "**" ++ g ++ lit "*" ++ b)
  = a ++ lit "<em>*" ++ g ++ lit "</em>" ++ b.
Proof.
  intros Ha Hg Hb Hl. unfold Re.sub.
  assert (Hr : first_lit re_italic = Some 42%N) by reflexivity.
  rewrite sub_scan_copy.
  - f_equal.
    pose proof (sub_scan_match re_italic (lit "<em>") (lit "</em>") 42%N
                  (42%N :: g ++ [42%N]) b (42%N :: g) (after None a)) as H.
    assert (Eq : lit "**" ++ g ++ lit "*" ++ b = 42%N :: (42%N :: g ++ [42%N]) ++ b)
      by (cbn [app]; rewrite <- app_assoc; reflexivity).
    rewrite Eq. etransitivity; [apply H|].
    + pose proof (italic_takes_pair g b (after None a) Hg Hl) as Hm.
      rewrite Eq in Hm. exact Hm.
    + rewrite (sub_scan_absent re_italic _ _ 42%N b) by assumption. reflexivity.
  - intros a1 x a2 E. apply run_first_lit with (c := 42%N); [exact Hr|].
    intros ->. apply Ha. rewrite E. apply in_or_app. right. now left.
Qed.

(** The italic pattern matches nowhere when the one asterisk that follows
    the pair stands on a later line. *)
Lemma italic_other_line (a g b : str) :
  ~ In 42%N a -> ~ In 42%N g -> ~ In 42%N b -> ~ one_line g ->
  forall a1 x a2, a ++ lit "**" ++ g ++ lit "*" ++ b = a1 ++ x :: a2 ->
    match_at re_italic (after None a1) (x :: a2) = None.
Proof.
  intros Ha Hg Hb Hl a1 x a2 E.
  destruct (N.eqb_spec x 42%N) as [->|Hx];
    [|apply run_first_lit with (c := 42%N); [reflexivity | exact Hx]].
  destruct (match_at re_italic (after None a1) (42%N :: a2)) as [[G rest]|] eqn:Em;
    [exfalso | first [reflexivity | exact Em]].
  apply match_italic_line in Em as [Es [HG HGl]]. cbn [app] in Es.
  change (lit "*" ++ G ++ lit "*" ++ rest) with (42%N :: G ++ 42%N :: rest) in Es.
  injection Es as Es. subst a2.
  destruct (marker_place 42%N a _ a1 _ Ha E) as [r1 [E1 _]].
  change (lit "**" ++ g ++ lit "*" ++ b) with (42%N :: 42%N :: g ++ 42%N :: b) in E1.
  assert (Hgroup : forall G' rest', one_line G' -> g ++ 42%N :: b = G' ++ 42%N :: rest' -> False).
  { intros G' rest' HG' E'.
    destruct (marker_place 42%N g _ G' rest' Hg E') as [r2 [E2 E3]].
    destruct r2 as [|y r2].
    - rewrite app_nil_r in E3. subst G'. contradiction.
    - cbn in E2. injection E2 as _ E2. apply Hb. rewrite E2.
      apply in_or_app. right. now left. }
  destruct r1 as [|y1 r1]; cbn [app] in E1.
  - injection E1 as E1. destruct G as [|c G]; [congruence|].
    cbn [app] in E1. injection E1 as <- E1.
    apply one_line_cons in HGl as [_ HGl]. now apply (Hgroup G rest).
  - injection E1 as _ E1. destruct r1 as [|y2 r1]; cbn [app] in E1.
    + injection E1 as E1. now apply (Hgroup G rest).
    + injection E1 as _ E1.
      destruct (marker_place 42%N g _ r1 _ Hg E1) as [r2 [E2 _]].
      destruct r2 as [|y3 r2]; cbn [app] in E2.
      * injection E2 as E2. apply Hb. rewrite E2. apply in_or_app. right. now left.
      * injection E2 as _ E2. apply Hb. rewrite E2. apply in_or_app. right. now left.
Qed.

Lemma paragraphs_only (text : str) :
  ~ In 35%N text -> ~ In 95%N text ->
  Re.sub re_bold (lit "<strong>") (lit "</strong>") text = text ->
  forall text',
  Re.sub re_italic (lit "<em>") (lit "</em>") text = text' ->
  ~ In 95%N text' ->
  markdown_to_html text
  = join [nl] (concat (List.map block_html (Py.split blank_line text'))).
Proof.
  intros H35 H95 Hb text' Hi H95'.
  unfold markdown_to_html, html_paragraphs.
  rewrite convert_headings_plain by exact H35.
  unfold convert_formatting. rewrite Hb, Hi.
  rewrite (sub_absent re_underline _ _ _ 95%N) by first [reflexivity | exact H95'].
  now rewrite wrap_paragraphs_blocks.
Qed.

Lemma in_pieces (c : char) (a m b : str) :
  In c (a ++ m ++ b) <-> In c a \/ In c m \/ In c b.
Proof. rewrite !in_app_iff. tauto. Qed.




(** * C7: the round trip *)

(** ** Text nodes written out *)

Lemma escape_char_first (c : char) :
  exists x rest, escape_char c = x :: rest
    /\ (x = 38%N <-> (c = 38%N \/ c = 60%N \/ c = 62%N)).
Proof.
  unfold escape_char.
  destruct (N.eqb_spec c 38%N) as [->|H38];
    [eexists; eexists; split; [reflexivity | tauto]|].
  destruct (N.eqb_spec c 60%N) as [->|H60];
    [eexists; eexists; split; [reflexivity | tauto]|].
  destruct (N.eqb_spec c 62%N) as [->|H62];
    [eexists; eexists; split; [reflexivity | tauto]|].
  exists c, []. split; [reflexivity|]. split; [tauto|]. intros [H|[H|H]]; congruence.
Qed.

(** Two texts written alike are the same text. *)
Lemma escape_inj (s1 s2 : str) : escape s1 = escape s2 -> s1 = s2.
Proof.
  revert s2. induction s1 as [|c1 s1 IH]; intros [|c2 s2] E.
  - reflexivity.
  - exfalso. unfold escape in E. cbn [List.map concat] in E.
    destruct (escape_char_first c2) as [x [r [Ex _]]]. rewrite Ex in E. discriminate.
  - exfalso. unfold escape in E. cbn [List.map concat] in E.
    destruct (escape_char_first c1) as [x [r [Ex _]]]. rewrite Ex in E. discriminate.
  - unfold escape in E. cbn [List.map concat] in E.
    fold (escape s1) in E. fold (escape s2) in E.
    assert (H : c1 = c2 /\ escape s1 = escape s2).
    { unfold escape_char in E.
      change (lit "&amp;") with (38%N :: 97%N :: lit "mp;") in E.
      change (lit "&lt;") with (38%N :: 108%N :: lit "t;") in E.
      change (lit "&gt;") with (38%N :: 103%N :: lit "t;") in E.
      destruct (N.eqb_spec c1 38%N) as [->|H1], (N.eqb_spec c2 38%N) as [->|H2].
      - split; [reflexivity|]. now apply app_inv_head in E.
      - destruct (N.eqb_spec c2 60%N) as [->|H3]; [discriminate|].
        destruct (N.eqb_spec c2 62%N) as [->|H4]; [discriminate|].
        cbn [app] in E. injection E as E _. congruence.
      - destruct (N.eqb_spec c1 60%N) as [->|H3]; [discriminate|].
        destruct (N.eqb_spec c1 62%N) as [->|H4]; [discriminate|].
        cbn [app] in E. injection E as E _. congruence.
      - destruct (N.eqb_spec c1 60%N) as [->|H3], (N.eqb_spec c2 60%N) as [->|H4].
        + split; [reflexivity|]. now apply app_inv_head in E.
        + destruct (N.eqb_spec c2 62%N) as [->|H5]; [discriminate|].
          cbn [app] in E. injection E as E _. congruence.
        + destruct (N.eqb_spec c1 62%N) as [->|H5]; [discriminate|].
          cbn [app] in E. injection E as E _. congruence.
        + destruct (N.eqb_spec c1 62%N) as [->|H5], (N.eqb_spec c2 62%N) as [->|H6].
          * split; [reflexivity|]. now apply app_inv_head in E.
          * cbn [app] in E. injection E as E _. congruence.
          * cbn [app] in E. injection E as E _. congruence.
          * cbn [app] in E. injection E as -> E. auto. }
    destruct H as [-> H]. f_equal. now apply IH.
Qed.

Lemma first_marker_unique (c : char) (n1 n2 x1 x2 : str) :
  ~ In c n1 -> ~ In c n2 -> n1 ++ c :: x1 = n2 ++ c :: x2 -> n1 = n2 /\ x1 = x2.
Proof.
  revert n2. induction n1 as [|a n1 IH]; intros [|b n2] H1 H2 E.
  - injection E as E. auto.
  - exfalso. injection E as <- _. apply H2. now left.
  - exfalso. injection E as -> _. apply H1. now left.
  - injection E as -> E.
    destruct (IH n2 (fun H => H1 (or_intror H)) (fun H => H2 (or_intror H)) E)
      as [-> ->].
    auto.
Qed.

Lemma element_form (name inner : str) :
  open_tag name ++ inner ++ close_tag name
  = 60%N :: name ++ 62%N :: inner ++ lit "</" ++ name ++ [62%N].
Proof.
  unfold open_tag, close_tag.
  change (lit "<") with [60%N]. change (lit ">") with [62%N].
  rewrite <- !app_assoc. reflexivity.
Qed.

(** The markup of an element that holds text only tells its name and its
    text. *)
Lemma render_element_inj (name1 name2 text1 text2 : str) :
  ~ In 62%N name1 -> ~ In 62%N name2 ->
  render (Tag name1 [Text text1]) = render (Tag name2 [Text text2]) ->
  name1 = name2 /\ text1 = text2.
Proof.
  intros H1 H2 E. rewrite !render_element, !element_form in E. injection E as E.
  apply first_marker_unique in E as [<- E]; try assumption.
  split; [reflexivity|]. apply app_inv_tail in E. now apply escape_inj.
Qed.

(** ** An inline element at the end of a flat document *)

Lemma join_snoc (sep : str) (ls : list str) (x : str) :
  join sep (ls ++ [x]) = concat (List.map (fun l => l ++ sep) ls) ++ x.
Proof.
  induction ls as [|l ls IH]; [reflexivity|].
  cbn [app List.map concat]. rewrite <- app_assoc, <- IH.
  destruct ls; cbn [app join]; now rewrite <- ?app_assoc.
Qed.

Lemma find_all_app (names : list str) (s1 s2 : list node) :
  find_all names (s1 ++ s2) = find_all names s1 ++ find_all names s2.
Proof. unfold find_all. now rewrite map_app, concat_app, List.filter_app. Qed.

Lemma markup_flat (doc : list block) :
  Forall plain_block doc ->
  concat (List.map element_markup (List.map block_node doc))
  = concat (List.map (fun l => l ++ blank_line) (concat (List.map (stage 0) doc))).
Proof.
  induction 1 as [|b doc Hb _ IH]; [reflexivity|].
  cbn [List.map concat]. rewrite IH, element_markup_block by assumption.
  now rewrite map_app, concat_app.
Qed.

Lemma blocks_round_trip (doc : list block) :
  Forall plain_block doc ->
  concat (List.map block_html (concat (List.map (stage 3) doc)))
  = concat (List.map round_trip doc).
Proof.
  induction 1 as [|b doc Hb _ IH]; [reflexivity|].
  cbn [List.map concat]. rewrite map_app, concat_app, IH.
  now rewrite round_trip_stage.
Qed.

Lemma inline_marker_names (name marker back : str) :
  inline_marker name = Some (marker, back) ->
  marker_pair marker back
  /\ (name = lit "strong" \/ name = lit "b" \/ name = lit "em" \/ name = lit "i"
      \/ name = lit "u").
Proof.
  unfold inline_marker, marker_pair, name_in. cbn [existsb]. rewrite !orb_false_r.
  destruct (str_eqb name (lit "strong")) eqn:E1.
  { apply str_eqb_eq in E1. intros [= <- <-]. auto. }
  destruct (str_eqb name (lit "b")) eqn:E2.
  { apply str_eqb_eq in E2. intros [= <- <-]. auto. }
  cbn [orb].
  destruct (str_eqb name (lit "em")) eqn:E3.
  { apply str_eqb_eq in E3. intros [= <- <-]. auto 6. }
  destruct (str_eqb name (lit "i")) eqn:E4.
  { apply str_eqb_eq in E4. intros [= <- <-]. auto 6. }
  cbn [orb].
  destruct (str_eqb name (lit "u")) eqn:E5; [|discriminate].
  apply str_eqb_eq in E5. intros [= <- <-]. auto 7.
Qed.

Lemma inline_markup (name marker back t : str) :
  inline_marker name = Some (marker, back) ->
  find_all markup_names [Tag name [Text t]] = [Tag name [Text t]]
  /\ element_markup (Tag name [Text t]) = marker ++ strip t ++ marker.
Proof.
  intros H. pose proof H as H'. apply inline_marker_names in H' as [_ Hn].
  assert (Ht : get_text (Tag name [Text t]) = t).
  { cbn [get_text List.map concat]. now rewrite app_nil_r. }
  destruct Hn as [-> | [-> | [-> | [-> | ->]]]]; injection H as <- <-;
    (split; [reflexivity | unfold element_markup; rewrite Ht; reflexivity]).
Qed.

Section InlineTail.

Variable doc : list block.
Variables marker back g : str.
Hypothesis flat : Forall plain_block doc.
Hypothesis pair : marker_pair marker back.
Hypothesis text_plain : plain_text g.
Hypothesis text_free : entity_free g.
Hypothesis text_not_empty : g <> [].

Lemma marker_line (k : nat) :
  one_line (marker ++ g ++ marker) /\ marker ++ g ++ marker <> []
  /\ trimmed (marker ++ g ++ marker)
  /\ forall prev rest, match_at (re_heading (S k)) prev ((marker ++ g ++ marker) ++ rest)
                       = None.
Proof.
  destruct text_plain as [Hl _].
  assert (Hform : exists c w, c <> 35%N /\ isspace c = false /\ one_line (c :: w)
                              /\ marker = c :: w
                              /\ exists w', marker = w' ++ [c]).
  { destruct pair as [[-> _]|[[-> _]|[-> _]]].
    - exists 42%N, [42%N]. repeat split; try discriminate. now exists [42%N].
    - exists 42%N, []. repeat split; try discriminate. now exists [].
    - exists 95%N, [95%N]. repeat split; try discriminate. now exists [95%N]. }
  destruct Hform as [c [w [Hc [Hs [Hlm [Em [w' Em']]]]]]].
  split; [|split; [|split]].
  - rewrite !one_line_app. rewrite Em. auto.
  - rewrite Em. discriminate.
  - rewrite Em at 1. rewrite Em'. cbn [app].
    rewrite !app_assoc. apply trimmed_ends; assumption.
  - intros prev rest. rewrite Em. cbn [app]. apply heading_no_match_other. exact Hc.
Qed.

Lemma tail_lines :
  Forall (fun l => l <> [] /\ trimmed l)
    (concat (List.map (stage 0) doc) ++ [marker ++ g ++ marker]).
Proof.
  apply List.Forall_app. split; [now apply stage_lines|].
  destruct (marker_line 0) as [_ [H1 [H2 _]]]. repeat constructor; assumption.
Qed.

Lemma tail_headings :
  convert_headings
    (join blank_line (concat (List.map (stage 0) doc) ++ [marker ++ g ++ marker]))
  = join blank_line (concat (List.map (stage 3) doc) ++ [marker ++ g ++ marker]).
Proof.
  assert (Hk : forall k,
            Forall2 (line_result (re_heading (S k))
                       (open_tag (heading_name (S k))) (close_tag (heading_name (S k))))
              (concat (List.map (stage k) doc) ++ [marker ++ g ++ marker])
              (concat (List.map (stage (S k)) doc) ++ [marker ++ g ++ marker])).
  { intros k. apply List.Forall2_app; [now apply heading_rule_stage|].
    constructor; [|constructor].
    destruct (marker_line k) as [H1 [H2 [_ H3]]].
    split; [exact H1|]. split; [exact H2|]. left. split; [reflexivity|].
    intros prev rest _ _. apply H3. }
  unfold convert_headings, Re.sub.
  rewrite (sub_lines (re_heading 1) (lit "<h1>") (lit "</h1>") _ _ None eq_refl eq_refl
             (Hk 0) eq_refl).
  rewrite (sub_lines (re_heading 2) (lit "<h2>") (lit "</h2>") _ _ None eq_refl eq_refl
             (Hk 1) eq_refl).
  apply (sub_lines (re_heading 3) (lit "<h3>") (lit "</h3>") _ _ None eq_refl eq_refl
           (Hk 2) eq_refl).
Qed.

Lemma terminated_no_marker (c : char) :
  c = 42%N \/ c = 95%N ->
  ~ In c (concat (List.map (fun l => l ++ blank_line)
                    (concat (List.map (stage 3) doc)))).
Proof.
  intros Hc. destruct (concat (List.map (stage 3) doc)) as [|l ls] eqn:E;
    [intros []|].
  rewrite join_terminated by discriminate. rewrite <- E. intros H.
  apply in_app_or in H as [H|H].
  - revert H. now apply stage_no_marker.
  - destruct Hc as [-> | ->]; destruct H as [H|[H|[]]]; discriminate.
Qed.

Lemma tail_formatting :
  convert_formatting
    (join blank_line (concat (List.map (stage 3) doc) ++ [marker ++ g ++ marker]))
  = join blank_line
      (concat (List.map (stage 3) doc) ++ [open_tag back ++ g ++ close_tag back]).
Proof.
  rewrite !join_snoc.
  set (a := concat (List.map (fun l => l ++ blank_line)
                      (concat (List.map (stage 3) doc)))).
  destruct text_plain as [Hl [H42 H95]].
  assert (Hfree : forall c, c = 42%N \/ c = 95%N -> ~ In c g -> ~ In c (a ++ g ++ [])).
  { intros c Hc Hg H. apply in_app_or in H as [H|H].
    - revert H. now apply terminated_no_marker.
    - rewrite app_nil_r in H. contradiction. }
  destruct pair as [[-> ->]|[[-> ->]|[-> ->]]].
  - pose proof (bold_pair a g [] (Hfree _ (or_introl eq_refl) H42)
                  (Hfree _ (or_intror eq_refl) H95) text_not_empty Hl) as H.
    rewrite !app_nil_r in H. exact H.
  - pose proof (italic_pair a g [] (Hfree _ (or_introl eq_refl) H42)
                  (Hfree _ (or_intror eq_refl) H95) text_not_empty Hl) as H.
    rewrite !app_nil_r in H. exact H.
  - pose proof (underline_pair a g [] (Hfree _ (or_introl eq_refl) H42)
                  (Hfree _ (or_intror eq_refl) H95) text_not_empty Hl) as H.
    rewrite !app_nil_r in H. exact H.
Qed.

Lemma tail_block :
  one_line (open_tag back ++ g ++ close_tag back)
  /\ block_html (open_tag back ++ g ++ close_tag back)
     = [render (Tag (lit "p") [Tag back [Text g]])].
Proof.
  destruct text_plain as [Hl _].
  assert (Hr : render (Tag (lit "p") [Tag back [Text g]])
               = lit "<p>" ++ (open_tag back ++ g ++ close_tag back) ++ lit "</p>").
  { cbn [render List.map concat]. rewrite !app_nil_r, (escape_plain g text_free).
    reflexivity. }
  assert (Hform : open_tag back ++ g ++ close_tag back
                  = 60%N :: (back ++ 62%N :: g ++ lit "</" ++ back) ++ [62%N]).
  { rewrite element_form. f_equal. rewrite <- app_assoc. cbn [app].
    now rewrite <- !app_assoc. }
  assert (Hback : one_line back
                  /\ startswith (open_tag back ++ g ++ close_tag back) (lit "<h")
                     = false).
  { destruct pair as [[_ ->]|[[_ ->]|[_ ->]]]; split; reflexivity. }
  destruct Hback as [Hbl Hh]. split.
  - unfold open_tag, close_tag. rewrite !one_line_app. repeat split; auto.
  - rewrite Hr, block_html_trimmed, Hh; [reflexivity| |].
    + rewrite Hform. discriminate.
    + rewrite Hform. now apply trimmed_ends.
Qed.

(** The way back of a markup that ends with a marked text. *)
Lemma tail_round_trip :
  markdown_to_html
    (join blank_line (concat (List.map (stage 0) doc) ++ [marker ++ g ++ marker]))
  = join [nl] (concat (List.map round_trip doc)
               ++ [render (Tag (lit "p") [Tag back [Text g]])]).
Proof.
  unfold markdown_to_html, html_paragraphs.
  rewrite tail_headings, tail_formatting, wrap_paragraphs_blocks.
  destruct tail_block as [Hl Hb].
  rewrite blocks_of_join.
  - rewrite map_app, concat_app. cbn [List.map concat].
    rewrite app_nil_r, Hb. now rewrite blocks_round_trip.
  - apply List.Forall_app. split; [now apply stage_one_line|].
    repeat constructor. exact Hl.
Qed.

End InlineTail.

(** ** From the tree to the markup *)

Lemma markup_inline_last (doc : list block) (name marker back t : str) :
  Forall plain_block doc ->
  inline_marker name = Some (marker, back) ->
  plain_text (strip t) -> strip t <> [] ->
  html_to_markdown (List.map block_node doc ++ [Tag name [Text t]])
  = join blank_line (concat (List.map (stage 0) doc) ++ [marker ++ strip t ++ marker]).
Proof.
  intros Hdoc Hm Hp Hne. destruct (inline_markup name marker back t Hm) as [Hf He].
  destruct (inline_marker_names name marker back Hm) as [Hpair _].
  unfold html_to_markdown.
  rewrite find_all_app, find_all_flat, Hf by assumption.
  rewrite fold_markup. cbn [app]. rewrite map_app, concat_app.
  cbn [List.map concat]. rewrite app_nil_r, markup_flat, He, <- join_snoc by assumption.
  apply trimmed_strip. apply trimmed_join.
  - now apply (tail_lines doc marker back (strip t)).
  - intros E. apply app_eq_nil in E as [_ E]. discriminate.
Qed.

Lemma markup_paragraph_last (doc : list block) (name marker back a t b : str) :
  Forall plain_block doc ->
  inline_marker name = Some (marker, back) ->
  plain_text (strip t) -> strip t <> [] ->
  plain_block (Paragraph (a ++ t ++ b)) -> strip (a ++ t ++ b) <> [] ->
  html_to_markdown
    (List.map block_node doc ++ [Tag (lit "p") [Text a; Tag name [Text t]; Text b]])
  = join blank_line
      (concat (List.map (stage 0) (doc ++ [Paragraph (a ++ t ++ b)]))
       ++ [marker ++ strip t ++ marker]).
Proof.
  intros Hdoc Hm Hp Hne Hpar Hne'.
  destruct (inline_markup name marker back t Hm) as [_ He].
  destruct (inline_marker_names name marker back Hm) as [Hpair Hn].
  assert (Hf : find_all markup_names [Tag (lit "p") [Text a; Tag name [Text t]; Text b]]
               = [Tag (lit "p") [Text a; Tag name [Text t]; Text b]; Tag name [Text t]]).
  { destruct Hn as [-> | [-> | [-> | [-> | ->]]]]; reflexivity. }
  assert (Hmark : element_markup (Tag (lit "p") [Text a; Tag name [Text t]; Text b])
                  = strip (a ++ t ++ b) ++ blank_line).
  { unfold element_markup.
    change (tag_name (Tag (lit "p") [Text a; Tag name [Text t]; Text b]))
      with (lit "p").
    change (name_in (lit "p") heading_names) with false.
    change (str_eqb (lit "p") (lit "p")) with true. cbv iota.
    assert (Et : get_text (Tag (lit "p") [Text a; Tag name [Text t]; Text b])
                 = a ++ t ++ b).
    { cbn [get_text List.map concat]. now rewrite !app_nil_r. }
    rewrite Et. destruct (strip (a ++ t ++ b)); [congruence | reflexivity]. }
  assert (Hstage : stage 0 (Paragraph (a ++ t ++ b)) = [strip (a ++ t ++ b)]).
  { cbn [stage]. destruct (strip (a ++ t ++ b)); [congruence | reflexivity]. }
  assert (Hall : Forall plain_block (doc ++ [Paragraph (a ++ t ++ b)])).
  { apply List.Forall_app. split; [exact Hdoc | constructor; [exact Hpar | constructor]]. }
  unfold html_to_markdown.
  rewrite find_all_app, find_all_flat, Hf by assumption.
  rewrite fold_markup. cbn [app]. rewrite map_app, concat_app.
  cbn [List.map concat]. rewrite app_nil_r, markup_flat, Hmark, He by assumption.
  rewrite (map_app (stage 0)), concat_app. cbn [List.map concat].
  rewrite Hstage, app_nil_r, join_snoc.
  rewrite (map_app (fun l => l ++ blank_line)), concat_app. cbn [List.map concat].
  rewrite app_nil_r, <- !app_assoc.
  assert (Hj : concat (List.map (fun l => l ++ blank_line)
                         (concat (List.map (stage 0) doc)))
               ++ strip (a ++ t ++ b) ++ blank_line ++ marker ++ strip t ++ marker
               = join blank_line
                   (concat (List.map (stage 0) (doc ++ [Paragraph (a ++ t ++ b)]))
                    ++ [marker ++ strip t ++ marker])).
  { rewrite join_snoc, (map_app (stage 0)), concat_app. cbn [List.map concat].
    rewrite Hstage, app_nil_r.
    rewrite (map_app (fun l => l ++ blank_line)), concat_app. cbn [List.map concat].
    now rewrite app_nil_r, <- !app_assoc. }
  rewrite Hj. apply trimmed_strip. apply trimmed_join.
  - now apply (tail_lines _ marker back (strip t)).
  - intros E. apply app_eq_nil in E as [_ E]. discriminate.
Qed.

(** ** The claim *)




(** * An inline element inside a paragraph *)

Lemma trimmed_app_marker (s w : str) (d : char) :
  trimmed s -> s <> [] -> isspace d = false -> trimmed (s ++ w ++ [d]).
Proof.
  intros Hs Hne Hd. destruct s as [|c s]; [congruence|]. destruct Hs as [Hc _].
  cbn [app]. rewrite app_assoc. now apply trimmed_ends.
Qed.

Section InlineElement.

Variables a t b : str.
Hypothesis paragraph_not_empty : strip (a ++ t ++ b) <> [].

Lemma paragraph_then_inline (name marker : str) (d : char) (w : str) :
  marker = w ++ [d] -> isspace d = false ->
  find_all markup_names [Tag (lit "p") [Text a; Tag name [Text t]; Text b]]
  = [Tag (lit "p") [Text a; Tag name [Text t]; Text b]; Tag name [Text t]] ->
  element_markup (Tag name [Text t]) = marker ++ strip t ++ marker ->
  html_to_markdown [Tag (lit "p") [Text a; Tag name [Text t]; Text b]]
  = strip (a ++ t ++ b) ++ blank_line ++ marker ++ strip t ++ marker.
Proof.
  intros Em Hd Hfind Hmark. unfold html_to_markdown. rewrite Hfind.
  cbn [fold_left app]. rewrite Hmark.
  assert (Hp : element_markup (Tag (lit "p") [Text a; Tag name [Text t]; Text b])
               = strip (a ++ t ++ b) ++ blank_line).
  { unfold element_markup.
    change (tag_name (Tag (lit "p") [Text a; Tag name [Text t]; Text b]))
      with (lit "p").
    change (name_in (lit "p") heading_names) with false.
    change (str_eqb (lit "p") (lit "p")) with true. cbv iota.
    assert (Et : get_text (Tag (lit "p") [Text a; Tag name [Text t]; Text b])
                 = a ++ t ++ b).
    { cbn [get_text List.map concat]. now rewrite !app_nil_r. }
    rewrite Et. destruct (strip (a ++ t ++ b)); [congruence | reflexivity]. }
  rewrite Hp, <- app_assoc. apply trimmed_strip.
  subst marker.
  match goal with |- trimmed ?x =>
    replace x
      with (strip (a ++ t ++ b) ++ (blank_line ++ (w ++ [d]) ++ strip t ++ w) ++ [d])
      by (rewrite <- ?app_assoc; reflexivity)
  end.
  apply trimmed_app_marker; [apply strip_trimmed | assumption | assumption].
Qed.

End InlineElement.

(** X11. An inline element inside a paragraph is written twice. The
    paragraph gives its whole text without any marker, the inline element
    its own text between markers, and the marked text comes after the
    paragraph, separated from it by a blank line, instead of standing in
    its place. *)
Theorem inline_element_is_repeated (a t b : str) :
  strip (a ++ t ++ b) <> [] ->
  html_to_markdown [Tag (lit "p") [Text a; Tag (lit "strong") [Text t]; Text b]]
  = strip (a ++ t ++ b) ++ blank_line ++ lit "**" ++ strip t ++ lit "**"
  /\ html_to_markdown [Tag (lit "p") [Text a; Tag (lit "b") [Text t]; Text b]]
     = strip (a ++ t ++ b) ++ blank_line ++ lit "**" ++ strip t ++ lit "**"
  /\ html_to_markdown [Tag (lit "p") [Text a; Tag (lit "em") [Text t]; Text b]]
     = strip (a ++ t ++ b) ++ blank_line ++ lit "*" ++ strip t ++ lit "*"
  /\ html_to_markdown [Tag (lit "p") [Text a; Tag (lit "i") [Text t]; Text b]]
     = strip (a ++ t ++ b) ++ blank_line ++ lit "*" ++ strip t ++ lit "*"
  /\ html_to_markdown [Tag (lit "p") [Text a; Tag (lit "u") [Text t]; Text b]]
     = strip (a ++ t ++ b) ++ blank_line ++ lit "__" ++ strip t ++ lit "__".
Proof.
  intros Hne.
  assert (Ht : forall name, get_text (Tag name [Text t]) = t).
  { intros name. cbn [get_text List.map concat]. now rewrite app_nil_r. }
  repeat split.
  - apply (paragraph_then_inline a t b Hne _ _ 42%N [42%N]); try reflexivity.
    unfold element_markup. rewrite Ht. reflexivity.
  - apply (paragraph_then_inline a t b Hne _ _ 42%N [42%N]); try reflexivity.
    unfold element_markup. rewrite Ht. reflexivity.
  - apply (paragraph_then_inline a t b Hne _ _ 42%N []); try reflexivity.
    unfold element_markup. rewrite Ht. reflexivity.
  - apply (paragraph_then_inline a t b Hne _ _ 42%N []); try reflexivity.
    unfold element_markup. rewrite Ht. reflexivity.
  - apply (paragraph_then_inline a t b Hne _ _ 95%N [95%N]); try reflexivity.
    unfold element_markup. rewrite Ht. reflexivity.
Qed.

(** X11 on a paragraph with one [strong] element. *)
Lemma inline_element_is_repeated_witness :
  html_to_markdown
    [Tag (lit "p") [Text (lit "a "); Tag (lit "strong") [Text (lit "word")];
                    Text (lit " b")]]
  = lit "a word b" ++ blank_line ++ lit "**word**".
Proof.
  destruct (inline_element_is_repeated (lit "a ") (lit "word") (lit " b")) as [H _].
  - discriminate.
  - exact H.
Defined.

(** * The formatting tags and the delimiters of a save *)

Section Spans.

Variable r : regex.

(** [re.split] cuts at the matches [re.finditer] finds. *)
Lemma split_scan_spans (s : str) (prev : option char) (skip pos : nat) (cur : str) :
  length (Re.split_scan r prev skip cur s)
  = 1 + 2 * length (finditer_scan r prev skip pos s).
Proof.
  revert prev skip pos cur. induction s as [|c s IH]; intros prev skip pos cur;
    [reflexivity|].
  cbn [Re.split_scan finditer_scan]. destruct skip as [|n]; [|apply IH].
  destruct (match_at r prev (c :: s)) as [[g rest]|].
  - cbn [length]. rewrite (IH _ _ (S pos)). lia.
  - apply IH.
Qed.

(** Every span is a match of the pattern at its start. *)
Lemma finditer_scan_match (s : str) (prev : option char) (skip pos : nat)
    (x y : nat) :
  In (x, y) (finditer_scan r prev skip pos s) ->
  exists pre m rest g,
    s = pre ++ m ++ rest /\ x = pos + length pre /\ y = x + length m
    /\ match_at r (after prev pre) (m ++ rest) = Some (g, rest).
Proof.
  revert prev skip pos. induction s as [|c s IH]; intros prev skip pos H;
    [destruct H|].
  assert (Htail : forall k,
            In (x, y) (finditer_scan r (Some c) k (S pos) s) ->
            exists pre m rest g,
              c :: s = pre ++ m ++ rest /\ x = pos + length pre /\ y = x + length m
              /\ match_at r (after prev pre) (m ++ rest) = Some (g, rest)).
  { intros k Hk. destruct (IH _ _ _ Hk) as [pre [m [rest [g [E [Hx [Hy Hm]]]]]]].
    exists (c :: pre), m, rest, g. repeat split.
    - now rewrite E.
    - cbn [length]. lia.
    - exact Hy.
    - exact Hm. }
  cbn [finditer_scan] in H. destruct skip as [|n]; [|now apply (Htail n)].
  destruct (match_at r prev (c :: s)) as [[g rest]|] eqn:Hm; [|now apply (Htail 0)].
  destruct H as [H|H]; [|eapply Htail; exact H].
  injection H as <- <-.
  destruct (run_sound r [] prev (c :: s) g rest Hm) as [m [E _]].
  pose proof (f_equal (@length char) E) as El. rewrite length_app in El.
  exists [], m, rest, g. repeat split.
  - exact E.
  - cbn [length]. lia.
  - cbn [length] in *. lia.
  - rewrite <- E. exact Hm.
Qed.

End Spans.

Lemma lines_terminated (s : str) : lines (s ++ [nl]) = lines s ++ [[]].
Proof. apply (lines_app_nl s []). Qed.

Lemma finditer_delimiter_count (s : str) :
  length (finditer re_delimiter s) = count_delimiters (lines s).
Proof.
  pose proof (split_scan_spans re_delimiter s None 0 0 []) as H.
  fold (Re.split re_delimiter s) in H. fold (finditer re_delimiter s) in H.
  rewrite split_lines, sections_length in H. lia.
Qed.

(** X12. The ranges tagged as chapter separators in the widget are the
    delimiter lines of its text: there are as many ranges as lines of the
    form [=== title ===], each range covers one whole such line, and,
    when the text of the editor starts and ends with characters that are
    not white space, a save in the full-book view finds one title for
    each tagged range. *)
Theorem separators_are_delimiters (content : str) :
  length (tag_chapter_separator (apply_text_formatting content))
  = count_delimiters (lines content)
  /\ (forall x y,
        In (x, y) (tag_chapter_separator (apply_text_formatting content)) ->
        exists pre title rest,
          content = pre ++ delimiter_line title ++ rest
          /\ x = length pre /\ y = x + length (delimiter_line title)
          /\ delimiter_ready title
          /\ at_bol (after None pre) = true /\ at_eol rest = true)
  /\ (forall e,
        content = editor_get e -> trimmed (editor_text e) ->
        length (chapter_sections e)
        = 1 + 2 * length (tag_chapter_separator (apply_text_formatting content))).
Proof.
  cbn [apply_text_formatting tag_chapter_separator].
  split; [apply finditer_delimiter_count|]. split.
  - intros x y H.
    destruct (finditer_scan_match re_delimiter content None 0 0 x y H)
      as [pre [m [rest [g [E [Hx [Hy Hm]]]]]]].
    apply match_delimiter_inv in Hm as [Hb [Em [Hg [Hl He]]]].
    apply app_inv_tail in Em. subst m.
    exists pre, g, rest. repeat split; auto.
  - intros e -> Ht. rewrite sections_count, finditer_delimiter_count.
    unfold editor_get.
    rewrite strip_app_spaces by repeat constructor.
    rewrite (trimmed_strip _ Ht), lines_terminated, count_delimiters_app.
    change (count_delimiters [[]]) with 0. lia.
Qed.

(** * The text above the first delimiter *)

Lemma commit_loop_above (chs : list chapter) (s1 s2 : list str)
    (k j0 : nat) (st : list item * nat) :
  length s1 = length s2 ->
  (forall j, 0 < j -> nth (2 * j) s1 [] = nth (2 * j) s2 []) ->
  commit_loop chs s1 k (2 * j0 + 1) st = commit_loop chs s2 k (2 * j0 + 1) st.
Proof.
  intros Hlen Heven. revert j0 st. induction k as [|k IH]; intros j0 st; [reflexivity|].
  rewrite !commit_loop_step.
  replace (2 * j0 + 1 + 2) with (2 * (j0 + 1) + 1) by lia. rewrite <- IH.
  f_equal. unfold write_section, section_page, section_body. destruct st as [book c].
  destruct (chs !! c); [|reflexivity].
  rewrite Hlen. replace (2 * j0 + 1 + 1) with (2 * (j0 + 1)) by lia.
  now rewrite Heven by lia.
Qed.

Lemma completed_above (chs : list chapter) (s1 s2 : list str) (k j0 c : nat) :
  length s1 = length s2 ->
  (forall j, 0 < j -> nth (2 * j) s1 [] = nth (2 * j) s2 []) ->
  completed chs s1 k (2 * j0 + 1) c = completed chs s2 k (2 * j0 + 1) c.
Proof.
  intros Hlen Heven. revert j0 c. induction k as [|k IH]; intros j0 c; [reflexivity|].
  cbn [completed].
  replace (2 * j0 + 1 + 2) with (2 * (j0 + 1) + 1) by lia. rewrite !IH.
  destruct (chs !! c) as [ch|]; [|reflexivity].
  assert (Hp : section_page s1 ch (2 * j0 + 1) = section_page s2 ch (2 * j0 + 1)).
  { unfold section_page, section_body.
    rewrite Hlen. replace (2 * j0 + 1 + 1) with (2 * (j0 + 1)) by lia.
    now rewrite Heven by lia. }
  now rewrite Hp.
Qed.

(** From the first delimiter line on, the sections do not depend on what
    was collected before it. *)
Lemma sections_from_delimiter (above : list str) (d title : str) (below : list str) :
  Forall (fun l => delimiter_title l = None) above ->
  delimiter_title d = Some title ->
  exists first rest,
    sections_of_lines [] (above ++ d :: below) = first :: rest
    /\ rest = tl (sections_of_lines [] (d :: below)).
Proof.
  intros Ha Hd. rewrite sections_plain by (auto; discriminate).
  cbn [sections_of_lines]. rewrite Hd. destruct below; eauto.
Qed.

(** X13. A save in the full-book view drops what stands above the first
    delimiter line: two texts that differ only there leave the same
    book. *)
Theorem text_above_first_delimiter (e : editor) (text1 text2 : str)
    (above1 above2 : list str) (d title : str) (below : list str) :
  view_mode e = full_book_view ->
  lines (strip (text1 ++ [nl])) = above1 ++ d :: below ->
  lines (strip (text2 ++ [nl])) = above2 ++ d :: below ->
  Forall (fun l => delimiter_title l = None) above1 ->
  Forall (fun l => delimiter_title l = None) above2 ->
  delimiter_title d = Some title ->
  current_book (save_epub_to_path (with_text e text1))
  = current_book (save_epub_to_path (with_text e text2)).
Proof.
  intros Hm E1 E2 Ha1 Ha2 Hd.
  rewrite !full_book_commit by exact Hm.
  assert (Hs : forall text above,
            lines (strip (text ++ [nl])) = above ++ d :: below ->
            Forall (fun l => delimiter_title l = None) above ->
            exists first,
              chapter_sections (with_text e text)
              = first :: tl (sections_of_lines [] (d :: below))).
  { intros text above E Ha. unfold chapter_sections, editor_get.
    cbn [with_text editor_text]. rewrite split_lines, E.
    destruct (sections_from_delimiter above d title below Ha Hd)
      as [first [rest [-> ->]]]. eauto. }
  unfold turns_done.
  destruct (Hs text1 above1 E1 Ha1) as [f1 ->].
  destruct (Hs text2 above2 E2 Ha2) as [f2 ->].
  cbn [with_text chapters current_book length].
  assert (Heven : forall j, 0 < j ->
            nth (2 * j) (f1 :: tl (sections_of_lines [] (d :: below))) []
            = nth (2 * j) (f2 :: tl (sections_of_lines [] (d :: below))) []).
  { intros j Hj. destruct j as [|j]; [lia|].
    replace (2 * S j) with (S (2 * j + 1)) by lia. reflexivity. }
  rewrite (completed_above (chapters e) (f1 :: tl (sections_of_lines [] (d :: below)))
             (f2 :: tl (sections_of_lines [] (d :: below))) _ 0 0 eq_refl Heven).
  f_equal. apply (commit_loop_above _ _ _ _ 0); [reflexivity | exact Heven].
Qed.

(** X13 on the two-chapter book, with a note typed above the first
    delimiter. *)
Lemma text_above_first_delimiter_witness :
  current_book (save_epub_to_path (with_text loaded_ab typed_above_ab))
  = current_book (save_epub_to_path loaded_ab).
Proof.
  apply (text_above_first_delimiter loaded_ab typed_above_ab (editor_text loaded_ab)
           [lit "a note"] [] (delimiter_line (lit "A")) (lit "A")
           [[]; lit "alpha"; []; delimiter_line (lit "B"); []; lit "beta"]);
    try reflexivity; repeat constructor.
Defined.

(** * The formatting commands *)

Lemma take_drop_middle (before selected behind : str) :
  take (length selected) (drop (length before) (before ++ selected ++ behind))
  = selected
  /\ take (length before) (before ++ selected ++ behind) = before
  /\ drop (length before + length selected) (before ++ selected ++ behind) = behind.
Proof.
  split; [|split].
  - rewrite drop_app_length. apply take_app_length.
  - apply take_app_length.
  - rewrite app_assoc, <- length_app. apply drop_app_length.
Qed.

Lemma insert_format_selection (prefix suffix before selected behind : str) (k : nat) :
  selected <> [] -> k <= length selected ->
  insert_format prefix suffix (selecting before selected behind k)
  = cursor_between (before ++ prefix ++ selected ++ suffix) behind.
Proof.
  intros Hne Hk. unfold insert_format, selecting, cursor_between.
  cbn [sel_range widget_text insert_mark].
  replace (length before + length selected - length before)
    with (length selected) by lia.
  destruct (take_drop_middle before selected behind) as [-> [-> ->]].
  assert (Hmark : mark_after_delete (length before)
                    (length before + length selected) (length before + k)
                  = length before).
  { unfold mark_after_delete.
    destruct (Nat.leb_spec (length before + k) (length before)); [lia|].
    destruct (Nat.ltb_spec (length before + k) (length before + length selected));
      lia. }
  rewrite Hmark, take_app_length, drop_app_length.
  rewrite !length_app. f_equal; first [lia | now rewrite <- ?app_assoc].
Qed.

(** X14. A formatting command on a selection, the cursor standing in the
    selection or at one of its ends, puts the markers around the selected
    text where it stands, leaves the rest of the text as it is, and ends
    with nothing selected and the cursor behind the closing marker. With
    the markers of Bold, Italic and Underline around a text on one line,
    in a text that holds no other asterisk or underscore, the conversion
    of the result has that text in a [strong], [em] or [u] element. *)
Theorem format_selection (prefix suffix before selected behind : str) (k : nat) :
  selected <> [] -> k <= length selected ->
  insert_format prefix suffix (selecting before selected behind k)
  = cursor_between (before ++ prefix ++ selected ++ suffix) behind
  /\ (one_line selected ->
      ~ In 42%N (before ++ selected ++ behind) ->
      ~ In 95%N (before ++ selected ++ behind) ->
      convert_formatting
        (widget_text (insert_format (lit "**") (lit "**")
                        (selecting before selected behind k)))
      = before ++ lit "<strong>" ++ selected ++ lit "</strong>" ++ behind
      /\ convert_formatting
           (widget_text (insert_format (lit "*") (lit "*")
                           (selecting before selected behind k)))
         = before ++ lit "<em>" ++ selected ++ lit "</em>" ++ behind
      /\ convert_formatting
           (widget_text (insert_format (lit "__") (lit "__")
                           (selecting before selected behind k)))
         = before ++ lit "<u>" ++ selected ++ lit "</u>" ++ behind).
Proof.
  intros Hne Hk. split; [now apply insert_format_selection|].
  intros Hl H42 H95. rewrite !insert_format_selection by assumption.
  unfold cursor_between. cbn [widget_text]. rewrite <- !app_assoc.
  split; [|split].
  - now apply bold_pair.
  - now apply italic_pair.
  - now apply underline_pair.
Qed.

(** X14 on a selected word, the cursor at its end. *)
Lemma format_selection_witness :
  convert_formatting
    (widget_text (insert_format (lit "**") (lit "**")
                    (selecting (lit "a ") (lit "word") (lit " b") 4)))
  = lit "a <strong>word</strong> b".
Proof.
  destruct (format_selection (lit "**") (lit "**") (lit "a ") (lit "word") (lit " b") 4)
    as [_ H].
  - discriminate.
  - vm_compute. lia.
  - destruct H as [H _]; [reflexivity | | | exact H]; intros H; literal_free H.
Defined.

(** An empty pair of bold markers, in a text without another asterisk. *)
Lemma empty_bold_unmatched (a b : str) :
  ~ In 42%N a -> ~ In 42%N b ->
  forall a1 x a2, a ++ lit "****" ++ b = a1 ++ x :: a2 ->
    match_at re_bold (after None a1) (x :: a2) = None.
Proof.
  intros Ha Hb a1 x a2 E.
  destruct (N.eqb_spec x 42%N) as [->|Hx];
    [|apply run_first_lit with (c := 42%N); [reflexivity | exact Hx]].
  destruct (marker_place 42%N a _ a1 a2 Ha E) as [r1 [E1 _]].
  assert (Hin : forall u v, b = u ++ 42%N :: v -> False).
  { intros u v Eb. apply Hb. rewrite Eb. apply in_or_app. right. now left. }
  destruct (match_at re_bold (after None a1) (42%N :: a2)) as [[g rest]|] eqn:Hm;
    [exfalso | first [reflexivity | exact Hm]].
  apply match_bold_inv in Hm as [Es Hg].
  change (lit "**" ++ g ++ lit "**" ++ rest) with (42%N :: 42%N :: g ++ 42%N :: 42%N :: rest)
    in Es.
  change (lit "****" ++ b) with (42%N :: 42%N :: 42%N :: 42%N :: b) in E1.
  injection Es as ->.
  assert (Hshort : forall w, g ++ 42%N :: 42%N :: rest = w ++ b ->
                             length w <= 2 -> False).
  { intros w Ew Hw.
    destruct g as [|y g]; [exfalso; apply Hg; reflexivity|]. cbn [app] in Ew.
    destruct w as [|w1 [|w2 [|w3 w]]]; cbn [app length] in *; try lia.
    - apply (Hin (y :: g) (42%N :: rest)). now rewrite <- Ew.
    - injection Ew as _ Ew. apply (Hin g (42%N :: rest)). now rewrite <- Ew.
    - injection Ew as _ Ew. destruct g as [|z g]; cbn [app] in Ew.
      + injection Ew as _ Ew. apply (Hin [] rest). now rewrite <- Ew.
      + injection Ew as _ Ew. apply (Hin g (42%N :: rest)). now rewrite <- Ew. }
  destruct r1 as [|z1 [|z2 [|z3 [|z4 r1]]]]; cbn [app] in E1.
  - injection E1 as E1. apply (Hshort [42%N; 42%N]); [|cbn; lia].
    cbn [app]. symmetry. exact E1.
  - injection E1 as _ E1. apply (Hshort [42%N]); [|cbn; lia].
    cbn [app]. symmetry. exact E1.
  - injection E1 as _ _ E1. apply (Hshort []); [|cbn; lia].
    cbn [app]. symmetry. exact E1.
  - injection E1 as _ _ _ E1. apply (Hin [] (g ++ 42%N :: 42%N :: rest)).
    exact E1.
  - injection E1 as _ _ _ _ E1. apply (Hin r1 (42%N :: g ++ 42%N :: 42%N :: rest)).
    exact E1.
Qed.

Lemma empty_bold_pair (a b : str) :
  ~ In 42%N (a ++ b) -> ~ In 95%N (a ++ b) ->
  convert_formatting (a ++ lit "****" ++ b) = a ++ lit "<em>*</em>*" ++ b.
Proof.
  intros H42 H95.
  assert (Ha : ~ In 42%N a) by (intros H; apply H42, in_or_app; now left).
  assert (Hb : ~ In 42%N b) by (intros H; apply H42, in_or_app; now right).
  assert (Hstar : forall prev, match_at re_italic prev (42%N :: b) = None).
  { intros prev.
    destruct (match_at re_italic prev (42%N :: b)) as [[g rest]|] eqn:Hm;
      [exfalso | first [reflexivity | exact Hm]].
    apply match_italic_inv in Hm as [Es _].
    change (lit "*" ++ g ++ lit "*" ++ rest) with (42%N :: g ++ 42%N :: rest) in Es.
    injection Es as Es. apply Hb. rewrite Es. apply in_or_app. right. now left. }
  unfold convert_formatting.
  rewrite (sub_no_match re_bold) by (apply empty_bold_unmatched; assumption).
  assert (Hi : Re.sub re_italic (lit "<em>") (lit "</em>") (a ++ lit "****" ++ b)
               = a ++ lit "<em>*</em>*" ++ b).
  { unfold Re.sub. rewrite sub_scan_copy.
    - f_equal.
      pose proof (sub_scan_match re_italic (lit "<em>") (lit "</em>") 42%N
                    [42%N; 42%N] (42%N :: b) [42%N] (after None a) eq_refl) as H.
      etransitivity; [exact H|].
      change (lit "<em>*</em>*" ++ b)
        with (lit "<em>" ++ [42%N] ++ lit "</em>" ++ 42%N :: b).
      repeat f_equal.
      pose proof (sub_scan_copy re_italic (lit "<em>") (lit "</em>") [42%N] b
                    (after (after None a) [42%N; 42%N; 42%N])) as Hc.
      etransitivity; [apply Hc|].
      + intros a1 x a2 E. destruct a1 as [|y a1]; [|destruct a1; discriminate].
        injection E as <- <-. cbn [app]. apply Hstar.
      + cbn [app]. f_equal.
        apply (sub_scan_absent re_italic _ _ 42%N); [reflexivity | exact Hb].
    - intros a1 x a2 E. apply run_first_lit with (c := 42%N); [reflexivity|].
      intros ->. apply Ha. rewrite E. apply in_or_app. right. now left. }
  rewrite Hi. apply (sub_absent re_underline _ _ _ 95%N); [reflexivity|].
  intros Hin. apply in_app_or in Hin as [Hin|Hin];
    [apply H95, in_or_app; now left|].
  apply in_app_or in Hin as [Hin|Hin]; [literal_free Hin|].
  apply H95, in_or_app; now right.
Qed.

(** X15. A formatting command without a selection inserts the two markers
    at the cursor and puts the cursor between them; the Heading command
    inserts [# ] alone, whatever the closing marker is, and leaves the
    cursor behind it. The text on both sides of the cursor is kept. The
    empty pair the Bold command leaves is not bold: in a text without
    another asterisk or underscore, the conversion makes an [em] element
    around one asterisk of its four, followed by another asterisk. *)
Theorem format_at_cursor (prefix suffix before behind : str) :
  insert_format prefix suffix (cursor_between before behind)
  = (if str_eqb prefix (lit "# ")
     then cursor_between (before ++ lit "# ") behind
     else cursor_between (before ++ prefix) (suffix ++ behind))
  /\ (~ In 42%N (before ++ behind) -> ~ In 95%N (before ++ behind) ->
      convert_formatting
        (widget_text (insert_format (lit "**") (lit "**")
                        (cursor_between before behind)))
      = before ++ lit "<em>*</em>*" ++ behind).
Proof.
  assert (H : forall p s,
            insert_format p s (cursor_between before behind)
            = if str_eqb p (lit "# ")
              then cursor_between (before ++ lit "# ") behind
              else cursor_between (before ++ p) (s ++ behind)).
  { intros p s. unfold insert_format, cursor_between.
    cbn [sel_range widget_text insert_mark].
    rewrite take_app_length, drop_app_length.
    destruct (str_eqb p (lit "# ")) eqn:E.
    - apply str_eqb_eq in E. subst p. rewrite length_app, <- app_assoc.
      reflexivity.
    - rewrite !length_app, <- !app_assoc. f_equal. lia. }
  split; [apply H|]. intros H42 H95. rewrite H.
  change (str_eqb (lit "**") (lit "# ")) with false. cbv iota.
  unfold cursor_between. cbn [widget_text]. rewrite <- app_assoc.
  now apply empty_bold_pair.
Qed.

(** ** The Heading command on a line *)

Lemma sub_heading_line (k : nat) (pre post before behind : str) (c : char) (s : str) :
  ~ In 35%N before -> ~ In 35%N behind ->
  at_bol (after None before) = true -> at_eol behind = true ->
  isspace c = false -> one_line (c :: s) ->
  Re.sub (re_heading (S k)) pre post
    (before ++ repeat 35%N (S k) ++ 32%N :: (c :: s) ++ behind)
  = before ++ pre ++ (c :: s) ++ post ++ behind.
Proof.
  intros Hb Hh Hbol Heol Hc Hl. unfold Re.sub.
  rewrite sub_scan_copy.
  - f_equal.
    pose proof (sub_scan_match (re_heading (S k)) pre post 35%N
                  (repeat 35%N k ++ 32%N :: c :: s) behind (c :: s)
                  (after None before)) as H.
    rewrite <- !app_assoc in H. cbn [app repeat] in *.
    etransitivity;
      [apply H;
       exact (heading_match (S k) (after None before) c s behind Hbol Hc Hl Heol)|].
    repeat f_equal.
    apply (sub_scan_absent (re_heading (S k)) pre post 35%N behind);
      [apply heading_first_lit | assumption].
  - intros a1 x a2 E. apply run_first_lit with (c := 35%N);
      [apply heading_first_lit|].
    intros ->. apply Hb. rewrite E. apply in_or_app. right. now left.
Qed.

(** X16. The Heading command on a selected line: when the selection is a
    whole line that does not start with white space, in a text without a
    hash sign, the command puts [# ] in front of the line and nothing
    behind it, and the heading rules of the conversion turn the line into
    an [h1] element. *)
Theorem heading_command (before behind : str) (c : char) (s : str) (k : nat) :
  k <= length (c :: s) ->
  isspace c = false -> one_line (c :: s) ->
  at_bol (after None before) = true -> at_eol behind = true ->
  ~ In 35%N (before ++ (c :: s) ++ behind) ->
  widget_text (insert_format (lit "# ") [] (selecting before (c :: s) behind k))
  = before ++ lit "# " ++ (c :: s) ++ behind
  /\ convert_headings
       (widget_text (insert_format (lit "# ") [] (selecting before (c :: s) behind k)))
     = before ++ lit "<h1>" ++ (c :: s) ++ lit "</h1>" ++ behind.
Proof.
  intros Hk Hc Hl Hbol Heol H35.
  rewrite insert_format_selection by (auto; discriminate).
  unfold cursor_between. cbn [widget_text]. rewrite app_nil_r, <- !app_assoc.
  split; [reflexivity|].
  assert (Hb : ~ In 35%N before)
    by (intros H; apply H35, in_or_app; now left).
  assert (Hs : ~ In 35%N (c :: s))
    by (intros H; apply H35, in_or_app; right; apply in_or_app; now left).
  assert (Hh : ~ In 35%N behind)
    by (intros H; apply H35, in_or_app; right; apply in_or_app; now right).
  unfold convert_headings.
  pose proof (sub_heading_line 0 (lit "<h1>") (lit "</h1>") before behind c s
                Hb Hh Hbol Heol Hc Hl) as H1.
  change (repeat 35%N 1 ++ 32%N :: (c :: s) ++ behind)
    with (lit "# " ++ (c :: s) ++ behind) in H1.
  rewrite H1.
  assert (Hfree : ~ In 35%N (before ++ lit "<h1>" ++ (c :: s) ++ lit "</h1>" ++ behind)).
  { apply not_in_pieces; [assumption | |]; intros H; literal_free H. }
  rewrite (sub_absent (re_heading 2) _ _ _ 35%N); [|apply heading_first_lit|exact Hfree].
  apply (sub_absent (re_heading 3) _ _ _ 35%N); [apply heading_first_lit|exact Hfree].
Qed.

(** X16 on the second of three lines. *)
Lemma heading_command_witness :
  convert_headings
    (widget_text
       (insert_format (lit "# ") []
          (selecting (lit "intro" ++ [nl]) (lit "Part one") (nl :: lit "text") 0)))
  = lit "intro" ++ nl :: lit "<h1>Part one</h1>" ++ nl :: lit "text".
Proof.
  destruct (heading_command (lit "intro" ++ [nl]) (nl :: lit "text") 80%N
              (lit "art one") 0) as [_ H];
    first [exact H | reflexivity | vm_compute; lia | intros H; literal_free H].
Defined.

(** ** What the formatting tags cover *)

Lemma pair_inv (r : regex) (prev : option char) (s g rest : str) (c : char) (m : str) :
  r = List.map Lit (c :: m) ++ [Group false dot] ++ List.map Lit (c :: m) ->
  match_at r prev s = Some (g, rest) ->
  s = (c :: m) ++ g ++ (c :: m) ++ rest /\ g <> [] /\ one_line g.
Proof.
  intros -> H. apply run_sound in H as [w [-> D]].
  assert (Hlits : forall (l : str) g0 p w' g',
            derives (List.map Lit l) g0 p w' rest g' -> w' = l /\ g' = g0).
  { induction l as [|x l IH]; intros g0 p w' g' Hd; cbn in Hd.
    - exact Hd.
    - destruct Hd as [w'' [-> Hd]]. apply IH in Hd as [-> ->]. auto. }
  assert (Hpre : forall (l : str) (r' : regex) g0 p w' g',
            derives (List.map Lit l ++ r') g0 p w' rest g' ->
            exists w'', w' = l ++ w'' /\ derives r' g0 (after p l) w'' rest g').
  { induction l as [|x l IH]; intros r' g0 p w' g' Hd; cbn in Hd.
    - exists w'. auto.
    - destruct Hd as [w'' [-> Hd]]. apply IH in Hd as [w3 [-> Hd]].
      exists w3. auto. }
  apply Hpre in D as [w1 [-> D]]. cbn [app derives] in D.
  destruct D as [u [w2 [-> [Hu [Hcls D]]]]].
  apply Hlits in D as [-> ->].
  split; [now rewrite <- !app_assoc | auto].
Qed.

Lemma heading_inv (prev : option char) (s g rest : str) :
  match_at (re_heading 1) prev s = Some (g, rest) ->
  exists u, s = lit "#" ++ u ++ g ++ rest /\ u <> [] /\ forallb isspace u = true
            /\ g <> [] /\ one_line g /\ at_bol prev = true /\ at_eol rest = true.
Proof.
  intros H. apply run_sound in H as [w [-> D]].
  rewrite re_heading_tail in D. cbn [repeat List.map app derives] in D.
  destruct D as [Hb [w' [-> D]]].
  apply derives_heading_tail in D as [u [-> [Hu [Hs [Hg [Hl He]]]]]].
  exists u. repeat split; auto. cbn. now rewrite <- app_assoc.
Qed.

(** X17. What the widget tags as formatted: a range tagged bold, italic or
    underlined is a pair of markers around a non-empty text on one line,
    and a range tagged as a heading starts at the start of a line with
    one hash sign followed by white space and runs to the end of a line.
    Only the level-one pattern is used for the tag: no range starts with
    [##]. *)
Theorem formatting_ranges (content : str) :
  (forall x y, In (x, y) (tag_bold (apply_text_formatting content)) ->
     exists pre g rest,
       content = pre ++ lit "**" ++ g ++ lit "**" ++ rest
       /\ x = length pre /\ y = x + length (lit "**" ++ g ++ lit "**")
       /\ g <> [] /\ one_line g)
  /\ (forall x y, In (x, y) (tag_italic (apply_text_formatting content)) ->
        exists pre g rest,
          content = pre ++ lit "*" ++ g ++ lit "*" ++ rest
          /\ x = length pre /\ y = x + length (lit "*" ++ g ++ lit "*")
          /\ g <> [] /\ one_line g)
  /\ (forall x y, In (x, y) (tag_underline (apply_text_formatting content)) ->
        exists pre g rest,
          content = pre ++ lit "__" ++ g ++ lit "__" ++ rest
          /\ x = length pre /\ y = x + length (lit "__" ++ g ++ lit "__")
          /\ g <> [] /\ one_line g)
  /\ (forall x y, In (x, y) (tag_heading (apply_text_formatting content)) ->
        exists pre u g rest,
          content = pre ++ lit "#" ++ u ++ g ++ rest
          /\ x = length pre /\ y = x + length (lit "#" ++ u ++ g)
          /\ u <> [] /\ forallb isspace u = true /\ g <> [] /\ one_line g
          /\ at_bol (after None pre) = true /\ at_eol rest = true).
Proof.
  assert (Hpair : forall r c m x y,
            r = List.map Lit (c :: m) ++ [Group false dot] ++ List.map Lit (c :: m) ->
            In (x, y) (finditer r content) ->
            exists pre g rest,
              content = pre ++ (c :: m) ++ g ++ (c :: m) ++ rest
              /\ x = length pre /\ y = x + length ((c :: m) ++ g ++ (c :: m))
              /\ g <> [] /\ one_line g).
  { intros r c m x y Er H.
    destruct (finditer_scan_match r content None 0 0 x y H)
      as [pre [w [rest [g [E [Hx [Hy Hm]]]]]]].
    destruct (pair_inv r _ _ _ _ c m Er Hm) as [Ew [Hg Hl]].
    assert (Ew' : w = (c :: m) ++ g ++ (c :: m)).
    { apply (app_inv_tail rest). rewrite Ew, <- !app_assoc. reflexivity. }
    subst w. exists pre, g, rest. repeat split; auto.
    rewrite E, <- !app_assoc. reflexivity. }
  cbn [apply_text_formatting tag_bold tag_italic tag_underline tag_heading].
  split; [|split; [|split]].
  - intros x y H. exact (Hpair re_bold 42%N [42%N] x y eq_refl H).
  - intros x y H. exact (Hpair re_italic 42%N [] x y eq_refl H).
  - intros x y H. exact (Hpair re_underline 95%N [95%N] x y eq_refl H).
  - intros x y H.
    destruct (finditer_scan_match (re_heading 1) content None 0 0 x y H)
      as [pre [w [rest [g [E [Hx [Hy Hm]]]]]]].
    destruct (heading_inv _ _ _ _ Hm) as [u [Ew [Hu [Hs [Hg [Hl [Hb He]]]]]]].
    assert (Ew' : w = lit "#" ++ u ++ g).
    { apply (app_inv_tail rest). rewrite Ew, <- !app_assoc. reflexivity. }
    subst w. exists pre, u, g, rest. repeat split; auto.
    rewrite E, <- !app_assoc. reflexivity.
Qed.

(** * The separators of a book loaded as a whole *)

Lemma full_book_count (parse : str -> list node) (e : editor) :
  chapters e <> [] ->
  Forall (fun c => delimiter_ready (ch_title c)) (chapters e) ->
  Forall (fun c => delimiter_free
                     (html_to_markdown (parse (chapter_source (current_book e) c))))
    (chapters e) ->
  count_delimiters (lines (strip (editor_get (load_full_book parse e))))
  = length (chapters e).
Proof.
  intros Hne Hready Hfree.
  destruct (loaded_sections parse e Hne) as [H1 _].
  set (secs := book_sections parse (current_book e) (chapters e)) in *.
  assert (Hr : Forall (fun sec => delimiter_ready (fst sec)) secs).
  { unfold secs, book_sections. apply List.Forall_map. exact Hready. }
  assert (Hf : Forall (fun sec => delimiter_free (snd sec)) secs).
  { unfold secs, book_sections. apply List.Forall_map. exact Hfree. }
  assert (Hn : length secs = length (chapters e))
    by (unfold secs, book_sections; apply length_map).
  rewrite split_lines, (lines_chunks _ Hr), (sections_chunks secs [] Hr Hf) in H1.
  rewrite joined_sections_length, sections_count in H1. lia.
Qed.

(** X18. When every chapter title is non-empty and on one line and no
    line of a chapter's markup is a delimiter, the text [_load_full_book]
    puts into the widget gets one separator tag for each chapter, and a
    save of it finds as many titles as there are chapters. *)
Theorem full_book_separators (parse : str -> list node) (e : editor) :
  chapters e <> [] ->
  Forall (fun c => delimiter_ready (ch_title c)) (chapters e) ->
  Forall (fun c => delimiter_free
                     (html_to_markdown (parse (chapter_source (current_book e) c))))
    (chapters e) ->
  length (tag_chapter_separator
            (apply_text_formatting (editor_get (load_full_book parse e))))
  = length (chapters e)
  /\ length (chapter_sections (load_full_book parse e)) = 2 * length (chapters e) + 1.
Proof.
  intros Hne Hready Hfree.
  pose proof (full_book_count parse e Hne Hready Hfree) as Hc.
  split; [|rewrite sections_count, Hc; lia].
  cbn [apply_text_formatting tag_chapter_separator].
  rewrite finditer_delimiter_count. rewrite <- Hc.
  unfold load_full_book, editor_get.
  destruct (chapters e) as [|c0 cs] eqn:Ec; [congruence|].
  cbn [editor_text]. rewrite strip_buffer, lines_terminated, count_delimiters_app.
  change (count_delimiters [[]]) with 0. lia.
Qed.

(** X18 on the two-chapter book. *)
Lemma full_book_separators_witness :
  length (tag_chapter_separator
            (apply_text_formatting (editor_get (load_full_book sample_parse loaded_ab))))
  = 2.
Proof.
  destruct (full_book_separators sample_parse loaded_ab) as [H _].
  - discriminate.
  - repeat constructor; discriminate.
  - repeat constructor.
  - exact H.
Defined.

(** * A heading without text *)

(** X19. A heading element of level 1 to 6 that holds white space only is
    written as its hash signs alone, and the conversion back makes a
    paragraph of them: the heading comes back as a paragraph that holds
    one to six hash signs. *)
Theorem empty_heading_round_trip (level : nat) (text : str) :
  1 <= level <= 6 ->
  Forall (fun c => isspace c = true) text ->
  html_to_markdown [Tag (heading_name level) [Text text]] = repeat 35%N level
  /\ markdown_to_html (html_to_markdown [Tag (heading_name level) [Text text]])
     = lit "<p>" ++ repeat 35%N level ++ lit "</p>".
Proof.
  intros Hlevel Hs.
  assert (Hm : html_to_markdown [Tag (heading_name level) [Text text]]
               = repeat 35%N level).
  { assert (Ht : strip (get_text (Tag (heading_name level) [Text text])) = []).
    { cbn [get_text List.map concat]. rewrite app_nil_r. now apply strip_spaces. }
    assert (Hcases : level = 1 \/ level = 2 \/ level = 3 \/ level = 4 \/ level = 5
                     \/ level = 6) by lia.
    unfold html_to_markdown.
    destruct Hcases as [->|[->|[->|[->|[->| ->]]]]];
      match goal with |- context [find_all markup_names ?x] =>
        change (find_all markup_names x) with x end;
      cbn [fold_left app]; unfold element_markup;
      rewrite Ht; reflexivity. }
  split; [exact Hm|]. rewrite Hm.
  assert (Hcases : level = 1 \/ level = 2 \/ level = 3 \/ level = 4 \/ level = 5
                   \/ level = 6) by lia.
  destruct Hcases as [->|[->|[->|[->|[->| ->]]]]]; vm_compute; reflexivity.
Qed.

(** X19 on an [h2] element that holds a blank. *)
Lemma empty_heading_round_trip_witness :
  markdown_to_html (html_to_markdown [Tag (lit "h2") [Text (lit " ")]])
  = lit "<p>##</p>".
Proof.
  destruct (empty_heading_round_trip 2 (lit " ")) as [_ H].
  - lia.
  - repeat constructor.
  - exact H.
Defined.
